(** * Payment-transaction core of the blossom backend

    A shallow embedding of the payment service (createPayment,
    approvePayment, failPayment, cancelPayment, getPaymentById), of the
    idempotency service and middleware, of the validators feeding them and
    of the POST /payments route, followed by the properties of the
    specification that were checked against them.  The validation
    middleware with the rest of the validators, the masking of the
    logger, the card service and the cancellation route are embedded as
    well, with properties of their own.

    JavaScript values are embedded as a small tagged union; a finite IEEE
    double is embedded as the rational number it denotes, and a string as
    the sequence of its code units, which are taken to be below 256.  The
    relational store is embedded as lists of rows with the uniqueness
    constraints of the schema, the lock store as a finite map from keys to
    an expiry.
    The log lines of the program (console and the masking logger) write
    nothing that the program reads back and are left out. *)

From Stdlib Require Import ZArith QArith String Ascii List Bool Lia DecimalString.
From stdpp Require Import base gmap strings.
Import ListNotations.

Local Open Scope string_scope.
Local Open Scope Z_scope.

(** ** JavaScript values *)

Inductive JSNumber : Type :=
| NaN
| PosInfinity
| NegInfinity
| Finite (q : Q).

Inductive JSValue : Type :=
| VUndefined
| VNull
| VBool (b : bool)
| VNumber (n : JSNumber)
| VString (s : string).

(** The parts of the JavaScript runtime, of the crypto library and of the
    database that the program relies on but does not define. *)
Class JSRuntime : Type := {
  (** [Number(s)] on a string *)
  StringToNumber : string -> JSNumber;
  (** [String(n)] on a number, as used by template literals and JSON *)
  NumberToString : JSNumber -> string;
  (** [crypto.createHash('sha256').update(s).digest('hex')] *)
  sha256hex : string -> string;
  (** The time zone of the process, in milliseconds: [LocalTZA t true] is
      the offset of local time from UTC at the instant [t], and
      [LocalTZA t false] the offset at the local time [t]. *)
  LocalTZA : Z -> bool -> Z;
  (** What a column of type INT and one of type DECIMAL(10,2) give back
      for a value that was stored in them: the integer, and the amount
      rounded to two decimals, which the driver returns as a string. *)
  INT_column : JSValue -> JSValue;
  DECIMAL_column : JSValue -> JSValue
}.

Definition Qlt_bool (x y : Q) : bool := negb (Qle_bool y x).

Definition js_lt (a b : JSNumber) : bool :=
  match a, b with
  | Finite x, Finite y => Qlt_bool x y
  | Finite _, PosInfinity => true
  | NegInfinity, Finite _ => true
  | NegInfinity, PosInfinity => true
  | _, _ => false
  end.

Definition js_le (a b : JSNumber) : bool :=
  match a, b with
  | Finite x, Finite y => Qle_bool x y
  | Finite _, PosInfinity => true
  | NegInfinity, Finite _ => true
  | NegInfinity, PosInfinity => true
  | PosInfinity, PosInfinity => true
  | NegInfinity, NegInfinity => true
  | _, _ => false
  end.

Definition js_gt (a b : JSNumber) : bool := js_lt b a.
Definition js_ge (a b : JSNumber) : bool := js_le b a.

Definition isNaN (n : JSNumber) : bool :=
  match n with NaN => true | _ => false end.

Definition isFinite (n : JSNumber) : bool :=
  match n with Finite _ => true | _ => false end.

Definition Number_isInteger (n : JSNumber) : bool :=
  match n with
  | Finite q => (Qnum q mod Zpos (Qden q) =? 0)%Z
  | _ => false
  end.

(** The literal [0.01] denotes the double nearest to one hundredth. *)
Definition js_0_01 : Q := 5764607523034235 # 576460752303423488.
Definition js_10000000 : Q := 10000000 # 1.

(** Truthiness, as tested by [!x] and [if (x)]. *)
Definition truthy (v : JSValue) : bool :=
  match v with
  | VUndefined | VNull => false
  | VBool b => b
  | VNumber NaN => false
  | VNumber (Finite q) => negb (Qnum q =? 0)%Z
  | VNumber _ => true
  | VString EmptyString => false
  | VString (String _ _) => true
  end.

Definition typeof_string (v : JSValue) : bool :=
  match v with VString _ => true | _ => false end.

Section Runtime.
Context `{RT : JSRuntime}.

(** [Number(v)] *)
Definition ToNumber (v : JSValue) : JSNumber :=
  match v with
  | VUndefined => NaN
  | VNull => Finite 0
  | VBool true => Finite 1
  | VBool false => Finite 0
  | VNumber n => n
  | VString s => StringToNumber s
  end.

(** [`${v}`] *)
Definition ToString (v : JSValue) : string :=
  match v with
  | VUndefined => "undefined"
  | VNull => "null"
  | VBool true => "true"
  | VBool false => "false"
  | VNumber n => NumberToString n
  | VString s => s
  end.

(** ** validator.js *)

Definition isValidUserId (userId : JSValue) : bool :=
  match userId with
  | VNull | VUndefined => false
  | _ =>
      let id := ToNumber userId in
      Number_isInteger id && js_gt id (Finite 0)
  end.

Definition isValidAmount (amount : JSValue) : bool :=
  match amount with
  | VNull | VUndefined => false
  | _ =>
      let num := ToNumber amount in
      if isNaN num || negb (isFinite num) then false
      else js_gt num (Finite 0) && js_le num (Finite js_10000000)
           && js_ge num (Finite js_0_01)
  end.

(** The pieces of the pattern
    [/^[0-9a-f]{8}-[0-9a-f]{4}-4[0-9a-f]{3}-[89ab][0-9a-f]{3}-[0-9a-f]{12}$/i]. *)
Inductive UuidPiece : Type := PHex | PDash | PFour | PVariant.

Definition is_hex (c : ascii) : bool :=
  let n := nat_of_ascii c in
  ((48 <=? n) && (n <=? 57) || (97 <=? n) && (n <=? 102)
   || (65 <=? n) && (n <=? 70))%nat.

Definition piece_matches (p : UuidPiece) (c : ascii) : bool :=
  let n := nat_of_ascii c in
  match p with
  | PHex => is_hex c
  | PDash => (n =? 45)%nat
  | PFour => (n =? 52)%nat
  | PVariant =>
      ((n =? 56) || (n =? 57) || (n =? 97) || (n =? 98) || (n =? 65) || (n =? 66))%nat
  end.

Fixpoint pieces_match (ps : list UuidPiece) (s : string) : bool :=
  match ps, s with
  | [], EmptyString => true
  | p :: ps', String c s' => piece_matches p c && pieces_match ps' s'
  | _, _ => false
  end.

Definition uuidV4Pattern : list UuidPiece :=
  repeat PHex 8 ++ [PDash] ++ repeat PHex 4 ++ [PDash; PFour] ++ repeat PHex 3
  ++ [PDash; PVariant] ++ repeat PHex 3 ++ [PDash] ++ repeat PHex 12.

Definition isValidIdempotencyKey (key : JSValue) : bool :=
  if negb (truthy key) || negb (typeof_string key) then false
  else match key with
       | VString k => pieces_match uuidV4Pattern k
       | _ => false
       end.

(** The lower-case form of a code unit below 256: the letters A to Z
    and the capital letters from 192 to 222, the multiplication sign 215
    apart, move up by 32. *)
Definition lower_char (c : ascii) : ascii :=
  let n := nat_of_ascii c in
  if ((65 <=? n) && (n <=? 90) || (192 <=? n) && (n <=? 222) && negb (n =? 215))%nat
  then ascii_of_nat (n + 32) else c.

(** [s.toLowerCase()], for a string of code units below 256. *)
Fixpoint toLowerCase (s : string) : string :=
  match s with
  | EmptyString => EmptyString
  | String c r => String (lower_char c) (toLowerCase r)
  end.

Definition validMethods : list string :=
  ["card"; "credit_card"; "debit_card"; "bank_transfer"; "mobile"; "paypal"].

Definition isValidPaymentMethod (method : JSValue) : bool :=
  if negb (truthy method) || negb (typeof_string method) then false
  else match method with
       | VString m => existsb (String.eqb (toLowerCase m)) validMethods
       | _ => false
       end.

End Runtime.

(** ** Errors, rows and the store *)

(** A thrown [Error]: its message and, for driver errors, its [code]. *)
Record JSError : Type := { message : string; code : option string }.

Definition Error (msg : string) : JSError := {| message := msg; code := None |}.

Inductive PaymentStatus : Type := Pending | Completed | Failed | Cancelled.

Definition status_eqb (a b : PaymentStatus) : bool :=
  match a, b with
  | Pending, Pending | Completed, Completed
  | Failed, Failed | Cancelled, Cancelled => true
  | _, _ => false
  end.

Definition status_string (s : PaymentStatus) : string :=
  match s with
  | Pending => "pending"
  | Completed => "completed"
  | Failed => "failed"
  | Cancelled => "cancelled"
  end.

(** A row of table [payments], as a SELECT gives it back. *)
Record Payment : Type := {
  payment_id : string;
  order_id : JSValue;
  user_id : JSValue;
  amount : JSValue;
  payment_method : JSValue;
  status : PaymentStatus;
  transaction_id : option string;
  gateway_response : option string;
  idempotency_key : string
}.

(** A row of table [payment_cancellations]. *)
Record Cancellation : Type := {
  cancellation_id : string;
  c_payment_id : string;
  reason : JSValue;
  cancelled_by : JSValue
}.

(** The JSON body of a response of the payment route. *)
Record ResponseBody : Type := {
  rb_success : bool;
  rb_message : option string;
  rb_error_code : option string;
  rb_payment_id : option string;
  rb_status : option string;
  rb_transaction_id : option string;
  rb_error_message : option string;
  rb_details : option string
}.

(** A row of table [idempotency_keys].  [response_data] holds the body
    whose JSON text the column stores: serialising and parsing a body of
    strings and booleans gives the body back. *)
Record IdempotencyRecord : Type := {
  ik_key : string;
  request_hash : string;
  response_data : ResponseBody;
  expires_at : Z
}.

Record Store : Type := {
  payments : list Payment;
  payment_cancellations : list Cancellation;
  idempotency_keys : list IdempotencyRecord
}.

Definition emptyStore : Store :=
  {| payments := []; payment_cancellations := []; idempotency_keys := [] |}.

(** Effects on collaborators outside the store. *)
Inductive Event : Type :=
| GatewayInvoked (paymentId : string)
| OrderMarkedPaid (orderId : JSValue).

(** The state of everything the payment service talks to.  [working] is
    the view of the open transaction, if there is one; [history] records
    the store as left by each write statement. *)
Record World : Type := {
  committed : Store;
  working : option Store;
  redis : gmap string (string * Z);
  events : list Event;
  history : list Store
}.

Definition initialWorld (s : Store) : World :=
  {| committed := s; working := None; redis := ∅; events := []; history := [] |}.

Definition set_working (o : option Store) (w : World) : World :=
  {| committed := committed w; working := o; redis := redis w;
     events := events w; history := history w |}.

Definition set_committed (s : Store) (w : World) : World :=
  {| committed := s; working := working w; redis := redis w;
     events := events w; history := history w |}.

Definition set_redis (r : gmap string (string * Z)) (w : World) : World :=
  {| committed := committed w; working := working w; redis := r;
     events := events w; history := history w |}.

Definition add_event (ev : Event) (w : World) : World :=
  {| committed := committed w; working := working w; redis := redis w;
     events := events w ++ [ev]; history := history w |}.

Definition add_history (s : Store) (w : World) : World :=
  {| committed := committed w; working := working w; redis := redis w;
     events := events w; history := history w ++ [s] |}.

(** ** A small monad for code that may throw *)

Inductive Outcome (A : Type) : Type :=
| Returned (a : A)
| Threw (e : JSError).
Arguments Returned {A} a.
Arguments Threw {A} e.

Definition IO (A : Type) : Type := World -> Outcome A * World.

Definition ret {A : Type} (a : A) : IO A := fun w => (Returned a, w).

Definition throw {A : Type} (e : JSError) : IO A := fun w => (Threw e, w).

Definition bind {A B : Type} (m : IO A) (k : A -> IO B) : IO B :=
  fun w =>
    match m w with
    | (Returned a, w') => k a w'
    | (Threw e, w') => (Threw e, w')
    end.

Notation "'let*' x := m 'in' k" := (bind m (fun x => k))
  (at level 10, x name, m at level 100, k at level 200).

(** [try { body } catch (error) { handler }] *)
Definition try_catch {A : Type} (body : IO A) (handler : JSError -> IO A) : IO A :=
  fun w =>
    match body w with
    | (Threw e, w') => handler e w'
    | r => r
    end.

(** [try { body } finally { fin }], for a [fin] that does not throw. *)
Definition finally {A : Type} (body : IO A) (fin : World -> World) : IO A :=
  fun w => let (r, w') := body w in (r, fin w').

(** ** The environment of one call *)

(** The places where a call leaves the program: the connection, the
    statements, the drawing of the random tokens, the lock store. *)
Inductive CallSite : Type :=
| CS_getConnection | CS_beginTransaction | CS_commit | CS_rollback
| CS_paymentIdToken | CS_cancellationIdToken
| CS_insertPayment | CS_approveUpdate | CS_approveSelect
| CS_failUpdate | CS_failSelect | CS_gatewayToken
| CS_cancelSelect | CS_cancelInsert | CS_cancelUpdate
| CS_getPaymentSelect | CS_getCancellationSelect
| CS_checkKeySelect | CS_validateSelect | CS_resultSelect
| CS_storeKeyInsert | CS_cleanupDelete
| CS_redisSetLock | CS_redisDelPayment | CS_redisDelUser
| CS_redisSetStatus | CS_redisDelLock.

(** What the surroundings answer during one call: the clock, the values
    drawn at random, and the failures of the infrastructure
    ([fault cs = Some e] makes the call at [cs] throw [e] without any
    effect). *)
Record Env : Type := {
  now : Z;
  fault : CallSite -> option JSError;
  generated_payment_id : string;
  generated_cancellation_id : string;
  generated_transaction_id : string;
  mathRandom : Q
}.

Definition no_fault : CallSite -> option JSError := fun _ => None.

Definition call (env : Env) (cs : CallSite) : IO unit :=
  match fault env cs with
  | Some e => throw e
  | None => ret tt
  end.

(** ** The connection *)

Definition view (w : World) : Store :=
  match working w with
  | Some s => s
  | None => committed w
  end.

(** A write statement acts on the open transaction, or on the committed
    store when there is none. *)
Definition write (s : Store) : IO unit :=
  fun w =>
    (Returned tt,
     add_history s (match working w with
                    | Some _ => set_working (Some s) w
                    | None => set_committed s w
                    end)).

Definition getConnection (env : Env) : IO unit := call env CS_getConnection.

(** START TRANSACTION: the transaction starts from the committed
    store. *)
Definition beginTransaction (env : Env) : IO unit :=
  let* _ := call env CS_beginTransaction in
  fun w => (Returned tt, set_working (Some (committed w)) w).

Definition commit (env : Env) : IO unit :=
  let* _ := call env CS_commit in
  fun w => (Returned tt, set_working None (set_committed (view w) w)).

Definition rollback (env : Env) : IO unit :=
  let* _ := call env CS_rollback in
  fun w => (Returned tt, set_working None w).

(** [connection.release()] hands the connection back to the pool.  The
    server is not told: a transaction that is open stays open. *)
Definition release (w : World) : World := w.

(** ** Statements *)

Definition ER_DUP_ENTRY (value key : string) : JSError :=
  {| message := "Duplicate entry '" ++ value ++ "' for key '" ++ key ++ "'";
     code := Some "ER_DUP_ENTRY" |}.

Definition with_payments (ps : list Payment) (s : Store) : Store :=
  {| payments := ps; payment_cancellations := payment_cancellations s;
     idempotency_keys := idempotency_keys s |}.

Definition with_cancellations (cs : list Cancellation) (s : Store) : Store :=
  {| payments := payments s; payment_cancellations := cs;
     idempotency_keys := idempotency_keys s |}.

Definition with_idempotency_keys (ks : list IdempotencyRecord) (s : Store) : Store :=
  {| payments := payments s; payment_cancellations := payment_cancellations s;
     idempotency_keys := ks |}.

(** [SELECT ... FROM payments WHERE payment_id = ?] *)
Definition select_payments (paymentId : string) (s : Store) : list Payment :=
  List.filter (fun p => String.eqb (payment_id p) paymentId) (payments s).

(** [INSERT INTO payments]: [payment_id] and [idempotency_key] are UNIQUE. *)
Definition insert_payment (p : Payment) (s : Store) : JSError + Store :=
  if existsb (fun r => String.eqb (payment_id r) (payment_id p)) (payments s)
  then inl (ER_DUP_ENTRY (payment_id p) "payments.payment_id")
  else if existsb (fun r => String.eqb (idempotency_key r) (idempotency_key p))
                  (payments s)
  then inl (ER_DUP_ENTRY (idempotency_key p) "payments.idempotency_key")
  else inr (with_payments (payments s ++ [p]) s).

Definition set_status (st : PaymentStatus) (p : Payment) : Payment :=
  {| payment_id := payment_id p; order_id := order_id p; user_id := user_id p;
     amount := amount p; payment_method := payment_method p; status := st;
     transaction_id := transaction_id p; gateway_response := gateway_response p;
     idempotency_key := idempotency_key p |}.

Definition set_transaction_id (t : option string) (p : Payment) : Payment :=
  {| payment_id := payment_id p; order_id := order_id p; user_id := user_id p;
     amount := amount p; payment_method := payment_method p; status := status p;
     transaction_id := t; gateway_response := gateway_response p;
     idempotency_key := idempotency_key p |}.

Definition set_gateway_response (g : option string) (p : Payment) : Payment :=
  {| payment_id := payment_id p; order_id := order_id p; user_id := user_id p;
     amount := amount p; payment_method := payment_method p; status := status p;
     transaction_id := transaction_id p; gateway_response := g;
     idempotency_key := idempotency_key p |}.

(** [UPDATE payments SET ... WHERE payment_id = ?] *)
Definition update_payments (paymentId : string) (f : Payment -> Payment)
    (s : Store) : Store :=
  with_payments
    (map (fun p => if String.eqb (payment_id p) paymentId then f p else p)
         (payments s)) s.

Definition affectedRows (paymentId : string) (s : Store) : nat :=
  length (select_payments paymentId s).

(** [INSERT INTO payment_cancellations]: [cancellation_id] is UNIQUE and
    [payment_id] references a payment. *)
Definition insert_cancellation (c : Cancellation) (s : Store) : JSError + Store :=
  if existsb (fun r => String.eqb (cancellation_id r) (cancellation_id c))
             (payment_cancellations s)
  then inl (ER_DUP_ENTRY (cancellation_id c) "payment_cancellations.cancellation_id")
  else if negb (existsb (fun p => String.eqb (payment_id p) (c_payment_id c))
                        (payments s))
  then inl {| message := "Cannot add or update a child row: a foreign key constraint fails";
              code := Some "ER_NO_REFERENCED_ROW_2" |}
  else inr (with_cancellations (payment_cancellations s ++ [c]) s).

Definition execute_insert {R : Type} (env : Env) (cs : CallSite)
    (ins : R -> Store -> JSError + Store) (row : R) : IO unit :=
  let* _ := call env cs in
  fun w =>
    match ins row (view w) with
    | inl e => (Threw e, w)
    | inr s => write s w
    end.

(** [execute(sql, values)] starts by looking at the values: the driver
    refuses one that is [undefined] with a TypeError, before anything is
    sent to the server. *)
Definition is_undefined (v : JSValue) : bool :=
  match v with
  | VUndefined => true
  | _ => false
  end.

Definition undefinedBindParameter : JSError :=
  Error "Bind parameters must not contain undefined. To pass SQL NULL specify JS null".

Definition bindParameters (values : list JSValue) : IO unit :=
  if existsb is_undefined values then throw undefinedBindParameter else ret tt.

(** A property that may be absent: its value is a string or [undefined]. *)
Definition optional (o : option string) : JSValue :=
  match o with
  | Some s => VString s
  | None => VUndefined
  end.

(** An UPDATE; the result is the number of rows matched. *)
Definition execute_update (env : Env) (cs : CallSite) (paymentId : string)
    (f : Payment -> Payment) : IO nat :=
  let* _ := call env cs in
  fun w =>
    let n := affectedRows paymentId (view w) in
    match write (update_payments paymentId f (view w)) w with
    | (_, w') => (Returned n, w')
    end.

Definition execute_select (env : Env) (cs : CallSite) (paymentId : string)
    : IO (list Payment) :=
  let* _ := call env cs in
  fun w => (Returned (select_payments paymentId (view w)), w).

(** ** paymentService.js *)

(** What [processCardPayment] hands to the route.  A property that a
    result does not have is [None]: reading it gives [undefined]. *)
Record CardPaymentResult : Type := {
  cp_success : bool;
  cp_transactionId : option string;
  cp_cardType : option string;
  cp_cardLast4 : option string;
  cp_error : option string
}.

Record GatewayResult : Type := {
  success : bool;
  transactionId : option string;
  errorMessage : option string
}.

(** The value [createPayment] resolves to. *)
Record PaymentResult : Type := {
  r_paymentId : string;
  r_status : PaymentStatus;
  r_transactionId : option string;
  r_errorMessage : option string
}.

Record CancelResult : Type := {
  r_cancellationId : string;
  r_cancel_status : PaymentStatus
}.

(** The literal [0.1]. *)
Definition js_0_1 : Q := 3602879701896397 # 36028797018963968.

(** The simulated gateway: [Math.random() > 0.1] succeeds. *)
Definition processPaymentGateway (env : Env) (paymentId : string)
    (amount paymentMethod : JSValue) : IO GatewayResult :=
  let* _ := (fun w => (Returned tt, add_event (GatewayInvoked paymentId) w)) in
  let success := js_gt (Finite (mathRandom env)) (Finite js_0_1) in
  if success then
    let* _ := call env CS_gatewayToken in
    let transactionId := generated_transaction_id env in
    ret {| success := true; transactionId := Some transactionId;
           errorMessage := None |}
  else
    ret {| success := false; transactionId := None;
           errorMessage := Some "Payment declined by gateway" |}.

Definition approvePayment (env : Env) (paymentId : string)
    (transactionId : option string) : IO unit :=
  let* _ := bindParameters [VString "completed"; optional transactionId;
                            VString paymentId] in
  let* result := execute_update env CS_approveUpdate paymentId
                   (fun p => set_transaction_id transactionId (set_status Completed p)) in
  if (result =? 0)%nat then throw (Error "Payment not found")
  else
    let* payments := execute_select env CS_approveSelect paymentId in
    match payments with
    | [] => throw (Error "Payment not found")
    | _ :: _ => ret tt
    end.

Definition failPayment (env : Env) (paymentId : string)
    (errorMessage : option string) : IO unit :=
  let* _ := bindParameters [VString "failed"; optional errorMessage;
                            VString paymentId] in
  let* result := execute_update env CS_failUpdate paymentId
                   (fun p => set_gateway_response errorMessage (set_status Failed p)) in
  if (result =? 0)%nat then throw (Error "Payment not found")
  else
    let* payments := execute_select env CS_failSelect paymentId in
    match payments with
    | [] => throw (Error "Payment not found")
    | _ :: _ => ret tt
    end.

Section Service.
Context `{RT : JSRuntime}.

(** The input checks of [createPayment], in the order of the source; the
    result is the error of the first check that fails. *)
Definition validateCreatePayment
    (orderId userId amount paymentMethod idempotencyKey : JSValue)
    : option JSError :=
  if negb (isValidUserId orderId)
  then Some (Error ("Invalid order_id: " ++ ToString orderId))
  else if negb (isValidUserId userId)
  then Some (Error ("Invalid user_id: " ++ ToString userId))
  else if negb (isValidAmount amount)
  then Some (Error ("Invalid amount: " ++ ToString amount))
  else if negb (isValidPaymentMethod paymentMethod)
  then Some (Error ("Invalid payment_method: " ++ ToString paymentMethod))
  else if negb (truthy idempotencyKey) || negb (typeof_string idempotencyKey)
  then Some (Error ("Invalid idempotency_key: " ++ ToString idempotencyKey))
  else None.

(** The body of the [try] block of [createPayment], from
    [beginTransaction] to the [return].  The values bound to the INSERT
    have passed the input checks, so none of them is [undefined]. *)
Definition createPaymentTransaction (env : Env)
    (orderId userId amount paymentMethod idempotencyKey : JSValue)
    (cardPaymentResult : option CardPaymentResult) : IO PaymentResult :=
  let* _ := beginTransaction env in
  let* _ := call env CS_paymentIdToken in
  let paymentId := generated_payment_id env in
  let* _ := execute_insert env CS_insertPayment insert_payment
              {| payment_id := paymentId; order_id := INT_column orderId;
                 user_id := INT_column userId; amount := DECIMAL_column amount;
                 payment_method := paymentMethod; status := Pending;
                 transaction_id := None; gateway_response := None;
                 idempotency_key := ToString idempotencyKey |} in
  let* gatewayResult :=
    match cardPaymentResult with
    | Some card =>
        ret {| success := true;
               transactionId := cp_transactionId card;
               errorMessage := None |}
    | None => processPaymentGateway env paymentId amount paymentMethod
    end in
  if success gatewayResult then
    let* _ := approvePayment env paymentId (transactionId gatewayResult) in
    let* _ := commit env in
    ret {| r_paymentId := paymentId; r_status := Completed;
           r_transactionId := transactionId gatewayResult;
           r_errorMessage := None |}
  else
    let* _ := failPayment env paymentId (errorMessage gatewayResult) in
    let* _ := commit env in
    ret {| r_paymentId := paymentId; r_status := Failed;
           r_transactionId := None;
           r_errorMessage := errorMessage gatewayResult |}.

Definition createPayment (env : Env)
    (orderId userId amount paymentMethod idempotencyKey : JSValue)
    (cardPaymentResult : option CardPaymentResult) : IO PaymentResult :=
  match validateCreatePayment orderId userId amount paymentMethod idempotencyKey with
  | Some e => throw e
  | None =>
    let* _ := getConnection env in
    finally
      (try_catch
         (createPaymentTransaction env orderId userId amount paymentMethod
            idempotencyKey cardPaymentResult)
         (fun error =>
            let* _ := try_catch (rollback env) (fun _ => ret tt) in
            throw error))
      release
  end.

(** The body of the [try] block of [cancelPayment], from
    [beginTransaction] to the [return]; [paymentId] is a string here. *)
Definition cancelPaymentTransaction (env : Env)
    (paymentId reason cancelledBy : JSValue) : IO CancelResult :=
  let* _ := beginTransaction env in
  let* payments := execute_select env CS_cancelSelect (ToString paymentId) in
  match payments with
  | [] => throw (Error "Payment not found")
  | payment :: _ =>
      if negb (status_eqb (status payment) Completed)
      then throw (Error "Only completed payments can be cancelled")
      else
        let* _ := call env CS_cancellationIdToken in
        let cancellationId := generated_cancellation_id env in
        let* _ := bindParameters [VString cancellationId;
                                  VString (ToString paymentId); reason;
                                  cancelledBy] in
        let* _ := execute_insert env CS_cancelInsert insert_cancellation
                    {| cancellation_id := cancellationId;
                       c_payment_id := ToString paymentId;
                       reason := reason; cancelled_by := cancelledBy |} in
        let* _ := execute_update env CS_cancelUpdate (ToString paymentId)
                    (set_status Cancelled) in
        let* _ := commit env in
        ret {| r_cancellationId := cancellationId;
               r_cancel_status := Cancelled |}
  end.

Definition cancelPayment (env : Env) (paymentId reason cancelledBy : JSValue)
    : IO CancelResult :=
  if negb (truthy paymentId) || negb (typeof_string paymentId)
  then throw (Error "Invalid payment_id")
  else
    let* _ := getConnection env in
    finally
      (try_catch
         (cancelPaymentTransaction env paymentId reason cancelledBy)
         (fun error =>
            let* _ := rollback env in
            throw error))
      release.

(** [getPaymentById]: the payment row and, when there is one, its first
    cancellation. *)
Definition getPaymentById (env : Env) (paymentId : JSValue)
    : IO (option (Payment * option Cancellation)) :=
  if negb (truthy paymentId) || negb (typeof_string paymentId)
  then throw (Error "Invalid payment_id")
  else
    let* payments := execute_select env CS_getPaymentSelect (ToString paymentId) in
    match payments with
    | [] => ret None
    | payment :: _ =>
        let* _ := call env CS_getCancellationSelect in
        fun w =>
          (Returned
             (Some (payment,
                    head (List.filter (fun c => String.eqb (c_payment_id c) (ToString paymentId))
                                 (payment_cancellations (view w))))), w)
    end.

End Service.

(** ** A runtime for the worked examples

    Integers are printed and read in decimal; the digest of a text is
    represented by the text itself, a stand-in without collisions; local
    time is UTC, and the columns give back the values as they were
    stored. *)

Definition exampleNumberToString (n : JSNumber) : string :=
  match n with
  | NaN => "NaN"
  | PosInfinity => "Infinity"
  | NegInfinity => "-Infinity"
  | Finite q =>
      if (Zpos (Qden q) =? 1)%Z
      then DecimalString.NilZero.string_of_int (Z.to_int (Qnum q))
      else DecimalString.NilZero.string_of_int (Z.to_int (Qnum q)) ++ "/"
           ++ DecimalString.NilZero.string_of_int (Z.to_int (Zpos (Qden q)))
  end.

Definition exampleStringToNumber (s : string) : JSNumber :=
  match DecimalString.NilZero.int_of_string s with
  | Some i => Finite (inject_Z (Z.of_int i))
  | None => NaN
  end.

Definition exampleRuntime : JSRuntime :=
  {| StringToNumber := exampleStringToNumber;
     NumberToString := exampleNumberToString;
     sha256hex := fun s => s;
     LocalTZA := fun _ _ => 0;
     INT_column := fun v => v;
     DECIMAL_column := fun v => v |}.

Definition jsInt (z : Z) : JSValue := VNumber (Finite (inject_Z z)).

Definition exampleEnv : Env :=
  {| now := 1000; fault := no_fault;
     generated_payment_id := "PAY_1000_a1b2c3d4e5f60718";
     generated_cancellation_id := "CAN_1000_0011223344556677";
     generated_transaction_id := "TXN_1000_00112233445566778899aabb";
     mathRandom := 1 # 2 |}.

(** ** JSON text, as far as the program produces it *)

Definition quote_char : ascii := ascii_of_nat 34.
Definition backslash_char : ascii := ascii_of_nat 92.

Definition hex_digit (n : nat) : ascii :=
  if (n <? 10)%nat then ascii_of_nat (48 + n) else ascii_of_nat (87 + n).

(** The escape of one character inside a JSON string. *)
Definition json_escape (c : ascii) : string :=
  let n := nat_of_ascii c in
  if (n =? 34)%nat then String backslash_char (String quote_char EmptyString)
  else if (n =? 92)%nat then String backslash_char (String backslash_char EmptyString)
  else if (n =? 8)%nat then String backslash_char "b"
  else if (n =? 9)%nat then String backslash_char "t"
  else if (n =? 10)%nat then String backslash_char "n"
  else if (n =? 12)%nat then String backslash_char "f"
  else if (n =? 13)%nat then String backslash_char "r"
  else if (n <? 32)%nat
  then String backslash_char
         ("u00" ++ String (hex_digit (n / 16)) (String (hex_digit (n mod 16)) EmptyString))
  else String c EmptyString.

Fixpoint json_escape_string (s : string) : string :=
  match s with
  | EmptyString => EmptyString
  | String c r => json_escape c ++ json_escape_string r
  end.

Definition json_quote (s : string) : string :=
  String quote_char (json_escape_string s ++ String quote_char EmptyString).

Fixpoint join (sep : string) (l : list string) : string :=
  match l with
  | [] => EmptyString
  | [x] => x
  | x :: r => x ++ sep ++ join sep r
  end.

Section Json.
Context `{RT : JSRuntime}.

(** [JSON.stringify] of a scalar; [None] stands for [undefined]. *)
Definition JSON_stringify_value (v : JSValue) : option string :=
  match v with
  | VUndefined => None
  | VNull => Some "null"
  | VBool true => Some "true"
  | VBool false => Some "false"
  | VNumber (Finite q) => Some (NumberToString (Finite q))
  | VNumber _ => Some "null"
  | VString s => Some (json_quote s)
  end.

(** [JSON.stringify] of an object literal: the properties in the order
    they were written, those whose value is [undefined] left out. *)
Definition JSON_stringify_object (props : list (string * JSValue)) : string :=
  "{" ++ join ","
           (flat_map (fun kv =>
                        match JSON_stringify_value (snd kv) with
                        | Some t => [json_quote (fst kv) ++ ":" ++ t]
                        | None => []
                        end) props)
      ++ "}".

(** ** encryption.js *)

Definition hashRequestData (requestData : list (string * JSValue)) : string :=
  sha256hex (JSON_stringify_object requestData).

(** ** idempotencyService.js *)

Definition live (env : Env) (r : IdempotencyRecord) : bool :=
  (now env <? expires_at r)%Z.

(** [SELECT ... FROM idempotency_keys WHERE idempotency_key = ? AND
    expires_at > NOW()] *)
Definition select_idempotency (env : Env) (key : string) (s : Store)
    : list IdempotencyRecord :=
  List.filter (fun r => String.eqb (ik_key r) key && live env r) (idempotency_keys s).

Definition invalid_key (key : JSValue) : bool :=
  negb (truthy key) || negb (typeof_string key).

Definition checkIdempotencyKey (env : Env) (key : JSValue) : IO bool :=
  if invalid_key key then throw (Error "Invalid idempotency_key")
  else
    let* _ := call env CS_checkKeySelect in
    fun w =>
      let results := select_idempotency env (ToString key) (view w) in
      (Returned (negb (length results =? 0)%nat), w).

(** [INSERT INTO idempotency_keys]: [idempotency_key] is UNIQUE.  The
    column [expires_at] keeps the instant of the date it is given, and
    NOW() is the instant of the call (the session of the server has the
    time zone of the process). *)
Definition insert_idempotency (r : IdempotencyRecord) (s : Store) : JSError + Store :=
  if existsb (fun x => String.eqb (ik_key x) (ik_key r)) (idempotency_keys s)
  then inl (ER_DUP_ENTRY (ik_key r) "idempotency_keys.idempotency_key")
  else inr (with_idempotency_keys (idempotency_keys s ++ [r]) s).

Definition day_ms : Z := 24 * 60 * 60 * 1000.

(** [LocalTime(t)] and [UTC(t)] of the language: from an instant to the
    local time, and from a local time to the instant. *)
Definition LocalTime (t : Z) : Z := t + LocalTZA t true.

Definition UTC (t : Z) : Z := t - LocalTZA t false.

(** [d.setHours(d.getHours() + 24)] for the date [d] of the instant [t]:
    the hours, minutes, seconds and milliseconds of the day are those of
    the local time, so the local time moves on by 24 hours, and the date
    becomes the instant of that local time. *)
Definition setHours_plus24 (t : Z) : Z := UTC (LocalTime t + day_ms).

Definition is_ER_DUP_ENTRY (e : JSError) : bool :=
  match code e with
  | Some c => String.eqb c "ER_DUP_ENTRY"
  | None => false
  end.

Definition storeIdempotencyKey (env : Env) (key : JSValue)
    (requestData : list (string * JSValue)) (response : ResponseBody) : IO unit :=
  try_catch
    (if invalid_key key then throw (Error "Invalid idempotency_key")
     else
       let requestHash := hashRequestData requestData in
       let responseData := response in
       let expiresAt := setHours_plus24 (now env) in
       execute_insert env CS_storeKeyInsert insert_idempotency
         {| ik_key := ToString key; request_hash := requestHash;
            response_data := responseData; expires_at := expiresAt |})
    (fun error =>
       if is_ER_DUP_ENTRY error then ret tt else throw error).

Definition getIdempotencyResult (env : Env) (key : JSValue)
    : IO (option ResponseBody) :=
  if invalid_key key then throw (Error "Invalid idempotency_key")
  else
    let* _ := call env CS_resultSelect in
    fun w =>
      match select_idempotency env (ToString key) (view w) with
      | [] => (Returned None, w)
      | result :: _ => (Returned (Some (response_data result)), w)
      end.

(** [DELETE FROM idempotency_keys WHERE expires_at <= NOW()]; the result
    is the number of rows deleted. *)
Definition cleanupExpiredKeys (env : Env) : IO nat :=
  let* _ := call env CS_cleanupDelete in
  fun w =>
    let keep := List.filter (live env) (idempotency_keys (view w)) in
    let deletedCount := (length (idempotency_keys (view w)) - length keep)%nat in
    match write (with_idempotency_keys keep (view w)) w with
    | (_, w') => (Returned deletedCount, w')
    end.

Definition validateRequestData (env : Env) (key : JSValue)
    (requestData : list (string * JSValue)) : IO bool :=
  if invalid_key key then throw (Error "Invalid idempotency_key")
  else
    let currentHash := hashRequestData requestData in
    let* _ := call env CS_validateSelect in
    fun w =>
      match select_idempotency env (ToString key) (view w) with
      | [] => (Returned true, w)
      | result :: _ =>
          let storedHash := request_hash result in
          (Returned (String.eqb currentHash storedHash), w)
      end.

End Json.

(** ** The idempotency middleware and the payment route *)

Record Response : Type := { rs_status : Z; rs_body : ResponseBody }.

Definition errorBody (msg : option string) (error_code : string)
    (details : option string) : ResponseBody :=
  {| rb_success := false; rb_message := msg; rb_error_code := Some error_code;
     rb_payment_id := None; rb_status := None; rb_transaction_id := None;
     rb_error_message := None; rb_details := details |}.

(** The fields of [req.body] the route reads.  [b_card_data] tells
    whether [card_data] is present. *)
Record RequestBody : Type := {
  b_order_id : JSValue;
  b_payment_method : JSValue;
  b_idempotency_key : JSValue;
  b_user_id : JSValue;
  b_items : JSValue;
  b_total_price : JSValue;
  b_card_data : bool
}.

Inductive MiddlewareResult : Type :=
| Respond (r : Response)
| Next.

(** The order as the order service returns it. *)
Record Order : Type := {
  o_user_id : JSValue;
  o_total_price : JSValue;
  o_status : JSValue
}.

Inductive OrderLookup : Type :=
| LookupFailed
| LookupOk (order : option Order).

(** What the surroundings answer during one request to the route:
    [card_outcome] is the value [processCardPayment] resolves to. *)
Record RouteEnv : Type := {
  env : Env;
  order_lookup : OrderLookup;
  card_outcome : CardPaymentResult;
  order_patch_fails : bool;
  production : bool
}.

(** [s.includes(sub)] *)
Fixpoint includes (sub s : string) : bool :=
  String.prefix sub s
  || match s with
     | EmptyString => false
     | String _ r => includes sub r
     end.

Definition strict_eq_string (v : JSValue) (s : string) : bool :=
  match v with
  | VString x => String.eqb x s
  | _ => false
  end.

Definition truthy_string (o : option string) : bool :=
  match o with
  | Some (String _ _) => true
  | _ => false
  end.

(** *** The lock store *)

Definition redis_live (now : Z) (r : gmap string (string * Z)) (key : string) : bool :=
  match r !! key with
  | Some (_, expiry) => (now <? expiry)%Z
  | None => false
  end.

(** [redis.set(key, value, { NX: true, EX: seconds })]: [true] stands for
    the reply OK, [false] for the null reply. *)
Definition redis_set_nx (env : Env) (cs : CallSite) (key value : string)
    (seconds : Z) : IO bool :=
  let* _ := call env cs in
  fun w =>
    if redis_live (now env) (redis w) key then (Returned false, w)
    else (Returned true,
          set_redis (<[key := (value, now env + seconds * 1000)]> (redis w)) w).

Definition redis_set_ex (env : Env) (cs : CallSite) (key value : string)
    (seconds : Z) : IO unit :=
  let* _ := call env cs in
  fun w =>
    (Returned tt,
     set_redis (<[key := (value, now env + seconds * 1000)]> (redis w)) w).

Definition redis_del (env : Env) (cs : CallSite) (key : string) : IO unit :=
  let* _ := call env cs in
  fun w => (Returned tt, set_redis (delete key (redis w)) w).

Section Route.
Context `{RT : JSRuntime}.

Definition checkIdempotency (env : Env) (body : RequestBody)
    : World -> MiddlewareResult * World :=
  fun w =>
    let idempotency_key := b_idempotency_key body in
    if negb (truthy idempotency_key) then (Next, w)
    else
      match
        (let* exists_ := checkIdempotencyKey env idempotency_key in
         if negb exists_ then ret Next
         else
           let requestData :=
             [("order_id", b_order_id body);
              ("payment_method", b_payment_method body);
              ("user_id", b_user_id body);
              ("items", b_items body);
              ("total_price", b_total_price body)] in
           let* isValidRequest :=
             validateRequestData env idempotency_key requestData in
           if negb isValidRequest then
             ret (Respond
                    {| rs_status := 409;
                       rs_body :=
                         errorBody
                           (Some "Idempotency key conflict: same key used with different request data")
                           "DUPLICATE_REQUEST" None |})
           else
             let* cachedResult := getIdempotencyResult env idempotency_key in
             match cachedResult with
             | Some cached => ret (Respond {| rs_status := 200; rs_body := cached |})
             | None => ret Next
             end) w
      with
      | (Returned r, w') => (r, w')
      | (Threw _, w') => (Next, w')
      end.

Definition storeIdempotencyResponse (env : Env) (idempotencyKey : JSValue)
    (requestData : list (string * JSValue)) (responseData : ResponseBody)
    : World -> World :=
  fun w =>
    snd (try_catch (storeIdempotencyKey env idempotencyKey requestData responseData)
                   (fun _ => ret tt) w).

(** The [catch] block of the route: the response for a thrown error. *)
Definition errorResponse (production : bool) (error : JSError) : Response :=
  let details := if production then None else Some (message error) in
  let errorMessage :=
    match message error with
    | EmptyString => "Failed to process payment"
    | m => m
    end in
  if includes "Invalid" (message error)
  then {| rs_status := 400;
          rs_body := errorBody (Some errorMessage) "VALIDATION_ERROR" details |}
  else if includes "not found" (message error)
  then {| rs_status := 404;
          rs_body := errorBody (Some errorMessage) "NOT_FOUND" details |}
  else if includes "transaction" (message error)
  then {| rs_status := 500;
          rs_body := errorBody (Some "Transaction failed") "TRANSACTION_ERROR" details |}
  else {| rs_status := 500;
          rs_body := errorBody (Some errorMessage) "PAYMENT_FAILED" details |}.

(** The [catch] block of [POST /payments/:id/cancel]. *)
Definition cancelErrorResponse (error : JSError) : Response :=
  if includes "Invalid" (message error)
  then {| rs_status := 400;
          rs_body := errorBody (Some (message error)) "VALIDATION_ERROR" None |}
  else if includes "not found" (message error)
  then {| rs_status := 404;
          rs_body := errorBody (Some "Payment not found") "PAYMENT_NOT_FOUND" None |}
  else if includes "Only completed" (message error)
  then {| rs_status := 422;
          rs_body := errorBody (Some (message error)) "INVALID_PAYMENT_STATUS" None |}
  else if includes "transaction" (message error)
  then {| rs_status := 500;
          rs_body := errorBody (Some "Transaction failed") "TRANSACTION_ERROR" None |}
  else {| rs_status := 500;
          rs_body := errorBody (Some "Failed to cancel payment")
                       "CANCELLATION_FAILED" None |}.

(** A sequence of awaited calls inside one [try] whose [catch] only logs. *)
Definition swallow (m : IO unit) : World -> World :=
  fun w => snd (try_catch m (fun _ => ret tt) w).

Definition lockKey (order_id : JSValue) : string :=
  "payment_lock:" ++ ToString order_id.

(** The body the route answers with once [createPayment] has returned. *)
Definition responseDataOf (result : PaymentResult) : ResponseBody :=
  {| rb_success := true;
     rb_message := Some (if status_eqb (r_status result) Completed
                         then "Payment processed successfully"
                         else "Payment failed");
     rb_error_code := None;
     rb_payment_id := Some (r_paymentId result);
     rb_status := Some (status_string (r_status result));
     rb_transaction_id :=
       if truthy_string (r_transactionId result)
       then r_transactionId result else None;
     rb_error_message :=
       if truthy_string (r_errorMessage result)
       then r_errorMessage result else None;
     rb_details := None |}.

(** The route from the call of [createPayment] on; [hasLock] tells
    whether this request holds the lock of the order. *)
Definition processPayment (renv : RouteEnv) (body : RequestBody) (order : Order)
    (cardPaymentResult : option CardPaymentResult) (hasLock : bool)
    : World -> Response * World :=
  fun w =>
    let order_id := b_order_id body in
    let payment_method := b_payment_method body in
    let idempotency_key := b_idempotency_key body in
    match createPayment (env renv) order_id (o_user_id order)
            (o_total_price order) payment_method idempotency_key
            cardPaymentResult w with
    | (Threw error, w1) => (errorResponse (production renv) error, w1)
    | (Returned result, w1) =>
        let completed := status_eqb (r_status result) Completed in
        let w2 :=
          if completed && negb (order_patch_fails renv)
          then add_event (OrderMarkedPaid order_id) w1
          else w1 in
        let responseData := responseDataOf result in
        let requestData :=
          [("order_id", order_id); ("payment_method", payment_method)] in
        let w3 := storeIdempotencyResponse (env renv) idempotency_key
                    requestData responseData w2 in
        let statusCode := if completed then 200 else 422 in
        let w4 :=
          swallow
            (let* _ :=
               if truthy (VString (r_paymentId result))
               then redis_del (env renv) CS_redisDelPayment
                      ("payments:" ++ r_paymentId result)
               else ret tt in
             if truthy (o_user_id order)
             then redis_del (env renv) CS_redisDelUser
                    ("payments:user:" ++ ToString (o_user_id order))
             else ret tt) w3 in
        let w5 :=
          swallow
            (redis_set_ex (env renv) CS_redisSetStatus
               ("payment_status:" ++ r_paymentId result)
               (JSON_stringify_object
                  [("status", VString (status_string (r_status result)));
                   ("order_id", order_id);
                   ("user_id", o_user_id order)])
               (60 * 10)) w4 in
        let w6 :=
          swallow
            (if hasLock
             then redis_del (env renv) CS_redisDelLock (lockKey order_id)
             else ret tt) w5 in
        ({| rs_status := statusCode; rs_body := responseData |}, w6)
    end.

(** The first part of the handler, up to the lock: the order must exist
    and be pending, and a card charge, when one is made, must succeed.
    The result is the early response, or the order and the card result
    the handler goes on with. *)
Definition checkOrderAndCard (renv : RouteEnv) (body : RequestBody)
    : Response + (Order * option CardPaymentResult) :=
  let payment_method := b_payment_method body in
  match order_lookup renv with
  | LookupFailed =>
      inl {| rs_status := 404;
             rs_body := errorBody (Some "Order not found") "ORDER_NOT_FOUND" None |}
  | LookupOk None =>
      inl {| rs_status := 404;
             rs_body := errorBody (Some "Order not found") "ORDER_NOT_FOUND" None |}
  | LookupOk (Some order) =>
      if negb (strict_eq_string (o_status order) "pending")
      then inl {| rs_status := 422;
                  rs_body :=
                    errorBody
                      (Some ("Order cannot be paid. Current status: "
                             ++ ToString (o_status order)))
                      "INVALID_ORDER_STATUS" None |}
      else
        let useCard :=
          b_card_data body
          && (strict_eq_string payment_method "credit_card"
              || strict_eq_string payment_method "debit_card") in
        if useCard && negb (cp_success (card_outcome renv))
        then inl {| rs_status := 422;
                    rs_body := errorBody (cp_error (card_outcome renv))
                                 "CARD_PAYMENT_FAILED" None |}
        else inr (order, if useCard then Some (card_outcome renv) else None)
  end.

Definition paymentInProgress : Response :=
  {| rs_status := 429;
     rs_body :=
       errorBody (Some "Payment is already being processed for this order")
         "PAYMENT_IN_PROGRESS" None |}.

(** The handler of [POST /payments]. *)
Definition paymentHandler (renv : RouteEnv) (body : RequestBody)
    : World -> Response * World :=
  fun w =>
    match checkOrderAndCard renv body with
    | inl response => (response, w)
    | inr (order, cardPaymentResult) =>
        match redis_set_nx (env renv) CS_redisSetLock (lockKey (b_order_id body))
                "locked" 30 w with
        | (Returned false, w1) => (paymentInProgress, w1)
        | (Returned true, w1) =>
            processPayment renv body order cardPaymentResult true w1
        | (Threw _, w1) =>
            processPayment renv body order cardPaymentResult false w1
        end
    end.

(** [router.post('/', validatePaymentRequest, checkIdempotency, handler)],
    for a request that passed [validatePaymentRequest]. *)
Definition postPayments (renv : RouteEnv) (body : RequestBody)
    : World -> Response * World :=
  fun w =>
    match checkIdempotency (env renv) body w with
    | (Respond r, w') => (r, w')
    | (Next, w') => paymentHandler renv body w'
    end.

End Route.

(** * Further parts of the program *)

(** ** Characters and regular expressions

    A string is the sequence of its code units, and the code units are
    taken below 256.  The classes are those of JavaScript without the
    unicode flag. *)

Definition char_code (c : ascii) : nat := nat_of_ascii c.

Definition char_between (lo hi : nat) (c : ascii) : bool :=
  ((lo <=? char_code c) && (char_code c <=? hi))%nat.

Definition char_is (n : nat) (c : ascii) : bool := (char_code c =? n)%nat.

(** [\d] *)
Definition is_digit (c : ascii) : bool := char_between 48 57 c.

Definition is_letter (c : ascii) : bool :=
  char_between 65 90 c || char_between 97 122 c.

(** [\w] *)
Definition is_word (c : ascii) : bool := is_letter c || is_digit c || char_is 95 c.

(** [\s], and what [trim] removes: tab, line feed, vertical tab, form
    feed, carriage return, space and no-break space. *)
Definition is_space (c : ascii) : bool :=
  char_between 9 13 c || char_is 32 c || char_is 160 c.

(** What [.] matches: everything but the line terminators. *)
Definition is_dot (c : ascii) : bool := negb (char_is 10 c || char_is 13 c).

Definition upper_ascii (c : ascii) : ascii :=
  if char_between 97 122 c then ascii_of_nat (char_code c - 32) else c.

(** A character of a pattern under the flag [i]: the two are the same
    after canonicalisation, which leaves a code unit from 128 on apart
    from those below. *)
Definition same_letter (x c : ascii) : bool :=
  (char_code c <? 128)%nat && Ascii.eqb (upper_ascii x) (upper_ascii c).

Inductive RegExp : Type :=
| ReEmpty
| ReChar (p : ascii -> bool)
| ReSeq (r1 r2 : RegExp)
| ReAlt (r1 r2 : RegExp)
| ReStar (r : RegExp)
| ReWordBoundary
| ReStart
| ReEnd.

Definition orelse {A : Type} (a b : option A) : option A :=
  match a with
  | Some _ => a
  | None => b
  end.

Definition word_before (prev : option ascii) : bool :=
  match prev with
  | Some c => is_word c
  | None => false
  end.

Definition word_at (s : string) : bool :=
  match s with
  | String c _ => is_word c
  | EmptyString => false
  end.

(** The backtracking matcher: [matchFrom fuel r prev s k] matches [r] at
    the start of [s], where [prev] is the character before, and hands the
    rest to [k]; the result is that of the first way that succeeds, the
    alternatives being tried in the order of the language (the left
    branch first, one more round of a star before none).  A round of a
    star has to consume something.  Each round of a star costs one unit
    of [fuel]. *)
Fixpoint matchFrom (fuel : nat)
    : RegExp -> option ascii -> string ->
      (option ascii -> string -> option string) -> option string :=
  match fuel with
  | O => fun _ _ _ _ => None
  | S fuel' =>
      fix go (r : RegExp) (prev : option ascii) (s : string)
             (k : option ascii -> string -> option string) : option string :=
        match r with
        | ReEmpty => k prev s
        | ReChar p =>
            match s with
            | String c s' => if p c then k (Some c) s' else None
            | EmptyString => None
            end
        | ReSeq r1 r2 => go r1 prev s (fun prev' s' => go r2 prev' s' k)
        | ReAlt r1 r2 => orelse (go r1 prev s k) (go r2 prev s k)
        | ReStar r1 =>
            orelse
              (go r1 prev s
                 (fun prev' s' =>
                    if (String.length s' <? String.length s)%nat
                    then matchFrom fuel' (ReStar r1) prev' s' k
                    else None))
              (k prev s)
        | ReWordBoundary =>
            if xorb (word_before prev) (word_at s) then k prev s else None
        | ReStart =>
            match prev with
            | None => k prev s
            | Some _ => None
            end
        | ReEnd =>
            match s with
            | EmptyString => k prev s
            | String _ _ => None
            end
        end
  end.

(** The match of [r] at the start of [s]: the rest of [s] after it. *)
Definition matchAt (r : RegExp) (prev : option ascii) (s : string) : option string :=
  matchFrom (S (String.length s)) r prev s (fun _ rest => Some rest).

Fixpoint searchFrom (r : RegExp) (prev : option ascii) (s : string) : bool :=
  match matchAt r prev s with
  | Some _ => true
  | None =>
      match s with
      | EmptyString => false
      | String c s' => searchFrom r (Some c) s'
      end
  end.

(** [r.test(s)] *)
Definition test (r : RegExp) (s : string) : bool := searchFrom r None s.

(** [s.replace(r, replacement)] for a pattern with the flag [g] and a
    replacement without [$]: [skip] counts the characters of a match
    still to be passed over. *)
Fixpoint replaceFrom (r : RegExp) (replacement : string) (prev : option ascii)
    (skip : nat) (s : string) : string :=
  match s with
  | EmptyString =>
      match matchAt r prev EmptyString with
      | Some _ => match skip with O => replacement | S _ => EmptyString end
      | None => EmptyString
      end
  | String c s' =>
      match skip with
      | S n => replaceFrom r replacement (Some c) n s'
      | O =>
          match matchAt r prev s with
          | Some rest =>
              match (String.length s - String.length rest)%nat with
              | O => replacement ++ String c (replaceFrom r replacement (Some c) O s')
              | S n => replacement ++ replaceFrom r replacement (Some c) n s'
              end
          | None => String c (replaceFrom r replacement (Some c) O s')
          end
      end
  end.

Definition replaceAll (r : RegExp) (replacement : string) (s : string) : string :=
  replaceFrom r replacement None O s.

(** *** Patterns *)

Definition ReCode (n : nat) : RegExp := ReChar (char_is n).

Fixpoint ReLit (s : string) : RegExp :=
  match s with
  | EmptyString => ReEmpty
  | String c EmptyString => ReChar (Ascii.eqb c)
  | String c s' => ReSeq (ReChar (Ascii.eqb c)) (ReLit s')
  end.

(** A literal under the flag [i]. *)
Fixpoint ReLitI (s : string) : RegExp :=
  match s with
  | EmptyString => ReEmpty
  | String c EmptyString => ReChar (same_letter c)
  | String c s' => ReSeq (ReChar (same_letter c)) (ReLitI s')
  end.

Fixpoint ReAny (l : list RegExp) : RegExp :=
  match l with
  | [] => ReChar (fun _ => false)
  | [r] => r
  | r :: l' => ReAlt r (ReAny l')
  end.

Fixpoint ReAll (l : list RegExp) : RegExp :=
  match l with
  | [] => ReEmpty
  | [r] => r
  | r :: l' => ReSeq r (ReAll l')
  end.

(** [r+] *)
Definition RePlus (r : RegExp) : RegExp := ReSeq r (ReStar r).

(** [r{n}] *)
Fixpoint ReTimes (n : nat) (r : RegExp) : RegExp :=
  match n with
  | O => ReEmpty
  | S n' => ReSeq r (ReTimes n' r)
  end.

(** [r{0,n}] *)
Fixpoint ReUpTo (n : nat) (r : RegExp) : RegExp :=
  match n with
  | O => ReEmpty
  | S n' => ReAlt (ReSeq r (ReUpTo n' r)) ReEmpty
  end.

(** [r{lo,hi}] *)
Definition ReBetween (lo hi : nat) (r : RegExp) : RegExp :=
  ReSeq (ReTimes lo r) (ReUpTo (hi - lo) r).

(** ** validator.js, the remaining functions *)

Fixpoint string_filter (p : ascii -> bool) (s : string) : string :=
  match s with
  | EmptyString => EmptyString
  | String c r => if p c then String c (string_filter p r) else string_filter p r
  end.

Fixpoint string_rev (s : string) : string :=
  match s with
  | EmptyString => EmptyString
  | String c r => string_rev r ++ String c EmptyString
  end.

(** [s.trimStart()] *)
Fixpoint trimStart (s : string) : string :=
  match s with
  | EmptyString => EmptyString
  | String c r => if is_space c then trimStart r else s
  end.

(** [s.trimEnd()] *)
Fixpoint trimEnd (s : string) : string :=
  match s with
  | EmptyString => EmptyString
  | String c r =>
      match trimEnd r with
      | EmptyString => if is_space c then EmptyString else String c EmptyString
      | t => String c t
      end
  end.

(** [s.trim()] *)
Definition trim (s : string) : string := trimEnd (trimStart s).

(** [s.split(sep)] for a separator of one character. *)
Fixpoint split (sep : ascii) (s : string) : list string :=
  match s with
  | EmptyString => [EmptyString]
  | String c r =>
      if Ascii.eqb c sep then EmptyString :: split sep r
      else match split sep r with
           | h :: t => String c h :: t
           | [] => [String c EmptyString]
           end
  end.

(** [s.slice(-n)] *)
Definition slice_last (n : nat) (s : string) : string :=
  String.substring (String.length s - n) n s.

Definition digit_value (c : ascii) : Z := Z.of_nat (char_code c) - 48.

Fixpoint parse_digits (acc : Z) (s : string) : Z :=
  match s with
  | String c r => if is_digit c then parse_digits (acc * 10 + digit_value c) r else acc
  | EmptyString => acc
  end.

(** [parseInt(s, 10)], for numbers a double holds exactly; [None] stands
    for [NaN]. *)
Definition parseInt (s : string) : option Z :=
  match trimStart s with
  | String c r =>
      if is_digit c then Some (parse_digits 0 (String c r))
      else if char_is 45 c || char_is 43 c then
        match r with
        | String d _ =>
            if is_digit d
            then Some (if char_is 45 c then - parse_digits 0 r else parse_digits 0 r)
            else None
        | EmptyString => None
        end
      else None
  | EmptyString => None
  end.

(** [a < b] and [a === b] on the results of [parseInt]. *)
Definition nan_lt (a b : option Z) : bool :=
  match a, b with
  | Some x, Some y => x <? y
  | _, _ => false
  end.

Definition nan_eq (a b : option Z) : bool :=
  match a, b with
  | Some x, Some y => x =? y
  | _, _ => false
  end.

(** The body of a validator that starts with
    [if (!v || typeof v !== 'string') return false]. *)
Definition on_string (v : JSValue) (f : string -> bool) : bool :=
  if negb (truthy v) || negb (typeof_string v) then false
  else match v with
       | VString s => f s
       | _ => false
       end.

(** The seven patterns of [detectSQLInjection], each written here without
    its outer group, and with DQ for the double quote. *)
Definition sqlPatterns : list RegExp :=
  [ (* /\b(SELECT|INSERT|UPDATE|DELETE|DROP|CREATE|ALTER|EXEC|EXECUTE|UNION|DECLARE)\b/i *)
    ReAll [ReWordBoundary;
           ReAny (map ReLitI ["SELECT"; "INSERT"; "UPDATE"; "DELETE"; "DROP"; "CREATE";
                              "ALTER"; "EXEC"; "EXECUTE"; "UNION"; "DECLARE"]);
           ReWordBoundary];
    (* /--|\;|\/\*|\*\//: two dashes, a semicolon, or either end of a block comment *)
    ReAny [ReLit "--"; ReLit ";"; ReLit "/*"; ReLit "*/"];
    (* /'|(\\')|(\\DQ)|(\\\\)/ *)
    ReAny [ReCode 39; ReSeq (ReCode 92) (ReCode 39); ReSeq (ReCode 92) (ReCode 34);
           ReSeq (ReCode 92) (ReCode 92)];
    (* /\bOR\b.*=.*/i *)
    ReAll [ReWordBoundary; ReLitI "OR"; ReWordBoundary; ReStar (ReChar is_dot);
           ReLit "="; ReStar (ReChar is_dot)];
    (* /\bAND\b.*=.*/i *)
    ReAll [ReWordBoundary; ReLitI "AND"; ReWordBoundary; ReStar (ReChar is_dot);
           ReLit "="; ReStar (ReChar is_dot)];
    (* /1=1|1='1'|'='/i *)
    ReAny [ReLit "1=1";
           ReAll [ReLit "1="; ReCode 39; ReLit "1"; ReCode 39];
           ReAll [ReCode 39; ReLit "="; ReCode 39]];
    (* /\bxp_|\bsp_/i *)
    ReAlt (ReSeq ReWordBoundary (ReLitI "xp_")) (ReSeq ReWordBoundary (ReLitI "sp_")) ].

Definition detectSQLInjection (input : JSValue) : bool :=
  on_string input (fun s => existsb (fun pattern => test pattern s) sqlPatterns).

(** [/<[^>]*>/g], and [/[<>'DQ]/g] with DQ for the double quote *)
Definition tagPattern : RegExp :=
  ReAll [ReCode 60; ReStar (ReChar (fun c => negb (char_is 62 c))); ReCode 62].

Definition unsafeCharPattern : RegExp :=
  ReChar (fun c => char_is 60 c || char_is 62 c || char_is 39 c || char_is 34 c).

(** [sanitizeInput]: a value that is not a string, or is the empty
    string, is returned as it is. *)
Definition sanitizeInput (input : JSValue) : JSValue :=
  if negb (truthy input) || negb (typeof_string input) then input
  else match input with
       | VString s =>
           let sanitized := replaceAll tagPattern EmptyString s in
           let sanitized := replaceAll unsafeCharPattern EmptyString sanitized in
           VString (trim sanitized)
       | _ => input
       end.

Definition isValidLength (str : JSValue) (maxLength : nat) : bool :=
  on_string str (fun s => (0 <? String.length s)%nat && (String.length s <=? maxLength)%nat).

(** [/^[^\s@]+@[^\s@]+\.[^\s@]+$/] *)
Definition emailPattern : RegExp :=
  let part := RePlus (ReChar (fun c => negb (is_space c || char_is 64 c))) in
  ReAll [ReStart; part; ReCode 64; part; ReCode 46; part; ReEnd].

Definition isValidEmail (email : JSValue) : bool :=
  on_string email (fun s => test emailPattern s && (String.length s <=? 255)%nat).

(** [/^[0-9-]+$/] *)
Definition phonePattern : RegExp :=
  ReAll [ReStart; RePlus (ReChar (fun c => is_digit c || char_is 45 c)); ReEnd].

Definition isValidPhone (phone : JSValue) : bool :=
  on_string phone
    (fun s => test phonePattern s && (10 <=? String.length s)%nat
              && (String.length s <=? 20)%nat).

(** The Luhn sum of [isValidCardNumber], from the last digit to the
    first; the state is the sum and [isEven]. *)
Definition luhn_step (state : Z * bool) (c : ascii) : Z * bool :=
  let (sum, isEven) := state in
  let digit := digit_value c in
  let digit :=
    if isEven
    then (let doubled := digit * 2 in if 9 <? doubled then doubled - 9 else doubled)
    else digit in
  (sum + digit, negb isEven).

Definition luhn_sum (digits : string) : Z :=
  fst (fold_left luhn_step (list_ascii_of_string (string_rev digits)) (0, false)).

Definition isValidCardNumber (cardNumber : JSValue) : bool :=
  on_string cardNumber
    (fun s =>
       let digits := replaceAll (ReChar (fun c => negb (is_digit c))) EmptyString s in
       if (String.length digits <? 13)%nat || (19 <? String.length digits)%nat
       then false
       else Z.rem (luhn_sum digits) 10 =? 0).

(** [/^\d{3,4}$/] *)
Definition cvvPattern : RegExp :=
  ReAll [ReStart; ReBetween 3 4 (ReChar is_digit); ReEnd].

Definition isValidCVV (cvv : JSValue) : bool := on_string cvv (test cvvPattern).

(** The calendar of the moment of a call: [getFullYear()] and
    [getMonth()] of [new Date()]. *)
Record Clock : Type := { fullYear : Z; monthIndex : Z }.

(** [/^(0[1-9]|1[0-2])\/\d{2}$/] *)
Definition expiryPattern : RegExp :=
  ReAll [ReStart;
         ReAlt (ReSeq (ReLit "0") (ReChar (char_between 49 57)))
               (ReSeq (ReLit "1") (ReChar (char_between 48 50)));
         ReLit "/"; ReTimes 2 (ReChar is_digit); ReEnd].

Definition isValidExpiry (clock : Clock) (expiry : JSValue) : bool :=
  on_string expiry
    (fun s =>
       if negb (test expiryPattern s) then false
       else
         let pieces := split "/" s in
         let month := nth 0 pieces EmptyString in
         let year := nth 1 pieces EmptyString in
         let currentYear := Z.rem (fullYear clock) 100 in
         let currentMonth := monthIndex clock + 1 in
         let expiryYear := parseInt year in
         let expiryMonth := parseInt month in
         if nan_lt expiryYear (Some currentYear)
            || (nan_eq expiryYear (Some currentYear)
                && nan_lt expiryMonth (Some currentMonth))
         then false
         else true).

(** [/^[A-Za-z\s]{2,50}$/] *)
Definition cardHolderPattern : RegExp :=
  ReAll [ReStart; ReBetween 2 50 (ReChar (fun c => is_letter c || is_space c)); ReEnd].

Definition isValidCardHolder (cardHolder : JSValue) : bool :=
  on_string cardHolder (test cardHolderPattern).

(** ** logger.js: masking *)

(** Values with structure: a scalar, an array, or an object with its
    properties in the order of their insertion. *)
#[local] Unset Elimination Schemes.
Inductive JSData : Type :=
| DValue (v : JSValue)
| DArray (items : list JSData)
| DObject (props : list (string * JSData)).
#[local] Set Elimination Schemes.

(** [s.indexOf(c)] for a single character; [None] stands for -1. *)
Fixpoint indexOf (c : ascii) (s : string) : option nat :=
  match s with
  | EmptyString => None
  | String d r =>
      if Ascii.eqb d c then Some O
      else match indexOf c r with
           | Some n => Some (S n)
           | None => None
           end
  end.

(** The functions that mask one value start with
    [if (!v || typeof v !== 'string') return v]. *)
Definition mask_string (v : JSValue) (f : string -> string) : JSValue :=
  if negb (truthy v) || negb (typeof_string v) then v
  else match v with
       | VString s => VString (f s)
       | _ => v
       end.

Definition digitsOnly (s : string) : string :=
  replaceAll (ReChar (fun c => negb (is_digit c))) EmptyString s.

Definition maskCardNumber (cardNumber : JSValue) : JSValue :=
  mask_string cardNumber
    (fun s =>
       let digits := digitsOnly s in
       if (String.length digits <? 4)%nat then "****"
       else
         let lastFour := slice_last 4 digits in
         "****-****-****-" ++ lastFour).

Definition maskEmail (email : JSValue) : JSValue :=
  mask_string email
    (fun s =>
       match indexOf "@" s with
       | None | Some O => "***"
       | Some atIndex =>
           let username := String.substring 0 atIndex s in
           let domain := String.substring atIndex (String.length s - atIndex) s in
           String.substring 0 1 username ++ "***" ++ domain
       end).

Definition maskPhone (phone : JSValue) : JSValue :=
  mask_string phone
    (fun s =>
       let digits := digitsOnly s in
       if (String.length digits <? 4)%nat then "***"
       else
         let lastFour := slice_last 4 digits in
         "***-****-" ++ lastFour).

Definition redactSensitive (value : JSData) : JSData := DValue (VString "[REDACTED]").

Inductive MaskFunc : Type := Redact | MaskCard | MaskEmail | MaskPhone.

(** The object [sensitiveFields], in the order of its properties. *)
Definition sensitiveFields : list (string * MaskFunc) :=
  [("cvv", Redact); ("cvc", Redact); ("cvv2", Redact); ("password", Redact);
   ("api_key", Redact); ("apiKey", Redact); ("secret", Redact); ("token", Redact);
   ("access_token", Redact); ("refresh_token", Redact);
   ("card_number", MaskCard); ("cardNumber", MaskCard); ("card", MaskCard);
   ("email", MaskEmail);
   ("phone", MaskPhone); ("phone_number", MaskPhone); ("phoneNumber", MaskPhone);
   ("mobile", MaskPhone)].

(** A masking function applied to a value: what is not a string, an array
    or an object for one, comes back as it is. *)
Definition applyMask (f : MaskFunc) (value : JSData) : JSData :=
  match f with
  | Redact => redactSensitive value
  | MaskCard =>
      match value with DValue v => DValue (maskCardNumber v) | _ => value end
  | MaskEmail =>
      match value with DValue v => DValue (maskEmail v) | _ => value end
  | MaskPhone =>
      match value with DValue v => DValue (maskPhone v) | _ => value end
  end.

(** The first sensitive field whose lower-case name the lower-case key
    includes. *)
Definition sensitiveField (key : string) : option (string * MaskFunc) :=
  List.find (fun entry => includes (toLowerCase (fst entry)) (toLowerCase key))
            sensitiveFields.

(** The error of calling [masked.hasOwnProperty] when the data has a
    property of that name of its own, which is then not a function. *)
Definition notAFunction : JSError := Error "masked.hasOwnProperty is not a function".

Section Each.
Variables (A B : Type) (f : A -> JSError + B).

(** A loop that builds a list and stops at the first error. *)
Fixpoint each (l : list A) : JSError + list B :=
  match l with
  | [] => inr []
  | a :: rest =>
      match f a with
      | inl e => inl e
      | inr b =>
          match each rest with
          | inl e => inl e
          | inr bs => inr (b :: bs)
          end
      end
  end.

End Each.
Arguments each {A B} f l.

(** [maskSensitiveData]; the result is the error thrown or the masked
    data.  The loop over the properties asks [masked.hasOwnProperty(key)]
    for each key: when the object has a property named hasOwnProperty
    itself, that call throws at the first key.  Otherwise a property is
    masked by the function of its sensitive field, if it has one, and
    what is then an array or an object is masked in turn; this is then
    the value of the property itself, since a masking function gives an
    array or an object only when that is what it got. *)
Fixpoint maskSensitiveData (data : JSData) : JSError + JSData :=
  match data with
  | DValue v => inr (DValue v)
  | DArray items =>
      match each maskSensitiveData items with
      | inl e => inl e
      | inr masked => inr (DArray masked)
      end
  | DObject props =>
      if existsb (fun prop => String.eqb (fst prop) "hasOwnProperty") props
      then inl notAFunction
      else
        match
          each (fun prop =>
                  match prop with
                  | (key, value) =>
                      let maskedValue :=
                        match sensitiveField key with
                        | Some (_, maskFunc) => applyMask maskFunc value
                        | None => value
                        end in
                      match maskedValue with
                      | DValue _ => inr (key, maskedValue)
                      | DArray _ | DObject _ =>
                          match maskSensitiveData value with
                          | inl e => inl e
                          | inr inTurn => inr (key, inTurn)
                          end
                      end
                  end) props
        with
        | inl e => inl e
        | inr masked => inr (DObject masked)
        end
  end.

(** ** cardService.js *)

(** The fields of [cardData] that [processCardPayment] reads. *)
Record CardData : Type := {
  card_number : JSValue;
  card_holder : JSValue;
  expiry : JSValue;
  cvv : JSValue;
  saved_card_id : JSValue
}.

(** What the [catch] block of [processCardPayment] returns for an error
    with the message [msg]. *)
Definition cardFailure (msg : string) : CardPaymentResult :=
  {| cp_success := false; cp_transactionId := None; cp_cardType := None;
     cp_cardLast4 := None;
     cp_error := Some (match msg with
                       | EmptyString => "Card payment failed"
                       | _ => msg
                       end) |}.

(** [processCardPayment]; [transactionId] is what [generateTransactionId]
    gives, and [None] stands for card data that is [null] or
    [undefined]. *)
Definition processCardPayment (clock : Clock) (transactionId : string)
    (cardData : option CardData) (amount orderId : JSValue) : CardPaymentResult :=
  match cardData with
  | None => cardFailure "Card data is required"
  | Some data =>
      if truthy (saved_card_id data)
      then {| cp_success := true; cp_transactionId := Some transactionId;
              cp_cardType := Some "saved"; cp_cardLast4 := None; cp_error := None |}
      else if negb (truthy (card_number data)) || negb (truthy (card_holder data))
              || negb (truthy (expiry data)) || negb (truthy (cvv data))
      then cardFailure "Missing required card information"
      else if negb (isValidCardNumber (card_number data))
      then cardFailure "Invalid card number"
      else if negb (isValidCVV (cvv data))
      then cardFailure "Invalid CVV"
      else if negb (isValidExpiry clock (expiry data))
      then cardFailure "Invalid expiry date"
      else {| cp_success := true; cp_transactionId := Some transactionId;
              cp_cardType := Some "new";
              cp_cardLast4 :=
                match card_number data with
                | VString s => Some (slice_last 4 s)
                | _ => None
                end;
              cp_error := None |}
  end.

(** ** The validation middleware *)

Definition badRequest (msg : string) : Response :=
  {| rs_status := 400; rs_body := errorBody (Some msg) "VALIDATION_ERROR" None |}.

Definition maliciousInput : Response :=
  badRequest "Invalid input: potentially malicious content detected".

Section Middleware.
Context `{RT : JSRuntime}.

(** [validatePaymentRequest]: the response it sends, or [Next]. *)
Definition validatePaymentRequest (body : RequestBody) : MiddlewareResult :=
  let order_id := b_order_id body in
  let payment_method := b_payment_method body in
  let idempotency_key := b_idempotency_key body in
  if negb (truthy order_id) then Respond (badRequest "order_id is required")
  else if negb (truthy payment_method)
  then Respond (badRequest "payment_method is required")
  else if negb (truthy idempotency_key)
  then Respond (badRequest "idempotency_key is required")
  else if negb (isValidUserId order_id)
  then Respond (badRequest "Invalid order_id: must be a positive integer")
  else if negb (isValidPaymentMethod payment_method)
  then Respond
         (badRequest
            "Invalid payment_method: must be one of card, credit_card, debit_card, bank_transfer, mobile, or paypal")
  else if negb (isValidIdempotencyKey idempotency_key)
  then Respond (badRequest "Invalid idempotency_key: must be a valid UUID v4")
  else if detectSQLInjection payment_method then Respond maliciousInput
  else Next.

(** [router.post('/', validatePaymentRequest, checkIdempotency, handler)] *)
Definition postPaymentsRoute (renv : RouteEnv) (body : RequestBody)
    : World -> Response * World :=
  fun w =>
    match validatePaymentRequest body with
    | Respond r => (r, w)
    | Next => postPayments renv body w
    end.

End Middleware.

(** [validateCancellationRequest]: the response it sends, or the reason
    it leaves in [req.body] for the handler. *)
Definition validateCancellationRequest (payment_id reason : JSValue)
    : Response + JSValue :=
  if negb (truthy payment_id) then inl (badRequest "payment_id is required")
  else if negb (isValidLength payment_id 100)
  then inl (badRequest "Invalid payment_id: must be between 1 and 100 characters")
  else if detectSQLInjection payment_id then inl maliciousInput
  else if truthy reason then
    if negb (typeof_string reason)
    then inl (badRequest "Invalid reason: must be a string")
    else if negb (isValidLength reason 500)
    then inl (badRequest "Invalid reason: must be between 1 and 500 characters")
    else if detectSQLInjection reason then inl maliciousInput
    else inr (sanitizeInput reason)
  else inr reason.

(** The body of the answer to a cancellation that went through. *)
Record CancellationBody : Type := {
  cb_success : bool;
  cb_cancellation_id : string;
  cb_status : string;
  cb_message : string
}.

Inductive CancelReply : Type :=
| CancelDone (status : Z) (body : CancellationBody)
| CancelRefused (response : Response).

Section CancelRoute.
Context `{RT : JSRuntime}.

(** The [try] block of the handler that clears the cache after a
    cancellation: the user of the payment is looked up, a failure of the
    lookup being passed over, and the two cache keys are deleted. *)
Definition cacheHousekeeping (env : Env) (id : JSValue) : IO unit :=
  let* paymentUserId :=
    try_catch
      (let* payment := getPaymentById env id in
       match payment with
       | Some (row, _) =>
           if truthy (user_id row) then ret (user_id row) else ret VNull
       | None => ret VNull
       end)
      (fun _ => ret VNull) in
  let* _ := redis_del env CS_redisDelPayment ("payments:" ++ ToString id) in
  if truthy paymentUserId
  then redis_del env CS_redisDelUser ("payments:user:" ++ ToString paymentUserId)
  else ret tt.

(** The handler of [POST /payments/:id/cancel]; [requester] is
    [req.user?.id]. *)
Definition cancelHandler (env : Env) (id reason requester : JSValue)
    : World -> CancelReply * World :=
  fun w =>
    let cancelledBy := if truthy requester then requester else VNull in
    match cancelPayment env id reason cancelledBy w with
    | (Threw error, w1) => (CancelRefused (cancelErrorResponse error), w1)
    | (Returned result, w1) =>
        let w2 := swallow (cacheHousekeeping env id) w1 in
        (CancelDone 200
           {| cb_success := true;
              cb_cancellation_id := r_cancellationId result;
              cb_status := status_string (r_cancel_status result);
              cb_message := "Payment cancelled successfully" |}, w2)
    end.

(** [router.post('/:id/cancel', validateCancellationRequest, handler)].
    The route names its parameter [id]; the middleware reads
    [req.params.payment_id], which the route does not set. *)
Definition cancelRoute (env : Env) (id reason requester : JSValue)
    : World -> CancelReply * World :=
  fun w =>
    let payment_id := VUndefined in
    match validateCancellationRequest payment_id reason with
    | inl response => (CancelRefused response, w)
    | inr reason' => cancelHandler env id reason' requester w
    end.

End CancelRoute.

(** * Notions used in the statements *)

Definition has_payment_id (pid : string) (s : Store) : bool :=
  existsb (fun r => String.eqb (payment_id r) pid) (payments s).

Definition has_idempotency_key (k : string) (s : Store) : bool :=
  existsb (fun r => String.eqb (idempotency_key r) k) (payments s).

(** [wp m Q w]: running [m] from [w] ends in an outcome and a world that
    satisfy [Q]. *)
Definition wp {A : Type} (m : IO A) (Q : Outcome A -> World -> Prop) (w : World) : Prop :=
  Q (fst (m w)) (snd (m w)).

(** The world after a write statement that leaves the store [s]. *)
Definition written (s : Store) (w : World) : World := snd (write s w).

Definition no_faults (env : Env) : Prop := forall cs, fault env cs = None.

Ltac world_simpl :=
  cbn [view working committed redis events history set_working set_committed
       set_redis add_event add_history fst snd release written write] in *.

(** The call has left no transaction open, unless the rollback itself
    failed. *)
Definition closed {A : Type} (env : Env) (r : Outcome A) (w : World) : Prop :=
  match r with
  | Returned _ => working w = None
  | Threw _ => fault env CS_rollback = None -> working w = None
  end.

(** The transitions of the status of a payment. *)
Inductive status_step : PaymentStatus -> PaymentStatus -> Prop :=
| step_completed : status_step Pending Completed
| step_failed : status_step Pending Failed
| step_cancelled : status_step Completed Cancelled.

(** A row before and after a step: the same payment, its status
    unchanged or moved along one transition. *)
Definition row_step (p p' : Payment) : Prop :=
  payment_id p' = payment_id p
  /\ (status p' = status p \/ status_step (status p) (status p')).

(** The store before and after a write statement: the rows it had, each
    after a [row_step], followed by new rows, which are pending. *)
Definition store_step (s s' : Store) : Prop :=
  exists olds news,
    payments s' = (olds ++ news)%list
    /\ Forall2 row_step (payments s) olds
    /\ Forall (fun p => status p = Pending) news.

(** The committed store before and after an operation: a row that was
    there is unchanged or went from completed to cancelled; the new rows
    are completed or failed. *)
Definition committed_step (s s' : Store) : Prop :=
  exists olds news,
    payments s' = (olds ++ news)%list
    /\ Forall2 (fun p p' =>
                  payment_id p' = payment_id p
                  /\ (status p' = status p
                      \/ (status p = Completed /\ status p' = Cancelled)))
               (payments s) olds
    /\ Forall (fun p => status p = Completed \/ status p = Failed) news.

(** Consecutive states of the store, each a [store_step] from the one
    before. *)
Fixpoint steps (s : Store) (l : list Store) : Prop :=
  match l with
  | [] => True
  | s' :: l' => store_step s s' /\ steps s' l'
  end.

(** The operations the service exposes. *)
Inductive Operation : Type :=
| Submit (orderId userId amount paymentMethod idempotencyKey : JSValue)
         (card : option CardPaymentResult)
| Cancel (paymentId reason cancelledBy : JSValue)
| Get (paymentId : JSValue).

(** At most one row per payment id and per idempotency key. *)
Definition unique_keys (s : Store) : Prop :=
  List.NoDup (map payment_id (payments s))
  /\ List.NoDup (map idempotency_key (payments s)).

Definition has_ledger_key (k : string) (s : Store) : bool :=
  existsb (fun x => String.eqb (ik_key x) k) (idempotency_keys s).

(** The two worlds hold the same store, events and history; only the lock
    store may differ. *)
Definition same_store (w w' : World) : Prop :=
  committed w' = committed w /\ working w' = working w
  /\ events w' = events w /\ history w' = history w.

(** The characters of a version-4 UUID. *)
Definition uuid_char (c : ascii) : bool :=
  is_hex c || (nat_of_ascii c =? 45)%nat.

Fixpoint string_forall (P : ascii -> bool) (s : string) : bool :=
  match s with
  | EmptyString => true
  | String c r => P c && string_forall P r
  end.

(** [sub] fails to match at the start of [a ++ x] whatever [x] is: the
    characters differ before [a] ends. *)
Fixpoint mismatch (sub a : string) : bool :=
  match sub, a with
  | String c s, String d r => if Ascii.eqb c d then mismatch s r else true
  | _, _ => false
  end.

(** [sub] starts nowhere inside [a], whatever follows [a]. *)
Fixpoint all_mismatch (sub a : string) : bool :=
  match a with
  | EmptyString => true
  | String _ r => mismatch sub a && all_mismatch sub r
  end.

Section Notions.
Context `{RT : JSRuntime}.

(** The outcome the gateway step of [createPayment] arrives at. *)
Definition gatewayOutcome (env : Env) (card : option CardPaymentResult) : GatewayResult :=
  match card with
  | Some c => {| success := true; transactionId := cp_transactionId c;
                 errorMessage := None |}
  | None =>
      if js_gt (Finite (mathRandom env)) (Finite js_0_1)
      then {| success := true; transactionId := Some (generated_transaction_id env);
              errorMessage := None |}
      else {| success := false; transactionId := None;
              errorMessage := Some "Payment declined by gateway" |}
  end.

(** The value bound for the transaction reference, or for the failure
    reason, is there: the driver takes the UPDATE. *)
Definition bindable (g : GatewayResult) : bool :=
  negb (is_undefined (optional (if success g then transactionId g else errorMessage g))).

(** The row [createPayment] inserts, as the table gives it back. *)
Definition pendingRow (env : Env)
    (orderId userId amount paymentMethod idempotencyKey : JSValue) : Payment :=
  {| payment_id := generated_payment_id env; order_id := INT_column orderId;
     user_id := INT_column userId; amount := DECIMAL_column amount;
     payment_method := paymentMethod; status := Pending;
     transaction_id := None; gateway_response := None;
     idempotency_key := ToString idempotencyKey |}.

(** The row after [approvePayment] or [failPayment]. *)
Definition finalRow (g : GatewayResult) (p : Payment) : Payment :=
  if success g
  then set_transaction_id (transactionId g) (set_status Completed p)
  else set_gateway_response (errorMessage g) (set_status Failed p).

Definition paymentResult (env : Env) (g : GatewayResult) : PaymentResult :=
  if success g
  then {| r_paymentId := generated_payment_id env; r_status := Completed;
          r_transactionId := transactionId g; r_errorMessage := None |}
  else {| r_paymentId := generated_payment_id env; r_status := Failed;
          r_transactionId := None; r_errorMessage := errorMessage g |}.

Definition fresh_ids (env : Env) (idempotencyKey : JSValue) (s : Store) : Prop :=
  has_payment_id (generated_payment_id env) s = false
  /\ has_idempotency_key (ToString idempotencyKey) s = false.

(** Everything the transaction of [createPayment] can leave behind when
    it starts from [w]: the error thrown is an infrastructure failure,
    the refusal of the insert by the server or the refusal of the update
    by the driver, and then nothing is committed. *)
Definition createTx_post (env : Env)
    (orderId userId amount paymentMethod idempotencyKey : JSValue)
    (card : option CardPaymentResult) (w : World)
    (r : Outcome PaymentResult) (w1 : World) : Prop :=
  let g := gatewayOutcome env card in
  let p := pendingRow env orderId userId amount paymentMethod idempotencyKey in
  let s1 := with_payments (payments (committed w) ++ [p]) (committed w) in
  let s2 := with_payments (payments (committed w) ++ [finalRow g p]) (committed w) in
  let invoked := (events w ++ [GatewayInvoked (generated_payment_id env)])%list in
  redis w1 = redis w
  /\ (events w1 = events w \/ (card = None /\ events w1 = invoked))
  /\ (history w1 = history w
      \/ (fresh_ids env idempotencyKey (committed w)
          /\ (history w1 = (history w ++ [s1])%list
              \/ history w1 = ((history w ++ [s1]) ++ [s2])%list)))
  /\ match r with
     | Threw e =>
         committed w1 = committed w
         /\ ((exists cs, fault env cs = Some e)
             \/ insert_payment p (committed w) = inl e
             \/ (bindable g = false /\ e = undefinedBindParameter
                 /\ fresh_ids env idempotencyKey (committed w)))
     | Returned res =>
         working w1 = None
         /\ bindable g = true
         /\ res = paymentResult env g
         /\ fresh_ids env idempotencyKey (committed w)
         /\ committed w1 = s2
         /\ history w1 = ((history w ++ [s1]) ++ [s2])%list
         /\ (card = None -> events w1 = invoked)
     end.

(** The same for [createPayment] as a whole. *)
Definition createPayment_post (env : Env)
    (orderId userId amount paymentMethod idempotencyKey : JSValue)
    (card : option CardPaymentResult) (w : World)
    (r : Outcome PaymentResult) (w' : World) : Prop :=
  closed env r w'
  /\ match r with
     | Threw e =>
         validateCreatePayment orderId userId amount paymentMethod idempotencyKey
         = Some e /\ w' = w
         \/ validateCreatePayment orderId userId amount paymentMethod idempotencyKey
            = None
            /\ createTx_post env orderId userId amount paymentMethod idempotencyKey
                 card w r w'
     | Returned _ =>
         validateCreatePayment orderId userId amount paymentMethod idempotencyKey
         = None
         /\ createTx_post env orderId userId amount paymentMethod idempotencyKey
              card w r w'
     end.

(** All five input checks of [createPayment] pass. *)
Definition validInputs
    (orderId userId amount paymentMethod idempotencyKey : JSValue) : bool :=
  isValidUserId orderId && isValidUserId userId && isValidAmount amount
  && isValidPaymentMethod paymentMethod
  && negb (negb (truthy idempotencyKey) || negb (typeof_string idempotencyKey)).

(** The row [cancelPayment] inserts. *)
Definition cancellationRow (env : Env) (paymentId reason cancelledBy : JSValue)
    : Cancellation :=
  {| cancellation_id := generated_cancellation_id env;
     c_payment_id := ToString paymentId;
     reason := reason; cancelled_by := cancelledBy |}.

(** The store with the cancellation recorded, before the status changes. *)
Definition cancellation_recorded (env : Env) (paymentId reason cancelledBy : JSValue)
    (s : Store) : Store :=
  with_cancellations
    (payment_cancellations s ++ [cancellationRow env paymentId reason cancelledBy]) s.

(** The store after a cancellation: one more cancellation row, and the
    status of the payment set to cancelled. *)
Definition cancelled_store (env : Env) (paymentId reason cancelledBy : JSValue)
    (s : Store) : Store :=
  update_payments (ToString paymentId) (set_status Cancelled)
    (cancellation_recorded env paymentId reason cancelledBy s).

(** The payment the cancellation looks at is there and is completed. *)
Definition first_completed (paymentId : JSValue) (s : Store) : Prop :=
  exists p rest,
    select_payments (ToString paymentId) s = p :: rest /\ status p = Completed.

(** A payment with that id exists and its status is completed. *)
Definition cancellable (paymentId : JSValue) (s : Store) : Prop :=
  (negb (truthy paymentId) || negb (typeof_string paymentId)) = false
  /\ first_completed paymentId s.

Definition fresh_cancellation_id (env : Env) (s : Store) : Prop :=
  existsb (fun r => String.eqb (cancellation_id r) (generated_cancellation_id env))
          (payment_cancellations s) = false.

(** Why the transaction of [cancelPayment] threw [e]. *)
Definition cancel_cause (env : Env) (paymentId reason cancelledBy : JSValue)
    (s : Store) (e : JSError) : Prop :=
  (exists cs, fault env cs = Some e)
  \/ (select_payments (ToString paymentId) s = [] /\ e = Error "Payment not found")
  \/ (exists p rest,
        select_payments (ToString paymentId) s = p :: rest
        /\ status p <> Completed
        /\ e = Error "Only completed payments can be cancelled")
  \/ (first_completed paymentId s
      /\ existsb is_undefined [reason; cancelledBy] = true
      /\ e = undefinedBindParameter)
  \/ (first_completed paymentId s
      /\ existsb is_undefined [reason; cancelledBy] = false
      /\ insert_cancellation (cancellationRow env paymentId reason cancelledBy) s
         = inl e).

(** Everything the transaction of [cancelPayment] can leave behind when it
    starts from [w]. *)
Definition cancelTx_post (env : Env) (paymentId reason cancelledBy : JSValue)
    (w : World) (r : Outcome CancelResult) (w1 : World) : Prop :=
  let sA := cancellation_recorded env paymentId reason cancelledBy (committed w) in
  let sB := cancelled_store env paymentId reason cancelledBy (committed w) in
  let recorded :=
    insert_cancellation (cancellationRow env paymentId reason cancelledBy)
      (committed w) = inr sA in
  redis w1 = redis w /\ events w1 = events w
  /\ (history w1 = history w
      \/ (first_completed paymentId (committed w) /\ recorded
          /\ (history w1 = (history w ++ [sA])%list
              \/ history w1 = ((history w ++ [sA]) ++ [sB])%list)))
  /\ match r with
     | Threw e =>
         committed w1 = committed w
         /\ cancel_cause env paymentId reason cancelledBy (committed w) e
     | Returned res =>
         working w1 = None
         /\ existsb is_undefined [reason; cancelledBy] = false
         /\ res = {| r_cancellationId := generated_cancellation_id env;
                     r_cancel_status := Cancelled |}
         /\ first_completed paymentId (committed w) /\ recorded
         /\ committed w1 = sB
         /\ history w1 = ((history w ++ [sA]) ++ [sB])%list
     end.

(** The same for [cancelPayment] as a whole. *)
Definition cancelPayment_post (env : Env) (paymentId reason cancelledBy : JSValue)
    (w : World) (r : Outcome CancelResult) (w' : World) : Prop :=
  closed env r w'
  /\ (((negb (truthy paymentId) || negb (typeof_string paymentId)) = true
       /\ r = Threw (Error "Invalid payment_id") /\ w' = w)
      \/ ((negb (truthy paymentId) || negb (typeof_string paymentId)) = false
          /\ cancelTx_post env paymentId reason cancelledBy w r w')).

(** The world an operation leaves behind when it starts from the
    committed store [s], on a connection that has no transaction open. *)
Definition exec (env : Env) (op : Operation) (s : Store) : World :=
  match op with
  | Submit orderId userId amount paymentMethod idempotencyKey card =>
      snd (createPayment env orderId userId amount paymentMethod idempotencyKey
             card (initialWorld s))
  | Cancel paymentId reason cancelledBy =>
      snd (cancelPayment env paymentId reason cancelledBy (initialWorld s))
  | Get paymentId => snd (getPaymentById env paymentId (initialWorld s))
  end.

(** The stores that sequences of operations lead to. *)
Inductive reachable : Store -> Prop :=
| reachable_empty : reachable emptyStore
| reachable_step (s : Store) (env : Env) (op : Operation) :
    reachable s -> reachable (committed (exec env op s)).


(** The request data the payment route stores a fingerprint of. *)
Definition storedRequestDataOf (body : RequestBody) : list (string * JSValue) :=
  [("order_id", b_order_id body); ("payment_method", b_payment_method body)].

(** The record the payment route writes to the ledger. *)
Definition ledgerRecord (env : Env) (body : RequestBody) (response : ResponseBody)
    : IdempotencyRecord :=
  {| ik_key := ToString (b_idempotency_key body);
     request_hash := hashRequestData (storedRequestDataOf body);
     response_data := response;
     expires_at := setHours_plus24 (now env) |}.

(** The response of the route once [createPayment] has returned. *)
Definition successResponse (result : PaymentResult) : Response :=
  {| rs_status := if status_eqb (r_status result) Completed then 200 else 422;
     rs_body := responseDataOf result |}.


Definition conflictResponse : Response :=
  {| rs_status := 409;
     rs_body :=
       errorBody
         (Some "Idempotency key conflict: same key used with different request data")
         "DUPLICATE_REQUEST" None |}.

End Notions.

(** ** Inputs of the worked examples *)

Definition exampleKey : JSValue := VString "11111111-1111-4111-8111-111111111111".

(** The double 59.5. *)
Definition exampleAmount : JSValue := VNumber (Finite (119 # 2)).

(** The double 0.00390625, that is 2^-8. *)
Definition smallAmount : JSValue := VNumber (Finite (1 # 256)).

(** An environment whose commit fails. *)
Definition commitFailsEnv : Env :=
  {| now := 1000;
     fault := fun cs => match cs with
                        | CS_commit => Some (Error "Connection lost")
                        | _ => None
                        end;
     generated_payment_id := "PAY_1000_a1b2c3d4e5f60718";
     generated_cancellation_id := "CAN_1000_0011223344556677";
     generated_transaction_id := "TXN_1000_00112233445566778899aabb";
     mathRandom := 1 # 2 |}.

Definition completedPayment : Payment :=
  {| payment_id := "PAY_1000_a1b2c3d4e5f60718"; order_id := jsInt 42;
     user_id := jsInt 7; amount := exampleAmount;
     payment_method := VString "card"; status := Completed;
     transaction_id := Some "TXN_1000_00112233445566778899aabb";
     gateway_response := None;
     idempotency_key := "11111111-1111-4111-8111-111111111111" |}.

(** A store holding one completed payment. *)
Definition completedStore : Store :=
  {| payments := [completedPayment]; payment_cancellations := [];
     idempotency_keys := [] |}.

(** A later call, with other generated identifiers. *)
Definition laterEnv : Env :=
  {| now := 2000; fault := no_fault;
     generated_payment_id := "PAY_2000_ffeeddccbbaa9988";
     generated_cancellation_id := "CAN_2000_8899aabbccddeeff";
     generated_transaction_id := "TXN_2000_ffeeddccbbaa998877665544";
     mathRandom := 1 # 2 |}.


(** A card charge that reports a failure and yet carries a reference. *)
Definition failedCard : CardPaymentResult :=
  {| cp_success := false; cp_transactionId := Some "TXN-1000-ABCDEFGHI";
     cp_cardType := None; cp_cardLast4 := None;
     cp_error := Some "Invalid card number" |}.

Definition noCard : CardPaymentResult :=
  {| cp_success := false; cp_transactionId := None; cp_cardType := None;
     cp_cardLast4 := None; cp_error := None |}.

Definition pendingOrder (total_price : JSValue) : Order :=
  {| o_user_id := jsInt 7; o_total_price := total_price;
     o_status := VString "pending" |}.

Definition exampleBody (order_id : Z) (method : string) : RequestBody :=
  {| b_order_id := jsInt order_id; b_payment_method := VString method;
     b_idempotency_key := exampleKey; b_user_id := VUndefined;
     b_items := VUndefined; b_total_price := VUndefined; b_card_data := false |}.

Definition exampleRoute (e : Env) (total_price : JSValue) : RouteEnv :=
  {| env := e; order_lookup := LookupOk (Some (pendingOrder total_price));
     card_outcome := noCard; order_patch_fails := false; production := false |}.

(** A call during which the ledger and the lock store cannot be reached. *)
Definition outageEnv : Env :=
  {| now := 1000;
     fault := fun cs => match cs with
                        | CS_checkKeySelect | CS_storeKeyInsert | CS_redisSetLock =>
                            Some (Error "connect ECONNREFUSED")
                        | _ => None
                        end;
     generated_payment_id := "PAY_1000_a1b2c3d4e5f60718";
     generated_cancellation_id := "CAN_1000_0011223344556677";
     generated_transaction_id := "TXN_1000_00112233445566778899aabb";
     mathRandom := 1 # 2 |}.

Ltac post_solve :=
  unfold createTx_post; world_simpl;
  repeat match goal with |- _ /\ _ => split end; eauto 7;
  try (intros; discriminate);
  unfold fresh_ids;
  repeat match goal with |- _ /\ _ => split end; eauto 7.


Ltac cancel_solve :=
  unfold cancelTx_post, cancel_cause; world_simpl;
  repeat match goal with |- _ /\ _ => split end; eauto 9.

(** ** Notions used in the further statements *)

(** Cancellation rows and cancelled payments go together: every
    cancellation row belongs to a payment that is cancelled, every
    cancelled payment has a cancellation row, and no two rows share a
    payment or a cancellation id. *)
Definition cancellations_match (s : Store) : Prop :=
  (forall c, In c (payment_cancellations s) ->
     exists p, In p (payments s) /\ payment_id p = c_payment_id c
               /\ status p = Cancelled)
  /\ (forall p, In p (payments s) -> status p = Cancelled ->
        exists c, In c (payment_cancellations s) /\ c_payment_id c = payment_id p)
  /\ List.NoDup (map c_payment_id (payment_cancellations s))
  /\ List.NoDup (map cancellation_id (payment_cancellations s)).

(** The rows of [s] with one payment id rewritten by [f], the others as
    they were. *)
Definition rows_rewritten (pid : string) (f : Payment -> Payment) (s s' : Store) : Prop :=
  payments s'
  = map (fun p => if String.eqb (payment_id p) pid then f p else p) (payments s)
  /\ payment_cancellations s' = payment_cancellations s
  /\ idempotency_keys s' = idempotency_keys s.

(** An environment in which the statements of [approvePayment] and
    [failPayment] go through. *)
Definition settles (env : Env) : Prop :=
  fault env CS_approveUpdate = None /\ fault env CS_approveSelect = None
  /\ fault env CS_failUpdate = None /\ fault env CS_failSelect = None.

(** An environment in which the reads of [getPaymentById] go through. *)
Definition reads (env : Env) : Prop :=
  fault env CS_getPaymentSelect = None /\ fault env CS_getCancellationSelect = None.


Definition cancelledPayment : Payment := set_status Cancelled completedPayment.

Definition cancelledStore : Store :=
  {| payments := [cancelledPayment]; payment_cancellations := [];
     idempotency_keys := [] |}.

(** A ledger record that expired at time 500. *)
Definition expiredRecord : IdempotencyRecord :=
  {| ik_key := "11111111-1111-4111-8111-111111111111";
     request_hash := "0000";
     response_data := errorBody None "PAYMENT_FAILED" None;
     expires_at := 500 |}.

Definition staleLedger : Store :=
  {| payments := []; payment_cancellations := [];
     idempotency_keys := [expiredRecord] |}.

(** The digit for [n], below ten. *)
Definition digit_char (n : nat) : ascii := ascii_of_nat (48 + n).

(** The text MM/YY for a month and a year of two digits. *)
Definition expiryText (month year : nat) : string :=
  String (digit_char (month / 10)) (String (digit_char (month mod 10))
    (String "/" (String (digit_char (year / 10))
       (String (digit_char (year mod 10)) EmptyString)))).

(** What [isValidExpiry] has to find in the text for a month and a
    year. *)
Definition expiry_reads (month year : nat) : bool :=
  let s := expiryText month year in
  test expiryPattern s
  && match parseInt (nth 0 (split "/" s) EmptyString),
           parseInt (nth 1 (split "/" s) EmptyString) with
     | Some m, Some y => (m =? Z.of_nat month) && (y =? Z.of_nat year)
     | _, _ => false
     end.

(** The characters [sanitizeInput] is to remove: the angle brackets and
    the two quotes. *)
Definition unsafe_char (c : ascii) : bool :=
  char_is 60 c || char_is 62 c || char_is 39 c || char_is 34 c.

Definition first_char (s : string) : option ascii :=
  match s with
  | EmptyString => None
  | String c _ => Some c
  end.

(** Neither the first nor the last character is white space. *)
Definition trimmed (s : string) : Prop :=
  (forall c, first_char s = Some c -> is_space c = false)
  /\ (forall c, first_char (string_rev s) = Some c -> is_space c = false).

(** The marks of SQL that [detectSQLInjection] looks for anywhere in a
    text: the quote, the semicolon, the two dashes and both ends of a
    block comment. *)
Definition sqlMarks : list string := ["'"; ";"; "--"; "/*"; "*/"].

Definition sqlKeywords : list string :=
  ["SELECT"; "INSERT"; "UPDATE"; "DELETE"; "DROP"; "CREATE"; "ALTER"; "EXEC";
   "EXECUTE"; "UNION"; "DECLARE"].

(** The same text but for the case of the letters. *)
Fixpoint same_text (x y : string) : bool :=
  match x, y with
  | EmptyString, EmptyString => true
  | String c x', String d y' => same_letter c d && same_text x' y'
  | _, _ => false
  end.

(** A pattern is blind to the case of the letters when each of its
    character tests gives a letter and its lower-case form the same
    answer; all 256 characters are tried. *)
Definition blind_test (p : ascii -> bool) : bool :=
  forallb (fun n => Bool.eqb (p (ascii_of_nat n)) (p (lower_char (ascii_of_nat n))))
          (seq 0 256).

Fixpoint case_blind (r : RegExp) : bool :=
  match r with
  | ReChar p => blind_test p
  | ReSeq r1 r2 | ReAlt r1 r2 => case_blind r1 && case_blind r2
  | ReStar r1 => case_blind r1
  | _ => true
  end.

Definition lower_before (prev : option ascii) : option ascii :=
  match prev with
  | Some c => Some (lower_char c)
  | None => None
  end.

(** The names that mark a property as a secret, the first ten of
    [sensitiveFields]. *)
Definition secretFields : list string :=
  ["cvv"; "cvc"; "cvv2"; "password"; "api_key"; "apiKey"; "secret"; "token";
   "access_token"; "refresh_token"].

(** The lower-case key includes the lower-case form of one of them. *)
Definition secret_key (key : string) : bool :=
  existsb (fun name => includes (toLowerCase name) (toLowerCase key)) secretFields.

Definition is_redacted (d : JSData) : bool :=
  match d with
  | DValue (VString s) => String.eqb s "[REDACTED]"
  | _ => false
  end.

(** At every depth, the value of a property with a secret key is the
    text [REDACTED]. *)
Fixpoint secrets_redacted (d : JSData) : bool :=
  match d with
  | DValue _ => true
  | DArray items => forallb secrets_redacted items
  | DObject props =>
      forallb (fun prop =>
                 match prop with
                 | (key, value) =>
                     (if secret_key key then is_redacted value else true)
                     && secrets_redacted value
                 end) props
  end.

(** A card with a valid number, seen in November 2026. *)
Definition exampleCard : CardData :=
  {| card_number := VString "4111-1111-1111-1111"; card_holder := VString "Jo Do";
     expiry := VString "11/26"; cvv := VString "123"; saved_card_id := VUndefined |}.

Definition exampleClock : Clock := {| fullYear := 2026; monthIndex := 10 |}.

(** The same card with its last digit changed, and the result of charging
    it. *)
Definition wrongCard : CardData :=
  {| card_number := VString "4111-1111-1111-1112"; card_holder := VString "Jo Do";
     expiry := VString "11/26"; cvv := VString "123"; saved_card_id := VUndefined |}.

Definition declinedCharge : CardPaymentResult :=
  processCardPayment exampleClock "TXN-1000-ABCDEFGHI" (Some wrongCard)
    exampleAmount (jsInt 42).

Definition cardRoute : RouteEnv :=
  {| env := exampleEnv;
     order_lookup := LookupOk (Some (pendingOrder exampleAmount));
     card_outcome :=
       processCardPayment exampleClock "TXN-1000-ABCDEFGHI" (Some exampleCard)
         exampleAmount (jsInt 42);
     order_patch_fails := false; production := false |}.

Definition cardBody : RequestBody :=
  {| b_order_id := jsInt 42; b_payment_method := VString "credit_card";
     b_idempotency_key := exampleKey; b_user_id := VUndefined;
     b_items := VUndefined; b_total_price := VUndefined; b_card_data := true |}.

(** The character before the text that follows [a]. *)
Fixpoint last_char (prev : option ascii) (a : string) : option ascii :=
  match a with
  | EmptyString => prev
  | String c r => last_char (Some c) r
  end.

(** The part of the Luhn sum that one digit contributes. *)
Definition luhn_digit (isEven : bool) (c : ascii) : Z :=
  fst (luhn_step (0, isEven) c).

(** What the loop of [maskSensitiveData] does with one property. *)
Definition maskProperty (prop : string * JSData) : JSError + (string * JSData) :=
  match prop with
  | (key, value) =>
      let maskedValue :=
        match sensitiveField key with
        | Some (_, maskFunc) => applyMask maskFunc value
        | None => value
        end in
      match maskedValue with
      | DValue _ => inr (key, maskedValue)
      | DArray _ | DObject _ =>
          match maskSensitiveData value with
          | inl e => inl e
          | inr inTurn => inr (key, inTurn)
          end
      end
  end.

(** Somewhere in the data that [maskSensitiveData] walks through, an
    object has a property named hasOwnProperty of its own.  The walk
    does not enter the value of a secret property, which is replaced by
    a text. *)
Fixpoint shadows_hasOwnProperty (d : JSData) : bool :=
  match d with
  | DValue _ => false
  | DArray items => existsb shadows_hasOwnProperty items
  | DObject props =>
      existsb (fun prop => String.eqb (fst prop) "hasOwnProperty") props
      || existsb (fun prop =>
                    match prop with
                    | (key, value) => negb (secret_key key) && shadows_hasOwnProperty value
                    end) props
  end.


(** The data of a log entry, and what is written of it. *)
Definition exampleProfile : JSData :=
  DObject [("user", DObject [("email", DValue (VString "john.doe@example.com"));
                             ("password", DValue (VString "hunter2"))]);
           ("cards", DArray [DObject [("card_number",
                                       DValue (VString "4111-1111-1111-1234"));
                                      ("cvv", DValue (VString "123"))]])].

(** Data that has a property named hasOwnProperty of its own. *)
Definition shadowingProfile : JSData :=
  DObject [("user", DObject [("name", DValue (VString "Jo Do"));
                             ("hasOwnProperty", DValue (VBool true))])].

Definition maskedProfile : JSData :=
  DObject [("user", DObject [("email", DValue (VString "j***@example.com"));
                             ("password", DValue (VString "[REDACTED]"))]);
           ("cards", DArray [DObject [("card_number",
                                       DValue (VString "****-****-****-1234"));
                                      ("cvv", DValue (VString "[REDACTED]"))]])].

(** * Properties *)

(** ** Lists of rows *)

Lemma existsb_false_filter {A : Type} (f : A -> bool) (l : list A) :
  existsb f l = false -> List.filter f l = [].
Proof.
  induction l as [|a l IH]; simpl; [reflexivity|].
  intros H. apply orb_false_iff in H as [Ha Hl].
  rewrite Ha. auto.
Qed.

Lemma existsb_false_map_if {A : Type} (f : A -> bool) (g : A -> A) (l : list A) :
  existsb f l = false -> map (fun x => if f x then g x else x) l = l.
Proof.
  induction l as [|a l IH]; simpl; [reflexivity|].
  intros H. apply orb_false_iff in H as [Ha Hl].
  rewrite Ha, IH; auto.
Qed.

Lemma filter_nil_existsb {A : Type} (f : A -> bool) (l : list A) :
  List.filter f l = [] -> existsb f l = false.
Proof.
  induction l as [|a l IH]; simpl; [reflexivity|].
  destruct (f a); [discriminate|]. auto.
Qed.

Lemma insert_payment_fresh (p : Payment) (s : Store) :
  has_payment_id (payment_id p) s = false ->
  has_idempotency_key (idempotency_key p) s = false ->
  insert_payment p s = inr (with_payments (payments s ++ [p]) s).
Proof.
  unfold insert_payment, has_payment_id, has_idempotency_key.
  intros -> ->. reflexivity.
Qed.

Lemma insert_payment_inr (p : Payment) (s s1 : Store) :
  insert_payment p s = inr s1 ->
  has_payment_id (payment_id p) s = false
  /\ has_idempotency_key (idempotency_key p) s = false
  /\ s1 = with_payments (payments s ++ [p]) s.
Proof.
  unfold insert_payment, has_payment_id, has_idempotency_key.
  destruct (existsb _ (payments s)); [discriminate|].
  destruct (existsb _ (payments s)); [discriminate|].
  intros [= <-]. auto.
Qed.

Lemma update_payments_last (pid : string) (f : Payment -> Payment)
    (p : Payment) (s : Store) :
  has_payment_id pid s = false -> payment_id p = pid ->
  update_payments pid f (with_payments (payments s ++ [p]) s)
  = with_payments (payments s ++ [f p]) s.
Proof.
  unfold update_payments, has_payment_id, with_payments. simpl.
  intros H <-. rewrite map_app. simpl. rewrite String.eqb_refl.
  rewrite (existsb_false_map_if (fun r => String.eqb (payment_id r) (payment_id p)));
    auto.
Qed.

Lemma select_payments_last (pid : string) (p : Payment) (s : Store) :
  has_payment_id pid s = false -> payment_id p = pid ->
  select_payments pid (with_payments (payments s ++ [p]) s) = [p].
Proof.
  unfold select_payments, has_payment_id, with_payments. simpl.
  intros H <-. rewrite List.filter_app. simpl. rewrite String.eqb_refl.
  rewrite existsb_false_filter; auto.
Qed.

Lemma affectedRows_last (pid : string) (p : Payment) (s : Store) :
  has_payment_id pid s = false -> payment_id p = pid ->
  affectedRows pid (with_payments (payments s ++ [p]) s) = 1%nat.
Proof.
  intros. unfold affectedRows. rewrite select_payments_last; auto.
Qed.

(** ** Reasoning about code that may throw *)

Lemma wp_run {A : Type} (m : IO A) (Q : Outcome A -> World -> Prop) (w w' : World)
    (r : Outcome A) :
  wp m Q w -> m w = (r, w') -> Q r w'.
Proof. unfold wp. intros H E. rewrite E in H. exact H. Qed.

Lemma wp_ret {A : Type} (a : A) (Q : Outcome A -> World -> Prop) (w : World) :
  Q (Returned a) w -> wp (ret a) Q w.
Proof. exact (fun H => H). Qed.

Lemma wp_throw {A : Type} (e : JSError) (Q : Outcome A -> World -> Prop) (w : World) :
  Q (Threw e) w -> wp (throw e) Q w.
Proof. exact (fun H => H). Qed.

Lemma wp_bind {A B : Type} (m : IO A) (k : A -> IO B)
    (Q : Outcome B -> World -> Prop) (w : World) :
  wp m (fun r w1 => match r with
                    | Returned a => wp (k a) Q w1
                    | Threw e => Q (Threw e) w1
                    end) w ->
  wp (bind m k) Q w.
Proof.
  unfold wp, bind. destruct (m w) as [[a|e] w1]; simpl; auto.
Qed.

Lemma wp_try_catch {A : Type} (body : IO A) (handler : JSError -> IO A)
    (Q : Outcome A -> World -> Prop) (w : World) :
  wp body (fun r w1 => match r with
                       | Returned a => Q (Returned a) w1
                       | Threw e => wp (handler e) Q w1
                       end) w ->
  wp (try_catch body handler) Q w.
Proof.
  unfold wp, try_catch. destruct (body w) as [[a|e] w1]; simpl; auto.
Qed.

Lemma wp_finally {A : Type} (body : IO A) (fin : World -> World)
    (Q : Outcome A -> World -> Prop) (w : World) :
  wp body (fun r w1 => Q r (fin w1)) w -> wp (finally body fin) Q w.
Proof.
  unfold wp, finally. destruct (body w) as [r w1]; simpl; auto.
Qed.

Lemma wp_mono {A : Type} (m : IO A) (Q Q' : Outcome A -> World -> Prop) (w : World) :
  (forall r w1, Q r w1 -> Q' r w1) -> wp m Q w -> wp m Q' w.
Proof. unfold wp. auto. Qed.

Lemma wp_call (env : Env) (cs : CallSite) (Q : Outcome unit -> World -> Prop)
    (w : World) :
  (forall e, fault env cs = Some e -> Q (Threw e) w) ->
  (fault env cs = None -> Q (Returned tt) w) ->
  wp (call env cs) Q w.
Proof.
  unfold wp, call. destruct (fault env cs); simpl; auto.
Qed.

Lemma wp_getConnection (env : Env) (Q : Outcome unit -> World -> Prop) (w : World) :
  (forall e, fault env CS_getConnection = Some e -> Q (Threw e) w) ->
  Q (Returned tt) w -> wp (getConnection env) Q w.
Proof. intros. apply wp_call; auto. Qed.

Lemma wp_beginTransaction (env : Env) (Q : Outcome unit -> World -> Prop) (w : World) :
  (forall e, fault env CS_beginTransaction = Some e -> Q (Threw e) w) ->
  Q (Returned tt) (set_working (Some (committed w)) w) ->
  wp (beginTransaction env) Q w.
Proof. intros. apply wp_bind, wp_call; auto. Qed.

Lemma wp_bindParameters (values : list JSValue) (Q : Outcome unit -> World -> Prop)
    (w : World) :
  (existsb is_undefined values = true -> Q (Threw undefinedBindParameter) w) ->
  (existsb is_undefined values = false -> Q (Returned tt) w) ->
  wp (bindParameters values) Q w.
Proof.
  unfold wp, bindParameters. destruct (existsb is_undefined values); simpl; auto.
Qed.

Lemma wp_commit (env : Env) (Q : Outcome unit -> World -> Prop) (w : World) :
  (forall e, fault env CS_commit = Some e -> Q (Threw e) w) ->
  Q (Returned tt) (set_working None (set_committed (view w) w)) ->
  wp (commit env) Q w.
Proof. intros. apply wp_bind, wp_call; auto. Qed.

Lemma wp_rollback (env : Env) (Q : Outcome unit -> World -> Prop) (w : World) :
  (forall e, fault env CS_rollback = Some e -> Q (Threw e) w) ->
  Q (Returned tt) (set_working None w) ->
  wp (rollback env) Q w.
Proof. intros. apply wp_bind, wp_call; auto. Qed.

Lemma wp_execute_insert {R : Type} (env : Env) (cs : CallSite)
    (ins : R -> Store -> JSError + Store) (row : R)
    (Q : Outcome unit -> World -> Prop) (w : World) :
  (forall e, fault env cs = Some e -> Q (Threw e) w) ->
  (forall e, ins row (view w) = inl e -> Q (Threw e) w) ->
  (forall s, ins row (view w) = inr s -> Q (Returned tt) (written s w)) ->
  wp (execute_insert env cs ins row) Q w.
Proof.
  intros Hf Ht Hr. apply wp_bind, wp_call; [auto|]. intros _.
  unfold wp. destruct (ins row (view w)) as [e|s] eqn:E; simpl; auto.
  apply Hr. reflexivity.
Qed.

Lemma wp_execute_update (env : Env) (cs : CallSite) (paymentId : string)
    (f : Payment -> Payment) (Q : Outcome nat -> World -> Prop) (w : World) :
  (forall e, fault env cs = Some e -> Q (Threw e) w) ->
  Q (Returned (affectedRows paymentId (view w)))
    (written (update_payments paymentId f (view w)) w) ->
  wp (execute_update env cs paymentId f) Q w.
Proof. intros Ht Hr. apply wp_bind, wp_call; [auto|]. intros _. exact Hr. Qed.

Lemma wp_execute_select (env : Env) (cs : CallSite) (paymentId : string)
    (Q : Outcome (list Payment) -> World -> Prop) (w : World) :
  (forall e, fault env cs = Some e -> Q (Threw e) w) ->
  Q (Returned (select_payments paymentId (view w))) w ->
  wp (execute_select env cs paymentId) Q w.
Proof. intros Ht Hr. apply wp_bind, wp_call; [auto|]. intros _. exact Hr. Qed.

(** The [catch] block of [createPayment]: whether or not the rollback
    itself succeeds, the error caught is the error thrown. *)
Lemma wp_abort (env : Env) {A : Type} (error : JSError)
    (Q : Outcome A -> World -> Prop) (w : World) :
  (forall e, fault env CS_rollback = Some e -> Q (Threw error) w) ->
  (fault env CS_rollback = None -> Q (Threw error) (set_working None w)) ->
  wp (let* _ := try_catch (rollback env) (fun _ => ret tt) in throw error) Q w.
Proof.
  intros H1 H2. apply wp_bind, wp_try_catch.
  unfold rollback. apply wp_bind, wp_call.
  - intros e He. apply (H1 e He).
  - intros He. apply H2, He.
Qed.

(** ** What createPayment leaves behind *)

Section ServiceFacts.
Context `{RT : JSRuntime}.

(** The second half of the transaction of [createPayment]: the update of
    the row just inserted, and the commit. *)
Lemma wp_finish_payment env (g : GatewayResult) (p : Payment) (s : Store)
    (Q : Outcome PaymentResult -> World -> Prop) (w1 : World) :
  let s1 := with_payments (payments s ++ [p]) s in
  let s2 := with_payments (payments s ++ [finalRow g p]) s in
  working w1 = Some s1 ->
  has_payment_id (generated_payment_id env) s = false ->
  payment_id p = generated_payment_id env ->
  (forall e cs, fault env cs = Some e -> Q (Threw e) w1) ->
  (forall e cs, fault env cs = Some e -> Q (Threw e) (written s2 w1)) ->
  (bindable g = false -> Q (Threw undefinedBindParameter) w1) ->
  (bindable g = true ->
   Q (Returned (paymentResult env g))
     (set_working None (set_committed s2 (written s2 w1)))) ->
  wp (if success g
      then
        let* _ := approvePayment env (generated_payment_id env) (transactionId g) in
        let* _ := commit env in
        ret {| r_paymentId := generated_payment_id env; r_status := Completed;
               r_transactionId := transactionId g; r_errorMessage := None |}
      else
        let* _ := failPayment env (generated_payment_id env) (errorMessage g) in
        let* _ := commit env in
        ret {| r_paymentId := generated_payment_id env; r_status := Failed;
               r_transactionId := None; r_errorMessage := errorMessage g |}) Q w1.
Proof.
  intros s1 s2 Hw Hpid Hp Ht1 Ht2 Hb Hr.
  assert (Hv : view w1 = s1) by (unfold view; rewrite Hw; reflexivity).
  assert (Hv2 : view (written s2 w1) = s2)
    by (unfold written, write, view; rewrite Hw; reflexivity).
  unfold paymentResult, finalRow, bindable in *. subst s2.
  destruct (success g).
  - apply wp_bind. unfold approvePayment.
    apply wp_bind, wp_bindParameters; cbn [existsb is_undefined orb];
      rewrite orb_false_r;
      [intros Hu; apply Hb; rewrite Hu; reflexivity|intros Hu].
    specialize (Hr (f_equal negb Hu)).
    apply wp_bind, wp_execute_update; [eauto|].
    rewrite Hv. subst s1.
    rewrite affectedRows_last, update_payments_last by assumption.
    cbn [Nat.eqb].
    apply wp_bind, wp_execute_select; [eauto|].
    rewrite Hv2, select_payments_last by assumption.
    apply wp_ret, wp_bind, wp_commit; [eauto|].
    rewrite Hv2. apply wp_ret. exact Hr.
  - apply wp_bind. unfold failPayment.
    apply wp_bind, wp_bindParameters; cbn [existsb is_undefined orb];
      rewrite orb_false_r;
      [intros Hu; apply Hb; rewrite Hu; reflexivity|intros Hu].
    specialize (Hr (f_equal negb Hu)).
    apply wp_bind, wp_execute_update; [eauto|].
    rewrite Hv. subst s1.
    rewrite affectedRows_last, update_payments_last by assumption.
    cbn [Nat.eqb].
    apply wp_bind, wp_execute_select; [eauto|].
    rewrite Hv2, select_payments_last by assumption.
    apply wp_ret, wp_bind, wp_commit; [eauto|].
    rewrite Hv2. apply wp_ret. exact Hr.
Qed.

Lemma createPaymentTransaction_wp env orderId userId amount paymentMethod
    idempotencyKey card w :
  working w = None ->
  wp (createPaymentTransaction env orderId userId amount paymentMethod
        idempotencyKey card)
     (createTx_post env orderId userId amount paymentMethod idempotencyKey card w) w.
Proof.
  intros Hw. unfold createPaymentTransaction.
  apply wp_bind, wp_beginTransaction; [intros e He; post_solve|].
  apply wp_bind, wp_call; [intros e He; post_solve|intros _].
  fold (pendingRow env orderId userId amount paymentMethod idempotencyKey).
  set (p := pendingRow env orderId userId amount paymentMethod idempotencyKey).
  apply wp_bind, wp_execute_insert;
    [intros e He; post_solve|intros e He; post_solve|].
  world_simpl. intros s Hins.
  apply insert_payment_inr in Hins as (Hpid & Hkey & ->).
  change (payment_id p) with (generated_payment_id env) in Hpid.
  change (idempotency_key p) with (ToString idempotencyKey) in Hkey.
  apply wp_bind.
  destruct card as [c|].
  - apply wp_ret.
    apply (wp_finish_payment env (gatewayOutcome env (Some c)) p (committed w));
      auto; try (intros e cs He); try (intros Hb); post_solve.
  - unfold processPaymentGateway. apply wp_bind. unfold wp at 1. world_simpl.
    pose proof (eq_refl : gatewayOutcome env None = gatewayOutcome env None) as Hg.
    unfold gatewayOutcome at 2 in Hg.
    destruct (js_gt (Finite (mathRandom env)) (Finite js_0_1)).
    + apply wp_bind, wp_call; [intros e He; post_solve|intros _].
      apply wp_ret. rewrite <- Hg.
      apply (wp_finish_payment env (gatewayOutcome env None) p (committed w));
        auto; try (intros e cs He); try (intros Hb); post_solve.
    + apply wp_ret. rewrite <- Hg.
      apply (wp_finish_payment env (gatewayOutcome env None) p (committed w));
        auto; try (intros e cs He); try (intros Hb); post_solve.
Qed.

Lemma createPayment_wp env orderId userId amount paymentMethod idempotencyKey card w :
  working w = None ->
  wp (createPayment env orderId userId amount paymentMethod idempotencyKey card)
     (createPayment_post env orderId userId amount paymentMethod idempotencyKey card w) w.
Proof.
  intros Hw. unfold createPayment, createPayment_post, closed.
  destruct (validateCreatePayment _ _ _ _ _) as [e|] eqn:Hv.
  { apply wp_throw. auto. }
  apply wp_bind, wp_getConnection; [intros e He; split; [auto|right]; post_solve|].
  apply wp_finally, wp_try_catch.
  eapply wp_mono; [|apply createPaymentTransaction_wp; assumption].
  intros [res|e] w1 (Hr & He & Hh & Hm).
  - destruct Hm as (Hw1 & Hb & -> & Hf & Hc & Hh' & He').
    split; [world_simpl; exact Hw1|]. split; [reflexivity|]. post_solve.
  - destruct Hm as (Hc & Hcause).
    apply wp_abort.
    + intros e2 He2. split; [intros Habs; congruence|right]. post_solve.
    + intros He2. split; [world_simpl; reflexivity|right]. post_solve.
Qed.

(** [createPayment] run from a world without an open transaction. *)
Lemma createPayment_effect env orderId userId amount paymentMethod idempotencyKey
    card w r w' :
  working w = None ->
  createPayment env orderId userId amount paymentMethod idempotencyKey card w = (r, w') ->
  createPayment_post env orderId userId amount paymentMethod idempotencyKey card w r w'.
Proof.
  intros Hw E. exact (wp_run _ _ _ _ _ (createPayment_wp _ _ _ _ _ _ _ _ Hw) E).
Qed.

(** The outcome of the simulated gateway can always be written to the
    row; a card result can when it carries a reference. *)
Lemma bindable_gateway env : bindable (gatewayOutcome env None) = true.
Proof.
  unfold bindable, gatewayOutcome.
  destruct (js_gt (Finite (mathRandom env)) (Finite js_0_1)); reflexivity.
Qed.

Lemma bindable_card env (c : CardPaymentResult) :
  bindable (gatewayOutcome env (Some c))
  = match cp_transactionId c with Some _ => true | None => false end.
Proof.
  unfold bindable, gatewayOutcome. cbn [success transactionId].
  destruct (cp_transactionId c); reflexivity.
Qed.

(** When nothing fails, the identifiers are new and the outcome can be
    written, [createPayment] returns. *)
Lemma createPayment_returns env orderId userId amount paymentMethod idempotencyKey
    card w :
  validateCreatePayment orderId userId amount paymentMethod idempotencyKey = None ->
  no_faults env ->
  working w = None ->
  fresh_ids env idempotencyKey (committed w) ->
  bindable (gatewayOutcome env card) = true ->
  exists w',
    createPayment env orderId userId amount paymentMethod idempotencyKey card w
    = (Returned (paymentResult env (gatewayOutcome env card)), w').
Proof.
  intros Hv Hnf Hw [Hpid Hkey] Hb.
  destruct (createPayment env orderId userId amount paymentMethod idempotencyKey card w)
    as [r w'] eqn:E.
  pose proof (createPayment_effect _ _ _ _ _ _ _ _ _ _ Hw E) as [_ H].
  destruct r as [res|e].
  - destruct H as (_ & _ & _ & _ & _ & _ & -> & _). eauto.
  - exfalso. destruct H as [[H _]|(_ & _ & _ & _ & _ & [[cs Hcs]|[Hins|[Hb' _]]])].
    + congruence.
    + rewrite Hnf in Hcs. discriminate.
    + rewrite insert_payment_fresh in Hins by assumption. discriminate.
    + congruence.
Qed.

(** When the outcome cannot be written, [createPayment] ends in the
    refusal of the driver, the other calls going through, and nothing is
    committed. *)
Lemma createPayment_refused env orderId userId amount paymentMethod idempotencyKey
    card w :
  validateCreatePayment orderId userId amount paymentMethod idempotencyKey = None ->
  no_faults env ->
  working w = None ->
  fresh_ids env idempotencyKey (committed w) ->
  bindable (gatewayOutcome env card) = false ->
  exists w',
    createPayment env orderId userId amount paymentMethod idempotencyKey card w
    = (Threw undefinedBindParameter, w')
    /\ committed w' = committed w /\ working w' = None.
Proof.
  intros Hv Hnf Hw [Hpid Hkey] Hb.
  destruct (createPayment env orderId userId amount paymentMethod idempotencyKey card w)
    as [r w'] eqn:E.
  pose proof (createPayment_effect _ _ _ _ _ _ _ _ _ _ Hw E) as [Hcl H].
  destruct r as [res|e].
  - exfalso. destruct H as (_ & _ & _ & _ & _ & Hb' & _). congruence.
  - destruct H as [[H _]|(_ & _ & _ & _ & Hc & [[cs Hcs]|[Hins|(_ & -> & _)]])].
    + congruence.
    + rewrite Hnf in Hcs. discriminate.
    + rewrite insert_payment_fresh in Hins by assumption. discriminate.
    + exists w'. split; [reflexivity|]. split; [exact Hc|]. apply Hcl, Hnf.
Qed.

End ServiceFacts.

(** ** The input checks *)

Lemma Qlt_bool_true (x y : Q) : Qlt_bool x y = true <-> (x < y)%Q.
Proof.
  unfold Qlt_bool. rewrite negb_true_iff. split.
  - intros H. apply Qnot_le_lt. intros Hle.
    apply Qle_bool_iff in Hle. congruence.
  - intros H. destruct (Qle_bool y x) eqn:E; [|reflexivity].
    apply Qle_bool_iff in E. exfalso. exact (Qlt_not_le _ _ H E).
Qed.

Lemma amount_range_iff (n : JSNumber) :
  (if isNaN n || negb (isFinite n) then false
   else js_gt n (Finite 0) && js_le n (Finite js_10000000)
        && js_ge n (Finite js_0_01)) = true
  <-> exists q, n = Finite q /\ (js_0_01 <= q)%Q /\ (q <= js_10000000)%Q.
Proof.
  destruct n as [| | |q]; simpl;
    try (split; [discriminate | intros (q & H & _); discriminate]).
  unfold js_gt, js_ge, js_lt, js_le.
  rewrite !andb_true_iff, Qlt_bool_true, !Qle_bool_iff. split.
  - intros [[_ H2] H3]. exists q. auto.
  - intros (q' & [= <-] & H1 & H2). repeat split; auto.
    apply Qlt_le_trans with js_0_01; [reflexivity | assumption].
Qed.

Section Validation.
Context `{RT : JSRuntime}.

Lemma isValidAmount_iff (amount : JSValue) :
  isValidAmount amount = true
  <-> amount <> VNull /\ amount <> VUndefined
      /\ exists q, ToNumber amount = Finite q
                   /\ (js_0_01 <= q)%Q /\ (q <= js_10000000)%Q.
Proof.
  unfold isValidAmount.
  destruct amount as [| |b|n|s];
    try (split; [discriminate | intros (H1 & H2 & _); congruence]);
    rewrite amount_range_iff;
    (split; [intros H; repeat split; [discriminate|discriminate|exact H]
            | intros (_ & _ & H); exact H]).
Qed.

Lemma validateCreatePayment_valid orderId userId amount paymentMethod idempotencyKey :
  validInputs orderId userId amount paymentMethod idempotencyKey = true ->
  validateCreatePayment orderId userId amount paymentMethod idempotencyKey = None.
Proof.
  unfold validInputs, validateCreatePayment.
  rewrite !andb_true_iff. intros [[[[-> ->] ->] ->] H].
  apply negb_true_iff in H. cbn [negb]. rewrite H. reflexivity.
Qed.

Lemma validateCreatePayment_invalid orderId userId amount paymentMethod idempotencyKey :
  validInputs orderId userId amount paymentMethod idempotencyKey = false ->
  exists e,
    validateCreatePayment orderId userId amount paymentMethod idempotencyKey = Some e
    /\ String.prefix "Invalid " (message e) = true
    /\ includes "Invalid" (message e) = true.
Proof.
  unfold validInputs, validateCreatePayment.
  destruct (isValidUserId orderId); cbn [negb andb];
    [|intros _; eexists; repeat split; reflexivity].
  destruct (isValidUserId userId); cbn [negb andb];
    [|intros _; eexists; repeat split; reflexivity].
  destruct (isValidAmount amount); cbn [negb andb];
    [|intros _; eexists; repeat split; reflexivity].
  destruct (isValidPaymentMethod paymentMethod); cbn [negb andb];
    [|intros _; eexists; repeat split; reflexivity].
  destruct (negb (truthy idempotencyKey) || negb (typeof_string idempotencyKey));
    cbn [negb]; [|discriminate].
  intros _; eexists; repeat split; reflexivity.
Qed.

(** C9, as amended: [createPayment] throws a validation error, and leaves
    the world as it was, whenever one of its five input checks fails (the
    error is an [Error] whose message starts with the word Invalid, which
    the route answers with 400 and VALIDATION_ERROR);
    when all of them pass it throws no validation error and, if nothing
    else fails and the identifiers are new, it returns after adding one
    row, or, for a card result without a transaction reference, ends in
    the TypeError of the driver, which is no validation error, with
    nothing added.  The amount check passes exactly for an amount that is
    neither [null] nor [undefined] and whose number is finite, at least
    0.01 and at most 10,000,000: the positive amounts below 0.01 are
    rejected. *)
Theorem createPayment_validates_inputs env orderId userId amount paymentMethod
    idempotencyKey card w :
  working w = None ->
  (isValidAmount amount = true
   <-> amount <> VNull /\ amount <> VUndefined
       /\ exists q, ToNumber amount = Finite q
                    /\ (js_0_01 <= q)%Q /\ (q <= js_10000000)%Q)
  /\ (validInputs orderId userId amount paymentMethod idempotencyKey = false ->
      exists e,
        String.prefix "Invalid " (message e) = true
        /\ createPayment env orderId userId amount paymentMethod idempotencyKey card w
           = (Threw e, w)
        /\ forall production,
             rs_status (errorResponse production e) = 400
             /\ rb_error_code (rs_body (errorResponse production e))
                = Some "VALIDATION_ERROR")
  /\ (validInputs orderId userId amount paymentMethod idempotencyKey = true ->
      validateCreatePayment orderId userId amount paymentMethod idempotencyKey = None
      /\ (no_faults env -> fresh_ids env idempotencyKey (committed w) ->
          (bindable (gatewayOutcome env card) = true ->
           exists res w' p,
             createPayment env orderId userId amount paymentMethod idempotencyKey
               card w
             = (Returned res, w')
             /\ payments (committed w') = (payments (committed w) ++ [p])%list
             /\ payment_id p = r_paymentId res
             /\ status p = r_status res)
          /\ (bindable (gatewayOutcome env card) = false ->
              exists w',
                createPayment env orderId userId amount paymentMethod idempotencyKey
                  card w
                = (Threw undefinedBindParameter, w')
                /\ committed w' = committed w
                /\ includes "Invalid" (message undefinedBindParameter) = false))).
Proof.
  intros Hw. split; [apply isValidAmount_iff|]. split.
  - intros H.
    destruct (validateCreatePayment_invalid _ _ _ _ _ H) as (e & He & Hp & Hi).
    exists e. split; [exact Hp|]. split.
    + unfold createPayment. rewrite He. reflexivity.
    + intros production. unfold errorResponse. rewrite Hi. split; reflexivity.
  - intros H. pose proof (validateCreatePayment_valid _ _ _ _ _ H) as Hv.
    split; [exact Hv|]. intros Hnf Hfresh. split; intros Hb.
    + destruct (createPayment_returns env _ _ _ _ _ card w Hv Hnf Hw Hfresh Hb)
        as (w' & E).
      pose proof (createPayment_effect _ _ _ _ _ _ _ _ _ _ Hw E)
        as (_ & _ & _ & _ & _ & _ & _ & _ & _ & Hc & _).
      eexists _, w', _. split; [exact E|]. rewrite Hc. split; [reflexivity|].
      unfold paymentResult, finalRow. destruct (success _); split; reflexivity.
    + destruct (createPayment_refused env _ _ _ _ _ card w Hv Hnf Hw Hfresh Hb)
        as (w' & E & Hc & _).
      exists w'. split; [exact E|]. split; [exact Hc|]. vm_compute. reflexivity.
Qed.

(** C5: when an exception leaves the transaction of [createPayment] —
    raised at any step from the start of the transaction up to and
    including the commit — the call throws that same exception and
    nothing of the attempt is in the store: the committed store and the
    lock store are what they were.  The rollback of the [catch] block is
    what closes the transaction: when it goes through, the world is the
    one the transaction left with its open transaction dropped, and no
    transaction stays open; the release of the connection does not do
    that.  When the rollback fails as well, its error is swallowed and
    the world is as the transaction left it. *)
Theorem createPayment_rolls_back env orderId userId amount paymentMethod
    idempotencyKey card w e w1 :
  working w = None ->
  validateCreatePayment orderId userId amount paymentMethod idempotencyKey = None ->
  fault env CS_getConnection = None ->
  createPaymentTransaction env orderId userId amount paymentMethod idempotencyKey
    card w = (Threw e, w1) ->
  exists w',
    createPayment env orderId userId amount paymentMethod idempotencyKey card w
    = (Threw e, w')
    /\ committed w' = committed w
    /\ redis w' = redis w
    /\ (fault env CS_rollback = None ->
        w' = set_working None w1 /\ working w' = None /\ view w' = committed w)
    /\ (forall e2, fault env CS_rollback = Some e2 -> w' = w1).
Proof.
  intros Hw Hv Hgc Htx.
  pose proof (wp_run _ _ _ _ _
                (createPaymentTransaction_wp env orderId userId amount
                   paymentMethod idempotencyKey card w Hw) Htx)
    as (Hr & _ & _ & Hc & _).
  unfold createPayment. rewrite Hv.
  unfold bind at 1, getConnection, call. rewrite Hgc.
  unfold ret at 1, finally, try_catch at 1. rewrite Htx.
  unfold bind, try_catch, rollback, bind, call.
  destruct (fault env CS_rollback) as [e2|] eqn:Hrb; cbn [throw ret];
    eexists; (split; [reflexivity|]); world_simpl.
  - repeat split; auto; intros; discriminate.
  - repeat split; auto; intros; discriminate.
Qed.

End Validation.

(** The amount 2^-8 is finite, positive and below the maximum, and
    [createPayment] rejects it. *)
Lemma createPayment_rejects_small_amount :
  (0 < 1 # 256)%Q /\ (1 # 256 <= js_10000000)%Q
  /\ @isValidAmount exampleRuntime smallAmount = false
  /\ exists e,
       @createPayment exampleRuntime exampleEnv (jsInt 42) (jsInt 7) smallAmount
         (VString "card") exampleKey None (initialWorld emptyStore)
       = (Threw e, initialWorld emptyStore)
       /\ String.prefix "Invalid amount: " (message e) = true.
Proof.
  split; [reflexivity|]. split; [discriminate|]. split; [reflexivity|].
  eexists. split; reflexivity.
Qed.

Lemma createPayment_validates_inputs_witness :
  exists res w' p,
    @createPayment exampleRuntime exampleEnv (jsInt 42) (jsInt 7) exampleAmount
      (VString "card") exampleKey None (initialWorld emptyStore)
    = (Returned res, w')
    /\ payments (committed w') = ([] ++ [p])%list
    /\ payment_id p = r_paymentId res
    /\ status p = r_status res.
Proof.
  refine (proj1 (proj2 (proj2 (proj2
            (@createPayment_validates_inputs exampleRuntime exampleEnv (jsInt 42)
               (jsInt 7) exampleAmount (VString "card") exampleKey None
               (initialWorld emptyStore) eq_refl)) eq_refl) _ _) eq_refl).
  - intros cs. reflexivity.
  - split; reflexivity.
Defined.

Lemma createPayment_rolls_back_witness :
  exists w1 w',
    @createPaymentTransaction exampleRuntime commitFailsEnv (jsInt 42) (jsInt 7)
      exampleAmount (VString "card") exampleKey None (initialWorld emptyStore)
    = (Threw (Error "Connection lost"), w1)
    /\ option_map (fun s => map status (payments s)) (working w1) = Some [Completed]
    /\ @createPayment exampleRuntime commitFailsEnv (jsInt 42) (jsInt 7) exampleAmount
         (VString "card") exampleKey None (initialWorld emptyStore)
       = (Threw (Error "Connection lost"), w')
    /\ committed w' = emptyStore
    /\ redis w' = ∅
    /\ working w' = None.
Proof.
  eexists.
  destruct (@createPayment_rolls_back exampleRuntime commitFailsEnv (jsInt 42)
              (jsInt 7) exampleAmount (VString "card") exampleKey None
              (initialWorld emptyStore) (Error "Connection lost") _
              eq_refl eq_refl eq_refl ltac:(vm_compute; reflexivity))
    as (w' & E & Hc & Hr & Hrb & _).
  exists w'. split; [vm_compute; reflexivity|]. split; [reflexivity|].
  split; [exact E|]. split; [exact Hc|]. split; [exact Hr|].
  exact (proj1 (proj2 (Hrb eq_refl))).
Defined.

(** ** What cancelPayment leaves behind *)

Lemma status_eqb_eq (a b : PaymentStatus) : status_eqb a b = true <-> a = b.
Proof. destruct a, b; simpl; split; intros H; congruence. Qed.

Lemma status_eqb_neq (a b : PaymentStatus) : status_eqb a b = false <-> a <> b.
Proof. destruct a, b; simpl; split; intros H; congruence. Qed.

Lemma select_payments_update (pid : string) (f : Payment -> Payment) (s : Store) :
  (forall p, payment_id (f p) = payment_id p) ->
  select_payments pid (update_payments pid f s) = map f (select_payments pid s).
Proof.
  intros Hf. unfold select_payments, update_payments, with_payments. simpl.
  induction (payments s) as [|p ps IH]; simpl; [reflexivity|].
  destruct (String.eqb (payment_id p) pid) eqn:E.
  - rewrite Hf, E. simpl. rewrite IH. reflexivity.
  - rewrite E. exact IH.
Qed.

Lemma select_payments_with_cancellations (pid : string) (cs : list Cancellation)
    (s : Store) :
  select_payments pid (with_cancellations cs s) = select_payments pid s.
Proof. reflexivity. Qed.

Section CancelFacts.
Context `{RT : JSRuntime}.

Lemma insert_cancellation_inr env paymentId reason cancelledBy s s1 :
  insert_cancellation (cancellationRow env paymentId reason cancelledBy) s = inr s1 ->
  s1 = cancellation_recorded env paymentId reason cancelledBy s.
Proof.
  unfold insert_cancellation, cancellation_recorded.
  destruct (existsb _ (payment_cancellations s)); [discriminate|].
  destruct (negb _); [discriminate|].
  intros [= <-]. reflexivity.
Qed.

Lemma insert_cancellation_fresh env paymentId reason cancelledBy s :
  fresh_cancellation_id env s ->
  select_payments (ToString paymentId) s <> [] ->
  insert_cancellation (cancellationRow env paymentId reason cancelledBy) s
  = inr (cancellation_recorded env paymentId reason cancelledBy s).
Proof.
  unfold fresh_cancellation_id, insert_cancellation, cancellation_recorded.
  cbn [cancellation_id c_payment_id cancellationRow].
  intros -> Hsel.
  destruct (existsb (fun p => String.eqb (payment_id p) (ToString paymentId))
                    (payments s)) eqn:E; [reflexivity|].
  exfalso. apply Hsel. apply existsb_false_filter. exact E.
Qed.

(** The [catch] block of [cancelPayment]: a failing rollback replaces the
    error. *)
Lemma wp_cancel_abort (env : Env) {A : Type} (error : JSError)
    (Q : Outcome A -> World -> Prop) (w : World) :
  (forall e, fault env CS_rollback = Some e -> Q (Threw e) w) ->
  (fault env CS_rollback = None -> Q (Threw error) (set_working None w)) ->
  wp (let* _ := rollback env in throw error) Q w.
Proof.
  intros H1 H2. apply wp_bind. unfold rollback. apply wp_bind, wp_call.
  - exact H1.
  - intros He. apply H2, He.
Qed.

Lemma cancelPaymentTransaction_wp env paymentId reason cancelledBy w :
  working w = None ->
  wp (cancelPaymentTransaction env paymentId reason cancelledBy)
     (cancelTx_post env paymentId reason cancelledBy w) w.
Proof.
  intros Hw. unfold cancelPaymentTransaction.
  apply wp_bind, wp_beginTransaction; [intros e He; cancel_solve|].
  apply wp_bind, wp_execute_select; [intros e He; cancel_solve|].
  world_simpl.
  destruct (select_payments (ToString paymentId) (committed w)) as [|p rest] eqn:Hsel.
  { apply wp_throw. cancel_solve. }
  destruct (status_eqb (status p) Completed) eqn:Hst; cbn [negb].
  2:{ apply status_eqb_neq in Hst. apply wp_throw. cancel_solve. }
  apply status_eqb_eq in Hst.
  assert (Hfc : first_completed paymentId (committed w))
    by (unfold first_completed; eauto).
  apply wp_bind, wp_call; [intros e He; cancel_solve|intros _].
  fold (cancellationRow env paymentId reason cancelledBy).
  apply wp_bind, wp_bindParameters;
    change (existsb is_undefined
              [VString (generated_cancellation_id env);
               VString (ToString paymentId); reason; cancelledBy])
      with (existsb is_undefined [reason; cancelledBy]);
    [intros Hu; cancel_solve; auto 7|intros Hu].
  apply wp_bind, wp_execute_insert;
    [intros e He; cancel_solve|intros e He; cancel_solve; auto 8|].
  world_simpl. intros s Hins.
  pose proof (insert_cancellation_inr _ _ _ _ _ _ Hins) as ->.
  apply wp_bind, wp_execute_update; [intros e He; cancel_solve|].
  world_simpl.
  fold (cancelled_store env paymentId reason cancelledBy (committed w)).
  apply wp_bind, wp_commit; [intros e He; cancel_solve|].
  world_simpl. apply wp_ret. cancel_solve.
Qed.

Lemma cancelPayment_wp env paymentId reason cancelledBy w :
  working w = None ->
  wp (cancelPayment env paymentId reason cancelledBy)
     (cancelPayment_post env paymentId reason cancelledBy w) w.
Proof.
  intros Hw. unfold cancelPayment, cancelPayment_post, closed.
  destruct (negb (truthy paymentId) || negb (typeof_string paymentId)) eqn:Hk.
  { apply wp_throw. auto. }
  apply wp_bind, wp_getConnection;
    [intros e He; split; [auto|right; split; [reflexivity|cancel_solve]]|].
  apply wp_finally, wp_try_catch.
  eapply wp_mono; [|apply cancelPaymentTransaction_wp; assumption].
  intros [res|e] w1 (Hr & He & Hh & Hm).
  - destruct Hm as (Hw1 & Hu & -> & Hf & Hrec & Hc & Hh').
    split; [world_simpl; exact Hw1|]. right. split; [reflexivity|]. cancel_solve.
  - destruct Hm as (Hc & Hcause).
    apply wp_cancel_abort.
    + intros e2 He2. split; [intros Habs; congruence|].
      right. split; [reflexivity|]. cancel_solve.
    + intros He2. split; [world_simpl; reflexivity|].
      right. split; [reflexivity|]. cancel_solve.
Qed.

(** [cancelPayment] run from a world without an open transaction. *)
Lemma cancelPayment_effect env paymentId reason cancelledBy w r w' :
  working w = None ->
  cancelPayment env paymentId reason cancelledBy w = (r, w') ->
  cancelPayment_post env paymentId reason cancelledBy w r w'.
Proof.
  intros Hw E. exact (wp_run _ _ _ _ _ (cancelPayment_wp _ _ _ _ _ Hw) E).
Qed.

End CancelFacts.

(** ** Cancellation *)

Section Cancellation.
Context `{RT : JSRuntime}.

Lemma cancel_cause_no_fault env paymentId reason cancelledBy s e :
  no_faults env ->
  cancel_cause env paymentId reason cancelledBy s e ->
  (select_payments (ToString paymentId) s = [] /\ e = Error "Payment not found")
  \/ (exists p rest,
        select_payments (ToString paymentId) s = p :: rest
        /\ status p <> Completed
        /\ e = Error "Only completed payments can be cancelled")
  \/ (first_completed paymentId s
      /\ existsb is_undefined [reason; cancelledBy] = true
      /\ e = undefinedBindParameter)
  \/ (first_completed paymentId s
      /\ existsb is_undefined [reason; cancelledBy] = false
      /\ insert_cancellation (cancellationRow env paymentId reason cancelledBy) s
         = inl e).
Proof.
  intros Hnf [[cs Hcs]|H]; [|exact H].
  rewrite Hnf in Hcs. discriminate.
Qed.

Lemma cancelled_store_select env paymentId reason cancelledBy s :
  select_payments (ToString paymentId)
    (cancelled_store env paymentId reason cancelledBy s)
  = map (set_status Cancelled) (select_payments (ToString paymentId) s).
Proof.
  unfold cancelled_store, cancellation_recorded.
  rewrite select_payments_update by reflexivity. reflexivity.
Qed.

Lemma cancelled_store_not_cancellable env paymentId reason cancelledBy s
    (paymentId' : JSValue) :
  ToString paymentId' = ToString paymentId ->
  ~ first_completed paymentId' (cancelled_store env paymentId reason cancelledBy s).
Proof.
  intros Heq (p & rest & Hsel & Hst).
  rewrite Heq, cancelled_store_select in Hsel.
  destruct (select_payments (ToString paymentId) s) as [|q qs]; [discriminate|].
  simpl in Hsel. injection Hsel as <- _. discriminate.
Qed.

(** [cancelPayment] when the infrastructure does not fail and the
    cancellation id is new: it returns exactly for a payment that is
    there and completed and a reason and a requester that are not
    [undefined]; for a payment that is there and completed it ends in the
    refusal of the driver when one of the two is [undefined]. *)
Lemma cancelPayment_no_fault env paymentId reason cancelledBy w r w' :
  working w = None ->
  no_faults env ->
  fresh_cancellation_id env (committed w) ->
  cancelPayment env paymentId reason cancelledBy w = (r, w') ->
  ((exists res, r = Returned res)
   <-> cancellable paymentId (committed w)
       /\ existsb is_undefined [reason; cancelledBy] = false)
  /\ (cancellable paymentId (committed w) ->
      existsb is_undefined [reason; cancelledBy] = true ->
      r = Threw undefinedBindParameter).
Proof.
  intros Hw Hnf Hfresh E.
  pose proof (cancelPayment_effect _ _ _ _ _ _ _ Hw E) as [_ Hpost].
  assert (Hthrew : forall e, r = Threw e -> cancellable paymentId (committed w) ->
                     existsb is_undefined [reason; cancelledBy] = true
                     /\ e = undefinedBindParameter).
  { intros e -> [Hk Hfc].
    destruct Hpost as [(Hk' & _)|(_ & _ & _ & _ & _ & Hcause)]; [congruence|].
    destruct Hfc as (p & rest & Hsel & Hst).
    destruct (cancel_cause_no_fault _ _ _ _ _ _ Hnf Hcause)
      as [[Hnil _]|[(q & qs & Hsel' & Hst' & _)|[(_ & Hu & ->)|(_ & _ & Hins)]]].
    - congruence.
    - rewrite Hsel in Hsel'. injection Hsel' as <- _. contradiction.
    - auto.
    - rewrite insert_cancellation_fresh in Hins; [discriminate|assumption|].
      rewrite Hsel. discriminate. }
  split; [split|].
  - intros [res ->].
    destruct Hpost as [(_ & Habs & _)|(Hk & _ & _ & _ & Hm)]; [discriminate|].
    destruct Hm as (_ & Hu & _ & Hfc & _). repeat split; assumption.
  - intros [Hc Hu]. destruct r as [res|e]; [eauto|]. exfalso.
    destruct (Hthrew e eq_refl Hc) as [Hu' _]. congruence.
  - intros Hc Hu. destruct r as [res|e].
    + exfalso.
      destruct Hpost as [(_ & Habs & _)|(_ & _ & _ & _ & _ & Hu' & _)];
        [discriminate|congruence].
    + destruct (Hthrew e eq_refl Hc) as [_ ->]. reflexivity.
Qed.

(** [cancelPayment] either returns, and then the payment was there and
    completed, one cancellation row was added and the status is
    cancelled, or it throws and the committed store is untouched; the
    rollback of the [catch] block, when it goes through, leaves no
    transaction open.  When the infrastructure does not fail and the
    cancellation id is new it returns exactly for a payment that exists
    and is completed and a reason and a requester that are not
    [undefined]; one that is [undefined] is refused by the driver, which
    the route answers with 500 CANCELLATION_FAILED; for any other status
    it throws "Only completed payments can be cancelled", which the route
    answers with 422 INVALID_PAYMENT_STATUS.  After a cancellation that
    returned, every further cancellation of that payment throws. *)
Theorem cancelPayment_completed_only env paymentId reason cancelledBy w r w' :
  working w = None ->
  cancelPayment env paymentId reason cancelledBy w = (r, w') ->
  match r with
  | Returned res =>
      res = {| r_cancellationId := generated_cancellation_id env;
               r_cancel_status := Cancelled |}
      /\ cancellable paymentId (committed w)
      /\ payment_cancellations (committed w')
         = (payment_cancellations (committed w)
            ++ [cancellationRow env paymentId reason cancelledBy])%list
      /\ payments (committed w')
         = map (fun p => if String.eqb (payment_id p) (ToString paymentId)
                         then set_status Cancelled p else p)
               (payments (committed w))
      /\ idempotency_keys (committed w') = idempotency_keys (committed w)
      /\ working w' = None
  | Threw _ =>
      committed w' = committed w
      /\ (fault env CS_rollback = None -> working w' = None)
  end
  /\ (no_faults env -> fresh_cancellation_id env (committed w) ->
      ((exists res, r = Returned res)
       <-> cancellable paymentId (committed w)
           /\ existsb is_undefined [reason; cancelledBy] = false)
      /\ (cancellable paymentId (committed w) ->
          existsb is_undefined [reason; cancelledBy] = true ->
          r = Threw undefinedBindParameter
          /\ rs_status (cancelErrorResponse undefinedBindParameter) = 500
          /\ rb_error_code (rs_body (cancelErrorResponse undefinedBindParameter))
             = Some "CANCELLATION_FAILED"))
  /\ (no_faults env ->
      forall p rest,
        (negb (truthy paymentId) || negb (typeof_string paymentId)) = false ->
        select_payments (ToString paymentId) (committed w) = p :: rest ->
        status p <> Completed ->
        r = Threw (Error "Only completed payments can be cancelled")
        /\ rs_status (cancelErrorResponse
                        (Error "Only completed payments can be cancelled")) = 422
        /\ rb_error_code (rs_body (cancelErrorResponse
                        (Error "Only completed payments can be cancelled")))
           = Some "INVALID_PAYMENT_STATUS")
  /\ (forall res, r = Returned res ->
      forall env2 reason2 cancelledBy2,
        exists e w'',
          cancelPayment env2 paymentId reason2 cancelledBy2 w' = (Threw e, w'')
          /\ committed w'' = committed w'
          /\ (no_faults env2 ->
              e = Error "Only completed payments can be cancelled")).
Proof.
  intros Hw E.
  pose proof (cancelPayment_effect _ _ _ _ _ _ _ Hw E) as [Hw' Hpost].
  split; [|split; [|split]].
  - destruct Hpost as [(_ & -> & ->)|(Hk & _ & _ & _ & Hm)]; [auto|].
    destruct r as [res|e]; [|split; [apply Hm|exact Hw']].
    destruct Hm as (_ & _ & -> & Hfc & _ & -> & _).
    repeat split; auto.
  - intros Hnf Hfresh.
    destruct (cancelPayment_no_fault _ _ _ _ _ _ _ Hw Hnf Hfresh E) as [Hiff Hu].
    split; [exact Hiff|]. intros Hc Hund.
    split; [exact (Hu Hc Hund)|]. split; vm_compute; reflexivity.
  - intros Hnf p rest Hk Hsel Hst.
    split; [|split; reflexivity].
    destruct Hpost as [(Hk' & _)|(_ & _ & _ & _ & Hm)]; [congruence|].
    destruct r as [res|e].
    + destruct Hm as (_ & _ & _ & (q & qs & Hsel' & Hst') & _).
      rewrite Hsel in Hsel'. injection Hsel' as <- _. contradiction.
    + destruct Hm as [_ Hcause].
      destruct (cancel_cause_no_fault _ _ _ _ _ _ Hnf Hcause)
        as [[Hnil _]|[(q & qs & _ & _ & ->)
                     |[((q & qs & Hsel' & Hst') & _)|((q & qs & Hsel' & Hst') & _)]]].
      * congruence.
      * reflexivity.
      * rewrite Hsel in Hsel'. injection Hsel' as <- _. contradiction.
      * rewrite Hsel in Hsel'. injection Hsel' as <- _. contradiction.
  - intros res -> env2 reason2 cancelledBy2.
    destruct Hpost as [(_ & Habs & _)|(Hk & _ & _ & _ & Hm)]; [discriminate|].
    destruct Hm as (_ & _ & _ & Hfc & _ & Hc & _).
    cbn [closed] in Hw'.
    destruct (cancelPayment env2 paymentId reason2 cancelledBy2 w') as [r2 w''] eqn:E2.
    pose proof (cancelPayment_effect _ _ _ _ _ _ _ Hw' E2) as [_ Hpost2].
    destruct Hpost2 as [(Hk' & _)|(_ & _ & _ & _ & Hm2)]; [congruence|].
    assert (Hnot : ~ first_completed paymentId (committed w'))
      by (rewrite Hc; apply cancelled_store_not_cancellable; reflexivity).
    destruct r2 as [res2|e2].
    + exfalso. apply Hnot. apply Hm2.
    + destruct Hm2 as [Hc2 Hcause]. exists e2, w''.
      split; [reflexivity|]. split; [exact Hc2|]. intros Hnf2.
      destruct (cancel_cause_no_fault _ _ _ _ _ _ Hnf2 Hcause)
        as [[Hnil _]|[(q & qs & _ & _ & ->)|[[Hfc2 _]|[Hfc2 _]]]].
      * exfalso. rewrite Hc, cancelled_store_select in Hnil.
        destruct Hfc as (p & rest & Hsel & _). rewrite Hsel in Hnil. discriminate.
      * reflexivity.
      * contradiction.
      * contradiction.
Qed.

End Cancellation.

Lemma cancelPayment_completed_only_witness :
  exists w',
    @cancelPayment exampleRuntime exampleEnv (VString "PAY_1000_a1b2c3d4e5f60718")
      (VString "changed my mind") (jsInt 7) (initialWorld completedStore)
    = (Returned {| r_cancellationId := "CAN_1000_0011223344556677";
                   r_cancel_status := Cancelled |}, w')
    /\ map status (payments (committed w')) = [Cancelled]
    /\ length (payment_cancellations (committed w')) = 1%nat
    /\ exists e w'',
         @cancelPayment exampleRuntime exampleEnv (VString "PAY_1000_a1b2c3d4e5f60718")
           (VString "again") (jsInt 7) w'
         = (Threw e, w'')
         /\ e = Error "Only completed payments can be cancelled".
Proof.
  eexists. split; [vm_compute; reflexivity|].
  split; [reflexivity|]. split; [reflexivity|].
  destruct (proj2 (proj2 (proj2
              (@cancelPayment_completed_only exampleRuntime exampleEnv
                 (VString "PAY_1000_a1b2c3d4e5f60718") (VString "changed my mind")
                 (jsInt 7) (initialWorld completedStore) _ _ eq_refl eq_refl)))
              _ eq_refl exampleEnv (VString "again") (jsInt 7))
    as (e & w'' & E & _ & He).
  exists e, w''. split; [exact E|]. apply He. intros cs. reflexivity.
Defined.


(** ** The status of a payment over time *)

Lemma row_step_refl (p : Payment) : row_step p p.
Proof. split; auto. Qed.

Lemma Forall2_refl_rows {A : Type} (R : A -> A -> Prop) (l : list A) :
  (forall x, R x x) -> Forall2 R l l.
Proof. intros H. induction l; constructor; auto. Qed.

Lemma Forall2_map_r_In {A : Type} (R : A -> A -> Prop) (f : A -> A) (l : list A) :
  (forall x, In x l -> R x (f x)) -> Forall2 R l (map f l).
Proof.
  induction l as [|a l IH]; intros H; simpl; constructor.
  - apply H. left. reflexivity.
  - apply IH. intros x Hx. apply H. right. exact Hx.
Qed.

Lemma NoDup_snoc {A : Type} (l : list A) (x : A) :
  List.NoDup l -> ~ In x l -> List.NoDup (l ++ [x]).
Proof.
  induction l as [|a l IH]; simpl; intros Hnd Hin.
  - constructor; [intros []|constructor].
  - inversion Hnd as [|? ? Ha Hl]; subst. constructor.
    + rewrite in_app_iff. simpl. intros [H|[H|[]]]; [auto|subst; auto].

    + apply IH; auto.
Qed.

Lemma NoDup_map_In_eq {A B : Type} (f : A -> B) (l : list A) (x y : A) :
  List.NoDup (map f l) -> In x l -> In y l -> f x = f y -> x = y.
Proof.
  induction l as [|a l IH]; simpl; [intros _ []|].
  intros Hnd Hx Hy Hxy. inversion Hnd as [|? ? Ha Hl]; subst.
  destruct Hx as [->|Hx], Hy as [->|Hy]; auto.
  - exfalso. apply Ha. rewrite Hxy. apply in_map. exact Hy.
  - exfalso. apply Ha. rewrite <- Hxy. apply in_map. exact Hx.
Qed.

Lemma has_payment_id_false (pid : string) (s : Store) :
  has_payment_id pid s = false -> ~ In pid (map payment_id (payments s)).
Proof.
  unfold has_payment_id. intros H Hin.
  apply in_map_iff in Hin as (p & Hp & Hin).
  assert (existsb (fun r => String.eqb (payment_id r) pid) (payments s) = true).
  { apply existsb_exists. exists p. split; [exact Hin|].
    rewrite Hp. apply String.eqb_refl. }
  congruence.
Qed.

Lemma has_idempotency_key_false (k : string) (s : Store) :
  has_idempotency_key k s = false -> ~ In k (map idempotency_key (payments s)).
Proof.
  unfold has_idempotency_key. intros H Hin.
  apply in_map_iff in Hin as (p & Hp & Hin).
  assert (existsb (fun r => String.eqb (idempotency_key r) k) (payments s) = true).
  { apply existsb_exists. exists p. split; [exact Hin|].
    rewrite Hp. apply String.eqb_refl. }
  congruence.
Qed.

Lemma store_step_same_payments (s s' : Store) :
  payments s' = payments s -> store_step s s'.
Proof.
  intros H. exists (payments s), []. rewrite app_nil_r.
  split; [exact H|]. split; [|constructor].
  apply Forall2_refl_rows, row_step_refl.
Qed.

Lemma store_step_insert (p : Payment) (s : Store) :
  status p = Pending -> store_step s (with_payments (payments s ++ [p]) s).
Proof.
  intros H. exists (payments s), [p]. split; [reflexivity|]. split.
  - apply Forall2_refl_rows, row_step_refl.
  - constructor; [exact H|constructor].
Qed.

Lemma store_step_finish (p p' : Payment) (s : Store) :
  row_step p p' ->
  store_step (with_payments (payments s ++ [p]) s)
             (with_payments (payments s ++ [p']) s).
Proof.
  intros H. exists (payments s ++ [p'])%list, []. rewrite app_nil_r.
  split; [reflexivity|]. split; [|constructor].
  cbn [payments with_payments]. apply Forall2_app.
  - apply Forall2_refl_rows, row_step_refl.
  - constructor; [exact H|constructor].
Qed.

Section StatusFacts.
Context `{RT : JSRuntime}.

Lemma row_step_finalRow (g : GatewayResult) (p : Payment) :
  status p = Pending -> row_step p (finalRow g p).
Proof.
  intros H. unfold finalRow, row_step.
  destruct (success g); cbn [status payment_id set_status set_transaction_id
                             set_gateway_response];
    rewrite H; split; auto using step_completed, step_failed.
Qed.

(** With one row per payment id, the update of [cancelPayment] touches the
    completed row it looked at and nothing else. *)
Lemma cancel_rows_step (pid : string) (s : Store) (p : Payment) (rest : list Payment) :
  List.NoDup (map payment_id (payments s)) ->
  select_payments pid s = p :: rest -> status p = Completed ->
  Forall2 (fun q q' =>
             payment_id q' = payment_id q
             /\ (status q' = status q
                 \/ (status q = Completed /\ status q' = Cancelled)))
    (payments s)
    (map (fun q => if String.eqb (payment_id q) pid then set_status Cancelled q else q)
         (payments s)).
Proof.
  intros Hnd Hsel Hst. apply Forall2_map_r_In. intros q Hq.
  destruct (String.eqb (payment_id q) pid) eqn:E; [|auto].
  split; [reflexivity|]. right. split; [|reflexivity].
  assert (Hp : In p (select_payments pid s)) by (rewrite Hsel; left; reflexivity).
  apply filter_In in Hp as [Hp Hpid].
  apply String.eqb_eq in E, Hpid.
  rewrite (NoDup_map_In_eq payment_id (payments s) q p Hnd Hq Hp); [exact Hst|].
  congruence.
Qed.

Lemma getPaymentById_world env paymentId w :
  snd (getPaymentById env paymentId w) = w.
Proof.
  unfold getPaymentById.
  destruct (negb (truthy paymentId) || negb (typeof_string paymentId));
    [reflexivity|].
  unfold bind, execute_select, bind, call.
  destruct (fault env CS_getPaymentSelect); [reflexivity|]. cbn [ret].
  destruct (select_payments (ToString paymentId) (view w)); [reflexivity|].
  destruct (fault env CS_getCancellationSelect); reflexivity.
Qed.

(** What an operation does to the committed store and which write
    statements it runs. *)
Lemma exec_cases env op s :
  let w' := exec env op s in
  (committed w' = s /\ history w' = [])
  \/ (exists orderId userId amount paymentMethod idempotencyKey card,
        op = Submit orderId userId amount paymentMethod idempotencyKey card
        /\ fresh_ids env idempotencyKey s
        /\ let p := pendingRow env orderId userId amount paymentMethod
                      idempotencyKey in
           let g := gatewayOutcome env card in
           let s1 := with_payments (payments s ++ [p]) s in
           let s2 := with_payments (payments s ++ [finalRow g p]) s in
           (committed w' = s /\ (history w' = [s1] \/ history w' = [s1; s2]))
           \/ (committed w' = s2 /\ history w' = [s1; s2]))
  \/ (exists paymentId reason cancelledBy,
        op = Cancel paymentId reason cancelledBy
        /\ first_completed paymentId s
        /\ let sA := cancellation_recorded env paymentId reason cancelledBy s in
           let sB := cancelled_store env paymentId reason cancelledBy s in
           (committed w' = s /\ (history w' = [sA] \/ history w' = [sA; sB]))
           \/ (committed w' = sB /\ history w' = [sA; sB])).
Proof.
  destruct op as [orderId userId amount paymentMethod idempotencyKey card
                 |paymentId reason cancelledBy|paymentId]; cbn [exec].
  - destruct (createPayment env orderId userId amount paymentMethod idempotencyKey
                card (initialWorld s)) as [r w'] eqn:E.
    pose proof (createPayment_effect env _ _ _ _ _ card (initialWorld s) r w'
                  eq_refl E) as [Hw H].
    cbn [snd].
    destruct r as [res|e].
    + destruct H as (_ & _ & _ & _ & _ & _ & _ & Hf & Hc & Hh & _).
      right. left. do 6 eexists. split; [reflexivity|]. split; [exact Hf|].
      right. split; [exact Hc|exact Hh].
    + destruct H as [[_ ->]|(_ & _ & _ & Hh & Hc & _)]; [left; split; reflexivity|].
      cbn [history committed initialWorld app] in Hh, Hc.
      destruct Hh as [Hh|(Hf & Hh)]; [left; split; assumption|].
      right. left. do 6 eexists. split; [reflexivity|]. split; [exact Hf|].
      left. split; [exact Hc|exact Hh].
  - destruct (cancelPayment env paymentId reason cancelledBy (initialWorld s))
      as [r w'] eqn:E.
    pose proof (cancelPayment_effect env _ _ _ (initialWorld s) r w' eq_refl E)
      as [Hw H].
    cbn [snd].
    destruct H as [(_ & _ & ->)|(_ & _ & _ & Hh & Hm)]; [left; split; reflexivity|].
    cbn [history committed initialWorld app] in Hh, Hm.
    destruct r as [res|e].
    + destruct Hm as (_ & _ & _ & Hfc & _ & Hc & Hh').
      right. right. do 3 eexists. split; [reflexivity|]. split; [exact Hfc|].
      right. split; [exact Hc|exact Hh'].
    + destruct Hm as [Hc _].
      destruct Hh as [Hh|(Hfc & _ & Hh)]; [left; split; assumption|].
      right. right. do 3 eexists. split; [reflexivity|]. split; [exact Hfc|].
      left. split; [exact Hc|exact Hh].
  - rewrite getPaymentById_world. left. split; reflexivity.
Qed.

Lemma exec_unique_keys env op s :
  unique_keys s -> unique_keys (committed (exec env op s)).
Proof.
  intros [Hid Hkey].
  destruct (exec_cases env op s) as [[-> _]|[H|H]]; [split; assumption| |].
  - destruct H as (orderId & userId & amount & paymentMethod & idempotencyKey & card
                   & _ & [Hf1 Hf2] & [[-> _]|[-> _]]); [split; assumption|].
    unfold unique_keys. cbn [payments with_payments]. rewrite !map_app.
    split; apply NoDup_snoc; auto.
    + unfold finalRow. destruct (success _); apply has_payment_id_false, Hf1.
    + unfold finalRow. destruct (success _); apply has_idempotency_key_false, Hf2.
  - destruct H as (paymentId & reason & cancelledBy & _ & _ & [[-> _]|[-> _]]);
      [split; assumption|].
    unfold unique_keys, cancelled_store, cancellation_recorded, update_payments.
    cbn [payments with_payments with_cancellations]. rewrite !map_map.
    assert (E1 : forall q, payment_id
                   (if String.eqb (payment_id q) (ToString paymentId)
                    then set_status Cancelled q else q) = payment_id q)
      by (intros q; destruct (String.eqb _ _); reflexivity).
    assert (E2 : forall q, idempotency_key
                   (if String.eqb (payment_id q) (ToString paymentId)
                    then set_status Cancelled q else q) = idempotency_key q)
      by (intros q; destruct (String.eqb _ _); reflexivity).
    rewrite (map_ext _ _ E1), (map_ext _ _ E2). split; assumption.
Qed.

Lemma reachable_unique_keys s : reachable s -> unique_keys s.
Proof.
  induction 1 as [|s env op _ IH].
  - split; constructor.
  - apply exec_unique_keys, IH.
Qed.

End StatusFacts.

Section StatusTheorem.
Context `{RT : JSRuntime}.

Lemma committed_step_refl (s : Store) : committed_step s s.
Proof.
  exists (payments s), []. rewrite app_nil_r. split; [reflexivity|].
  split; [|constructor]. apply Forall2_refl_rows. auto.
Qed.

Lemma cancel_store_step env paymentId reason cancelledBy s :
  List.NoDup (map payment_id (payments s)) ->
  first_completed paymentId s ->
  store_step (cancellation_recorded env paymentId reason cancelledBy s)
             (cancelled_store env paymentId reason cancelledBy s)
  /\ committed_step s (cancelled_store env paymentId reason cancelledBy s).
Proof.
  intros Hnd (p & rest & Hsel & Hst).
  pose proof (cancel_rows_step _ _ _ _ Hnd Hsel Hst) as H.
  split.
  - eexists _, []. rewrite app_nil_r. split; [reflexivity|]. split; [|constructor].
    cbn [payments cancellation_recorded with_cancellations].
    eapply Forall2_impl; [exact H|].
    intros q q' [Hid [Hs|[Hs1 Hs2]]]; split; auto.
    right. rewrite Hs1, Hs2. constructor.
  - eexists _, []. rewrite app_nil_r. split; [reflexivity|]. split; [exact H|constructor].
Qed.

(** C7: from a store that sequences of submit, cancel and get lead to,
    every write statement of every operation leaves each payment with the
    status it had or moves it along pending to completed, pending to
    failed or completed to cancelled, and a new row starts pending;
    between the committed stores before and after the operation a payment
    is unchanged or went from completed to cancelled, and a new payment
    is completed or failed.  Along such steps failed and cancelled never
    change and nothing becomes pending again. *)
Theorem status_moves_forward env op s :
  reachable s ->
  steps s (history (exec env op s))
  /\ committed_step s (committed (exec env op s))
  /\ reachable (committed (exec env op s))
  /\ (forall p p', row_step p p' ->
        (status p = Failed -> status p' = Failed)
        /\ (status p = Cancelled -> status p' = Cancelled)
        /\ (status p' = Pending -> status p = Pending)).
Proof.
  intros Hreach.
  pose proof (reachable_unique_keys s Hreach) as [Hnd _].
  split; [|split; [|split]].
  - destruct (exec_cases env op s) as [[_ ->]|[H|H]]; [exact I| |].
    + destruct H as (orderId & userId & amount & paymentMethod & idempotencyKey
                     & card & _ & _ & [[_ [->| ->]]|[_ ->]]); cbn [steps];
        repeat split;
        auto using store_step_insert, store_step_finish, row_step_finalRow.
    + destruct H as (paymentId & reason & cancelledBy & _ & Hfc & H).
      destruct (cancel_store_step env paymentId reason cancelledBy s Hnd Hfc)
        as [Hstep _].
      destruct H as [[_ [->| ->]]|[_ ->]]; cbn [steps];
        repeat split; auto using store_step_same_payments.
  - destruct (exec_cases env op s) as [[-> _]|[H|H]];
      [apply committed_step_refl| |].
    + destruct H as (orderId & userId & amount & paymentMethod & idempotencyKey
                     & card & _ & _ & [[-> _]|[-> _]]);
        [apply committed_step_refl|].
      eexists (payments s), [_]. split; [reflexivity|]. split.
      * apply Forall2_refl_rows. auto.
      * constructor; [|constructor]. unfold finalRow.
        destruct (success _); [left|right]; reflexivity.
    + destruct H as (paymentId & reason & cancelledBy & _ & Hfc & [[-> _]|[-> _]]);
        [apply committed_step_refl|].
      apply (cancel_store_step env paymentId reason cancelledBy s Hnd Hfc).
  - apply reachable_step, Hreach.
  - intros p p' [_ [H|H]].
    + rewrite H. auto.
    + inversion H; repeat split; intros; congruence.
Qed.

End StatusTheorem.

Lemma status_moves_forward_witness :
  let s := committed (@exec exampleRuntime exampleEnv
                        (Submit (jsInt 42) (jsInt 7) exampleAmount (VString "card")
                                exampleKey None) emptyStore) in
  let op := Cancel (VString "PAY_1000_a1b2c3d4e5f60718") (VString "changed my mind")
                   (jsInt 7) in
  map status (payments s) = [Completed]
  /\ map status (payments (committed (@exec exampleRuntime exampleEnv op s)))
     = [Cancelled]
  /\ steps s (history (@exec exampleRuntime exampleEnv op s))
  /\ committed_step s (committed (@exec exampleRuntime exampleEnv op s)).
Proof.
  intros s op. split; [reflexivity|]. split; [reflexivity|].
  pose proof (@status_moves_forward exampleRuntime exampleEnv op s
                (@reachable_step exampleRuntime emptyStore exampleEnv _
                   (@reachable_empty exampleRuntime))) as (H1 & H2 & _).
  split; [exact H1|exact H2].
Defined.

(** ** The ledger and the middleware *)

Lemma same_store_refl (w : World) : same_store w w.
Proof. repeat split. Qed.

Lemma same_store_trans (w1 w2 w3 : World) :
  same_store w1 w2 -> same_store w2 w3 -> same_store w1 w3.
Proof.
  intros (A1 & A2 & A3 & A4) (B1 & B2 & B3 & B4).
  repeat split; congruence.
Qed.


Section LedgerFacts.
Context `{RT : JSRuntime}.

Lemma redis_del_same_store env cs key w :
  same_store w (snd (redis_del env cs key w)).
Proof.
  unfold redis_del, bind, call. destruct (fault env cs); repeat split.
Qed.

Lemma redis_set_ex_same_store env cs key value seconds w :
  same_store w (snd (redis_set_ex env cs key value seconds w)).
Proof.
  unfold redis_set_ex, bind, call. destruct (fault env cs); repeat split.
Qed.

Lemma swallow_same_store (m : IO unit) (w : World) :
  same_store w (snd (m w)) -> same_store w (swallow m w).
Proof.
  unfold swallow, try_catch. destruct (m w) as [[[]|e] w1]; auto.
Qed.

Lemma checkIdempotency_world env body w :
  snd (checkIdempotency env body w) = w.
Proof.
  unfold checkIdempotency.
  destruct (negb (truthy (b_idempotency_key body))); [reflexivity|].
  unfold checkIdempotencyKey, validateRequestData, getIdempotencyResult,
    bind, call, throw, ret.
  destruct (invalid_key (b_idempotency_key body)); [reflexivity|].
  destruct (fault env CS_checkKeySelect); cbv beta iota; [reflexivity|].
  destruct (select_idempotency env (ToString (b_idempotency_key body)) (view w))
    as [|rec rest] eqn:Hsel; cbn [length Nat.eqb negb]; cbv beta iota;
    [reflexivity|].
  destruct (fault env CS_validateSelect); cbv beta iota; [reflexivity|].
  rewrite Hsel.
  destruct (negb (String.eqb _ _)); cbv beta iota; [reflexivity|].
  destruct (fault env CS_resultSelect); cbv beta iota; [reflexivity|].
  rewrite Hsel. reflexivity.
Qed.




(** Whatever the ledger does, the middleware answers with a conflict,
    with a stored body, or lets the request through. *)
Lemma checkIdempotency_cases env body w :
  fst (checkIdempotency env body w) = Next
  \/ fst (checkIdempotency env body w) = Respond conflictResponse
  \/ exists rec rest,
       select_idempotency env (ToString (b_idempotency_key body)) (view w)
       = rec :: rest
       /\ fault env CS_checkKeySelect = None
       /\ fault env CS_validateSelect = None
       /\ fault env CS_resultSelect = None
       /\ fst (checkIdempotency env body w)
          = Respond {| rs_status := 200; rs_body := response_data rec |}.
Proof.
  unfold checkIdempotency.
  destruct (negb (truthy (b_idempotency_key body))); [auto|].
  unfold checkIdempotencyKey, validateRequestData, getIdempotencyResult,
    bind, call, throw, ret.
  destruct (invalid_key (b_idempotency_key body)); [auto|].
  destruct (fault env CS_checkKeySelect); cbv beta iota; [auto|].
  destruct (select_idempotency env (ToString (b_idempotency_key body)) (view w))
    as [|rec rest] eqn:Hsel; cbn [length Nat.eqb negb]; cbv beta iota; [auto|].
  destruct (fault env CS_validateSelect); cbv beta iota; [auto|].
  rewrite Hsel.
  destruct (negb (String.eqb _ _)); cbv beta iota; [auto|].
  destruct (fault env CS_resultSelect); cbv beta iota; [auto|].
  rewrite Hsel. right. right. exists rec, rest. auto.
Qed.

Lemma insert_idempotency_fresh (r : IdempotencyRecord) (s : Store) :
  has_ledger_key (ik_key r) s = false ->
  insert_idempotency r s = inr (with_idempotency_keys (idempotency_keys s ++ [r]) s).
Proof. unfold insert_idempotency, has_ledger_key. intros ->. reflexivity. Qed.

Lemma insert_idempotency_taken (r : IdempotencyRecord) (s : Store) :
  has_ledger_key (ik_key r) s = true ->
  insert_idempotency r s
  = inl (ER_DUP_ENTRY (ik_key r) "idempotency_keys.idempotency_key").
Proof. unfold insert_idempotency, has_ledger_key. intros ->. reflexivity. Qed.

(** The write of the ledger record after a payment: it never throws, and
    it adds the record, or leaves the ledger as it was. *)
Lemma storeIdempotencyResponse_effect env body response w :
  working w = None ->
  let w' := storeIdempotencyResponse env (b_idempotency_key body)
              (storedRequestDataOf body) response w in
  working w' = None /\ redis w' = redis w /\ events w' = events w
  /\ payments (committed w') = payments (committed w)
  /\ payment_cancellations (committed w') = payment_cancellations (committed w)
  /\ (idempotency_keys (committed w') = idempotency_keys (committed w)
      \/ (has_ledger_key (ToString (b_idempotency_key body)) (committed w) = false
          /\ idempotency_keys (committed w')
             = (idempotency_keys (committed w)
                ++ [ledgerRecord env body response])%list))
  /\ (invalid_key (b_idempotency_key body) = false ->
      fault env CS_storeKeyInsert = None ->
      has_ledger_key (ToString (b_idempotency_key body)) (committed w) = false ->
      idempotency_keys (committed w')
      = (idempotency_keys (committed w) ++ [ledgerRecord env body response])%list).
Proof.
  intros Hw. unfold storeIdempotencyResponse, storeIdempotencyKey, try_catch.
  destruct (invalid_key (b_idempotency_key body)) eqn:Hk.
  { cbn [throw is_ER_DUP_ENTRY Error code ret snd].
    repeat split; auto; discriminate. }
  unfold execute_insert, bind, call.
  destruct (fault env CS_storeKeyInsert) as [e|] eqn:Hf.
  { cbn [throw]. destruct (is_ER_DUP_ENTRY e); cbn [ret throw snd];
      repeat split; auto; discriminate. }
  cbn [ret]. unfold view. rewrite Hw.
  fold (ledgerRecord env body response).
  destruct (has_ledger_key (ToString (b_idempotency_key body)) (committed w)) eqn:Hl.
  - rewrite insert_idempotency_taken by exact Hl.
    cbn [is_ER_DUP_ENTRY ER_DUP_ENTRY code String.eqb Ascii.eqb Bool.eqb ret snd].
    repeat split; auto; discriminate.
  - rewrite insert_idempotency_fresh by exact Hl.
    unfold write. rewrite Hw. cbn [snd].
    world_simpl. cbn [payments payment_cancellations idempotency_keys
                        with_idempotency_keys].
    repeat split; auto.
Qed.

End LedgerFacts.

(** ** The route *)

Lemma errorBody_not_success msg error_code details :
  rb_success (errorBody msg error_code details) = false.
Proof. reflexivity. Qed.

Section RouteFacts.
Context `{RT : JSRuntime}.

Lemma errorResponse_shape (production : bool) (e : JSError) :
  rb_success (rs_body (errorResponse production e)) = false
  /\ rs_status (errorResponse production e) <> 409
  /\ rb_error_code (rs_body (errorResponse production e)) <> Some "DUPLICATE_REQUEST".
Proof.
  unfold errorResponse.
  destruct (includes "Invalid" (message e));
    [|destruct (includes "not found" (message e));
      [|destruct (includes "transaction" (message e))]];
    cbn [rs_body rs_status rb_success rb_error_code errorBody];
    repeat split; discriminate.
Qed.


Lemma processPayment_threw renv body order card hasLock w e w1 :
  createPayment (env renv) (b_order_id body) (o_user_id order)
    (o_total_price order) (b_payment_method body) (b_idempotency_key body) card w
  = (Threw e, w1) ->
  processPayment renv body order card hasLock w
  = (errorResponse (production renv) e, w1).
Proof. intros E. unfold processPayment. rewrite E. reflexivity. Qed.

(** Once [createPayment] has returned, the response is decided: neither
    the write to the ledger nor the calls to the cache change it, and
    they leave the payments as committed. *)
Lemma processPayment_returned renv body order card hasLock w result w1 :
  working w = None ->
  createPayment (env renv) (b_order_id body) (o_user_id order)
    (o_total_price order) (b_payment_method body) (b_idempotency_key body) card w
  = (Returned result, w1) ->
  let w' := snd (processPayment renv body order card hasLock w) in
  fst (processPayment renv body order card hasLock w) = successResponse result
  /\ working w' = None
  /\ payments (committed w') = payments (committed w1)
  /\ payment_cancellations (committed w') = payment_cancellations (committed w1)
  /\ (idempotency_keys (committed w') = idempotency_keys (committed w)
      \/ (has_ledger_key (ToString (b_idempotency_key body)) (committed w) = false
          /\ idempotency_keys (committed w')
             = (idempotency_keys (committed w)
                ++ [ledgerRecord (env renv) body (responseDataOf result)])%list))
  /\ (invalid_key (b_idempotency_key body) = false ->
      fault (env renv) CS_storeKeyInsert = None ->
      has_ledger_key (ToString (b_idempotency_key body)) (committed w) = false ->
      idempotency_keys (committed w')
      = (idempotency_keys (committed w)
         ++ [ledgerRecord (env renv) body (responseDataOf result)])%list).
Proof.
  intros Hw E.
  pose proof (createPayment_effect _ _ _ _ _ _ _ _ _ _ Hw E)
    as (Hw1 & _ & _ & _ & _ & _ & _ & _ & _ & Hc1 & _).
  assert (Hledger : idempotency_keys (committed w1) = idempotency_keys (committed w))
    by (rewrite Hc1; reflexivity).
  unfold processPayment. rewrite E. cbv zeta.
  set (w2 := if status_eqb (r_status result) Completed && negb (order_patch_fails renv)
             then add_event (OrderMarkedPaid (b_order_id body)) w1 else w1).
  assert (Hw2 : working w2 = None /\ committed w2 = committed w1).
  { subst w2. destruct (_ && _); split; auto. }
  destruct Hw2 as [Hw2 Hc2].
  fold (storedRequestDataOf body).
  set (w3 := storeIdempotencyResponse (env renv) (b_idempotency_key body)
               (storedRequestDataOf body) (responseDataOf result) w2).
  pose proof (storeIdempotencyResponse_effect (env renv) body (responseDataOf result)
                w2 Hw2) as H3.
  cbv zeta in H3. fold w3 in H3.
  destruct H3 as (Hw3 & _ & _ & Hp3 & Hpc3 & Hl3 & Hl3').
  match goal with
  | |- context [swallow ?m1 w3] =>
      set (w4 := swallow m1 w3);
      assert (H4 : same_store w3 w4)
  end.
  { apply swallow_same_store. unfold bind.
    destruct (truthy (VString (r_paymentId result))).
    - pose proof (redis_del_same_store (env renv) CS_redisDelPayment
                    ("payments:" ++ r_paymentId result) w3) as Hd.
      destruct (redis_del _ _ _ w3) as [[[]|e] w3']; cbn [snd] in *; [|exact Hd].
      destruct (truthy (o_user_id order)); [|exact Hd].
      eapply same_store_trans; [exact Hd|apply redis_del_same_store].
    - cbn [ret]. destruct (truthy (o_user_id order)); [|apply same_store_refl].
      apply redis_del_same_store. }
  match goal with
  | |- context [swallow ?m2 w4] =>
      set (w5 := swallow m2 w4);
      assert (H5 : same_store w4 w5)
        by (apply swallow_same_store, redis_set_ex_same_store)
  end.
  match goal with
  | |- context [swallow ?m3 w5] =>
      set (w6 := swallow m3 w5);
      assert (H6 : same_store w5 w6)
        by (apply swallow_same_store; destruct hasLock;
            [apply redis_del_same_store|apply same_store_refl])
  end.
  pose proof (same_store_trans _ _ _ (same_store_trans _ _ _ H4 H5) H6)
    as (Hc & Hwk & _ & _).
  assert (Hk2 : idempotency_keys (committed w2) = idempotency_keys (committed w))
    by congruence.
  assert (Hh2 : forall k, has_ledger_key k (committed w2)
                          = has_ledger_key k (committed w))
    by (intros k; unfold has_ledger_key; rewrite Hk2; reflexivity).
  rewrite Hh2, Hk2 in Hl3, Hl3'. rewrite Hc2 in Hp3, Hpc3.
  cbn [fst snd]. rewrite Hc, Hwk.
  repeat split; auto.
Qed.

(** The handler when the lock is free: it takes the lock and goes on. *)
Lemma paymentHandler_locks renv body order card w :
  checkOrderAndCard renv body = inr (order, card) ->
  fault (env renv) CS_redisSetLock = None ->
  redis_live (now (env renv)) (redis w) (lockKey (b_order_id body)) = false ->
  paymentHandler renv body w
  = processPayment renv body order card true
      (set_redis (<[lockKey (b_order_id body)
                    := ("locked", now (env renv) + 30 * 1000)]> (redis w)) w).
Proof.
  intros Hc Hf Hl. unfold paymentHandler. rewrite Hc.
  unfold redis_set_nx, bind, call. rewrite Hf. cbn [ret]. rewrite Hl.
  reflexivity.
Qed.

(** The handler when the lock is held: the request is turned away. *)
Lemma paymentHandler_locked renv body order card w :
  checkOrderAndCard renv body = inr (order, card) ->
  fault (env renv) CS_redisSetLock = None ->
  redis_live (now (env renv)) (redis w) (lockKey (b_order_id body)) = true ->
  paymentHandler renv body w = (paymentInProgress, w).
Proof.
  intros Hc Hf Hl. unfold paymentHandler. rewrite Hc.
  unfold redis_set_nx, bind, call. rewrite Hf. cbn [ret]. rewrite Hl.
  reflexivity.
Qed.

(** The handler when the lock store cannot be reached: it goes on
    without the lock. *)
Lemma paymentHandler_lock_unreachable renv body order card w e :
  checkOrderAndCard renv body = inr (order, card) ->
  fault (env renv) CS_redisSetLock = Some e ->
  paymentHandler renv body w = processPayment renv body order card false w.
Proof.
  intros Hc Hf. unfold paymentHandler. rewrite Hc.
  unfold redis_set_nx, bind, call. rewrite Hf. reflexivity.
Qed.

End RouteFacts.

(** ** How a refused insert reaches the caller *)

Lemma piece_matches_uuid_char (p : UuidPiece) (c : ascii) :
  piece_matches p c = true -> uuid_char c = true.
Proof.
  unfold piece_matches, uuid_char, is_hex. destruct p; intros H.
  - unfold is_hex in H. rewrite H. reflexivity.
  - rewrite H. apply orb_true_r.
  - apply Nat.eqb_eq in H. rewrite H. reflexivity.
  - repeat (apply orb_true_iff in H as [H|H]);
      apply Nat.eqb_eq in H; rewrite H; reflexivity.
Qed.

Lemma pieces_match_uuid_chars (ps : list UuidPiece) (k : string) :
  pieces_match ps k = true -> string_forall uuid_char k = true.
Proof.
  revert k. induction ps as [|p ps IH]; intros [|c k]; simpl;
    try discriminate; [reflexivity|].
  intros H. apply andb_true_iff in H as [Hc Hk].
  rewrite (piece_matches_uuid_char _ _ Hc), (IH _ Hk). reflexivity.
Qed.

Lemma append_cons (c : ascii) (s t : string) :
  (String c s ++ t)%string = String c (s ++ t).
Proof. reflexivity. Qed.

Lemma append_nil (t : string) : (EmptyString ++ t)%string = t.
Proof. reflexivity. Qed.

Lemma includes_skip (c0 : ascii) (sub k tail : string) :
  string_forall (fun c => negb (Ascii.eqb c0 c)) k = true ->
  includes (String c0 sub) (k ++ tail) = includes (String c0 sub) tail.
Proof.
  induction k as [|c k IH]; [reflexivity|].
  cbn [string_forall]. rewrite append_cons. intros H.
  apply andb_true_iff in H as [Hc Hk]. apply negb_true_iff in Hc.
  cbn [includes String.prefix].
  destruct (ascii_dec c0 c) as [->|_];
    [rewrite Ascii.eqb_refl in Hc; discriminate|].
  cbn [orb]. apply IH, Hk.
Qed.

Lemma uuid_chars_skip (c0 : ascii) (k : string) :
  uuid_char c0 = false ->
  string_forall uuid_char k = true ->
  string_forall (fun c => negb (Ascii.eqb c0 c)) k = true.
Proof.
  intros H0. induction k as [|c k IH]; [reflexivity|].
  cbn [string_forall]. intros H. apply andb_true_iff in H as [Hc Hk].
  rewrite (IH Hk), andb_true_r. apply negb_true_iff.
  destruct (Ascii.eqb_spec c0 c) as [->|_]; [congruence|reflexivity].
Qed.

Lemma mismatch_prefix (sub a x : string) :
  mismatch sub a = true -> String.prefix sub (a ++ x) = false.
Proof.
  revert a. induction sub as [|c s IH]; intros [|d r]; cbn [mismatch];
    try discriminate.
  rewrite append_cons. cbn [String.prefix].
  destruct (Ascii.eqb_spec c d) as [->|Hne].
  - intros H. destruct (ascii_dec d d) as [_|Habs]; [auto|congruence].
  - intros _. destruct (ascii_dec c d) as [Habs|_]; [congruence|reflexivity].
Qed.

Lemma includes_literal (sub a x : string) :
  all_mismatch sub a = true -> includes sub (a ++ x) = includes sub x.
Proof.
  induction a as [|d r IH]; [reflexivity|].
  cbn [all_mismatch]. intros H. apply andb_true_iff in H as [H1 H2].
  pose proof (mismatch_prefix sub (String d r) x H1) as Hp.
  rewrite append_cons in *. cbn [includes]. rewrite Hp. cbn [orb].
  apply IH, H2.
Qed.

(** The message of a refused insert on the idempotency key of a payment
    contains none of the words the route looks for. *)
Lemma dup_entry_unclassified (k : string) :
  string_forall uuid_char k = true ->
  let m := message (ER_DUP_ENTRY k "payments.idempotency_key") in
  includes "Invalid" m = false /\ includes "not found" m = false
  /\ includes "transaction" m = false.
Proof.
  intros Hk. cbn [message ER_DUP_ENTRY].
  repeat split;
    (rewrite includes_literal by (vm_compute; reflexivity);
     rewrite includes_skip
       by (apply uuid_chars_skip; [vm_compute; reflexivity|exact Hk]);
     vm_compute; reflexivity).
Qed.

(** ** The card result, the refused insert, the failures that are absorbed,
    and the lock *)

Section RouteTheorems.
Context `{RT : JSRuntime}.

(** C1, as amended: a card result handed to [createPayment] is taken as
    a success whatever it reports, and the gateway is not invoked.  With
    valid inputs, new identifiers and no failing call, a result that
    carries a transaction reference gives a payment that is completed
    with that reference; a result that carries none, as every result of
    [processCardPayment] that reports a failure, has the update of
    [approvePayment] refused by the driver: the unit is rolled back, no
    row remains and the TypeError is thrown, which the route would answer
    with 500 PAYMENT_FAILED.  Whatever the surroundings do, a payment
    that [createPayment] returns for a card result is completed, never
    failed.  A card charge that failed does not get that far: the route
    answers it with 422 CARD_PAYMENT_FAILED and calls nothing. *)
Theorem createPayment_trusts_card_result env orderId userId amount paymentMethod
    idempotencyKey card w :
  working w = None ->
  validInputs orderId userId amount paymentMethod idempotencyKey = true ->
  no_faults env ->
  fresh_ids env idempotencyKey (committed w) ->
  (forall reference, cp_transactionId card = Some reference ->
     exists w',
       createPayment env orderId userId amount paymentMethod idempotencyKey
         (Some card) w
       = (Returned {| r_paymentId := generated_payment_id env;
                      r_status := Completed;
                      r_transactionId := Some reference;
                      r_errorMessage := None |}, w')
       /\ payments (committed w')
          = (payments (committed w)
             ++ [set_transaction_id (Some reference)
                   (set_status Completed
                      (pendingRow env orderId userId amount paymentMethod
                         idempotencyKey))])%list
       /\ events w' = events w)
  /\ (cp_transactionId card = None ->
      exists w',
        createPayment env orderId userId amount paymentMethod idempotencyKey
          (Some card) w
        = (Threw undefinedBindParameter, w')
        /\ committed w' = committed w /\ working w' = None
        /\ events w' = events w
        /\ forall production,
             rs_status (errorResponse production undefinedBindParameter) = 500
             /\ rb_error_code (rs_body (errorResponse production undefinedBindParameter))
                = Some "PAYMENT_FAILED")
  /\ (forall env' res w',
        createPayment env' orderId userId amount paymentMethod idempotencyKey
          (Some card) w = (Returned res, w') ->
        r_status res = Completed /\ r_errorMessage res = None
        /\ r_transactionId res = cp_transactionId card
        /\ events w' = events w)
  /\ (forall clock transactionId cardData total order_id,
        let charge := processCardPayment clock transactionId cardData total order_id in
        cp_success charge = false -> cp_transactionId charge = None)
  /\ (forall renv body order w0,
        order_lookup renv = LookupOk (Some order) ->
        strict_eq_string (o_status order) "pending" = true ->
        b_card_data body = true ->
        strict_eq_string (b_payment_method body) "credit_card"
        || strict_eq_string (b_payment_method body) "debit_card" = true ->
        cp_success (card_outcome renv) = false ->
        paymentHandler renv body w0
        = ({| rs_status := 422;
              rs_body := errorBody (cp_error (card_outcome renv))
                           "CARD_PAYMENT_FAILED" None |}, w0)).
Proof.
  intros Hw Hvalid Hnf Hfresh.
  pose proof (validateCreatePayment_valid _ _ _ _ _ Hvalid) as Hv.
  assert (Hev : forall env' r w',
            createPayment env' orderId userId amount paymentMethod idempotencyKey
              (Some card) w = (r, w') -> events w' = events w).
  { intros env' r w' E.
    pose proof (createPayment_effect _ _ _ _ _ _ _ _ _ _ Hw E) as [_ H].
    destruct r as [res|e].
    - destruct H as (_ & _ & [He|[Habs _]] & _); [exact He|discriminate].
    - destruct H as [[_ ->]|(_ & _ & [He|[Habs _]] & _)];
        [reflexivity|exact He|discriminate]. }
  split; [|split; [|split; [|split]]].
  - intros reference Href.
    assert (Hb : bindable (gatewayOutcome env (Some card)) = true)
      by (rewrite bindable_card, Href; reflexivity).
    destruct (createPayment_returns env _ _ _ _ _ (Some card) w Hv Hnf Hw Hfresh Hb)
      as (w' & E).
    pose proof (createPayment_effect _ _ _ _ _ _ _ _ _ _ Hw E)
      as (_ & _ & _ & _ & _ & _ & _ & _ & _ & Hc & _).
    exists w'. unfold paymentResult, gatewayOutcome in E.
    cbn [success transactionId] in E. rewrite Href in E.
    split; [exact E|]. split; [|exact (Hev _ _ _ E)].
    rewrite Hc. unfold finalRow, gatewayOutcome. cbn [success transactionId].
    rewrite Href. reflexivity.
  - intros Href.
    assert (Hb : bindable (gatewayOutcome env (Some card)) = false)
      by (rewrite bindable_card, Href; reflexivity).
    destruct (createPayment_refused env _ _ _ _ _ (Some card) w Hv Hnf Hw Hfresh Hb)
      as (w' & E & Hc & Hw').
    exists w'. split; [exact E|]. split; [exact Hc|]. split; [exact Hw'|].
    split; [exact (Hev _ _ _ E)|].
    intros production. destruct production; split; vm_compute; reflexivity.
  - intros env' res w' E.
    pose proof (createPayment_effect _ _ _ _ _ _ _ _ _ _ Hw E)
      as (_ & _ & _ & _ & _ & _ & _ & -> & _).
    repeat split; try reflexivity. exact (Hev _ _ _ E).
  - intros clock transactionId cardData total order_id.
    unfold processCardPayment.
    destruct cardData as [data|]; [|reflexivity].
    destruct (truthy (saved_card_id data)); [discriminate|].
    destruct (negb (truthy (card_number data)) || negb (truthy (card_holder data))
              || negb (truthy (expiry data)) || negb (truthy (cvv data)));
      [reflexivity|].
    destruct (negb (isValidCardNumber (card_number data))); [reflexivity|].
    destruct (negb (isValidCVV (cvv data))); [reflexivity|].
    destruct (negb (isValidExpiry clock (expiry data))); [reflexivity|discriminate].
  - intros renv body order w0 Hlookup Hpending Hcard Hmethod Hfailed.
    unfold paymentHandler, checkOrderAndCard.
    rewrite Hlookup, Hpending, Hcard, Hmethod, Hfailed. reflexivity.
Qed.

(** C4, as amended: when the insert of the pending row is refused because
    the idempotency key is taken, [createPayment] throws the error of the
    driver and commits nothing, and the route answers with the response
    of its [catch] block, which is never the 409 DUPLICATE_REQUEST of a
    duplicate submission: for a key that is a version-4 UUID it is 500
    PAYMENT_FAILED.  Every store that the operations lead to holds at
    most one payment per idempotency key. *)
Theorem refused_insert_is_a_generic_failure renv body order card hasLock w :
  working w = None ->
  validInputs (b_order_id body) (o_user_id order) (o_total_price order)
    (b_payment_method body) (b_idempotency_key body) = true ->
  no_faults (env renv) ->
  has_payment_id (generated_payment_id (env renv)) (committed w) = false ->
  has_idempotency_key (ToString (b_idempotency_key body)) (committed w) = true ->
  let e := ER_DUP_ENTRY (ToString (b_idempotency_key body))
             "payments.idempotency_key" in
  (exists w',
     createPayment (env renv) (b_order_id body) (o_user_id order)
       (o_total_price order) (b_payment_method body) (b_idempotency_key body)
       card w = (Threw e, w')
     /\ committed w' = committed w
     /\ processPayment renv body order card hasLock w
        = (errorResponse (production renv) e, w'))
  /\ rs_status (errorResponse (production renv) e) <> 409
  /\ rb_error_code (rs_body (errorResponse (production renv) e))
     <> Some "DUPLICATE_REQUEST"
  /\ (isValidIdempotencyKey (b_idempotency_key body) = true ->
      errorResponse (production renv) e
      = {| rs_status := 500;
           rs_body := errorBody (Some (message e)) "PAYMENT_FAILED"
                        (if production renv then None else Some (message e)) |})
  /\ (forall s, reachable s -> List.NoDup (map idempotency_key (payments s))).
Proof.
  intros Hw Hvalid Hnf Hpid Hkey e.
  pose proof (validateCreatePayment_valid _ _ _ _ _ Hvalid) as Hv.
  split; [|split; [|split; [|split]]].
  - destruct (createPayment (env renv) (b_order_id body) (o_user_id order)
                (o_total_price order) (b_payment_method body)
                (b_idempotency_key body) card w) as [r w'] eqn:E.
    pose proof (createPayment_effect _ _ _ _ _ _ _ _ _ _ Hw E) as [_ H].
    destruct r as [res|e'].
    + exfalso. destruct H as (_ & _ & _ & _ & _ & _ & _ & [_ Hf] & _). congruence.
    + destruct H as [[H _]|(_ & _ & _ & _ & Hc & [[cs Hcs]|[Hins|(_ & _ & _ & Hf)]])];
        [| | |congruence].
      * congruence.
      * rewrite Hnf in Hcs. discriminate.
      * unfold insert_payment in Hins. unfold has_payment_id in Hpid.
        unfold has_idempotency_key in Hkey.
        cbn [payment_id idempotency_key pendingRow] in Hins.
        rewrite Hpid, Hkey in Hins. injection Hins as <-.
        exists w'. split; [reflexivity|]. split; [exact Hc|].
        apply processPayment_threw. exact E.
  - apply errorResponse_shape.
  - apply errorResponse_shape.
  - intros Hk. unfold isValidIdempotencyKey in Hk.
    destruct (negb (truthy (b_idempotency_key body))
              || negb (typeof_string (b_idempotency_key body))); [discriminate|].
    destruct (b_idempotency_key body) as [| | | |k]; try discriminate.
    apply pieces_match_uuid_chars in Hk.
    destruct (dup_entry_unclassified k Hk) as (H1 & H2 & H3).
    subst e. cbn [ToString]. unfold errorResponse. rewrite H1, H2, H3.
    reflexivity.
  - intros s Hs. apply (reachable_unique_keys s Hs).
Qed.

(** C8: a failure of the ledger or of the lock store does not stop a
    payment.  When a read of the ledger fails the middleware lets the
    request through to the handler, or, for the last read, has already
    seen a conflict; when the write of the ledger fails after
    [createPayment] returned, the route still answers with the result of
    the payment and the payment stays committed; when the lock store
    cannot be reached the handler goes on as with a lock, without one. *)
Theorem ledger_and_lock_failures_are_absorbed renv body w :
  (forall e, fault (env renv) CS_checkKeySelect = Some e
             \/ fault (env renv) CS_validateSelect = Some e ->
     checkIdempotency (env renv) body w = (Next, w)
     /\ postPayments renv body w = paymentHandler renv body w)
  /\ (forall e, fault (env renv) CS_resultSelect = Some e ->
        (checkIdempotency (env renv) body w = (Next, w)
         /\ postPayments renv body w = paymentHandler renv body w)
        \/ checkIdempotency (env renv) body w = (Respond conflictResponse, w))
  /\ (forall e order card hasLock result w1,
        working w = None ->
        fault (env renv) CS_storeKeyInsert = Some e ->
        createPayment (env renv) (b_order_id body) (o_user_id order)
          (o_total_price order) (b_payment_method body) (b_idempotency_key body)
          card w = (Returned result, w1) ->
        fst (processPayment renv body order card hasLock w)
        = successResponse result
        /\ payments (committed (snd (processPayment renv body order card hasLock w)))
           = payments (committed w1)
        /\ In (finalRow (gatewayOutcome (env renv) card)
                 (pendingRow (env renv) (b_order_id body) (o_user_id order)
                    (o_total_price order) (b_payment_method body)
                    (b_idempotency_key body)))
              (payments (committed (snd (processPayment renv body order card
                                           hasLock w)))))
  /\ (forall e order card,
        checkOrderAndCard renv body = inr (order, card) ->
        fault (env renv) CS_redisSetLock = Some e ->
        paymentHandler renv body w = processPayment renv body order card false w
        /\ forall result w1,
             working w = None ->
             createPayment (env renv) (b_order_id body) (o_user_id order)
               (o_total_price order) (b_payment_method body)
               (b_idempotency_key body) card w = (Returned result, w1) ->
             fst (paymentHandler renv body w) = successResponse result).
Proof.
  assert (Hnext : checkIdempotency (env renv) body w = (Next, w) ->
                  postPayments renv body w = paymentHandler renv body w).
  { intros H. unfold postPayments. rewrite H. reflexivity. }
  assert (Hpair : forall r, fst (checkIdempotency (env renv) body w) = r ->
                            checkIdempotency (env renv) body w = (r, w)).
  { intros r <-. rewrite <- (checkIdempotency_world (env renv) body w) at 3.
    apply surjective_pairing. }
  split; [|split; [|split]].
  - intros e He.
    assert (H : checkIdempotency (env renv) body w = (Next, w)).
    { apply Hpair.
      destruct (checkIdempotency_cases (env renv) body w)
        as [H|[H|(rec & rest & _ & H1 & H2 & _)]].
      - exact H.
      - exfalso. revert H. unfold checkIdempotency.
        destruct (negb (truthy (b_idempotency_key body))); [discriminate|].
        unfold checkIdempotencyKey, validateRequestData, bind, call, throw, ret.
        destruct (invalid_key (b_idempotency_key body)); [discriminate|].
        destruct He as [He|He].
        + rewrite He. discriminate.
        + destruct (fault (env renv) CS_checkKeySelect);
            cbv beta iota; [discriminate|].
          destruct (negb (negb _)); cbv beta iota; [discriminate|].
          rewrite He. discriminate.
      - destruct He as [He|He]; congruence. }
    split; [exact H|exact (Hnext H)].
  - intros e He.
    destruct (checkIdempotency_cases (env renv) body w)
      as [H|[H|(rec & rest & _ & _ & _ & H3 & _)]].
    + left. split; [exact (Hpair _ H)|exact (Hnext (Hpair _ H))].
    + right. exact (Hpair _ H).
    + congruence.
  - intros e order card hasLock result w1 Hw Hf E.
    pose proof (processPayment_returned renv body order card hasLock w result w1
                  Hw E) as (Hr & _ & Hp & _).
    split; [exact Hr|]. split; [exact Hp|]. rewrite Hp.
    pose proof (createPayment_effect _ _ _ _ _ _ _ _ _ _ Hw E)
      as (_ & _ & _ & _ & _ & _ & _ & _ & _ & Hc & _).
    rewrite Hc. cbn [payments with_payments]. apply in_or_app. right. left.
    reflexivity.
  - intros e order card Hc Hf.
    pose proof (paymentHandler_lock_unreachable renv body order card w e Hc Hf) as H.
    split; [exact H|]. intros result w1 Hw E. rewrite H.
    apply (processPayment_returned renv body order card false w result w1 Hw E).
Qed.

(** C10: when the handler has taken the lock of the order and
    [createPayment] throws, the handler answers with the response of its
    [catch] block and leaves the lock where it is: the entry
    payment_lock:order_id stays in the lock store with its expiry of 30
    seconds, it is live until then and no longer after, and a request for
    the same order that reaches the lock before the expiry is answered
    with 429 PAYMENT_IN_PROGRESS. *)
Theorem lock_is_kept_when_payment_throws renv body order card w e w1 :
  working w = None ->
  checkOrderAndCard renv body = inr (order, card) ->
  fault (env renv) CS_redisSetLock = None ->
  redis_live (now (env renv)) (redis w) (lockKey (b_order_id body)) = false ->
  createPayment (env renv) (b_order_id body) (o_user_id order)
    (o_total_price order) (b_payment_method body) (b_idempotency_key body) card
    (set_redis (<[lockKey (b_order_id body)
                  := ("locked", now (env renv) + 30 * 1000)]> (redis w)) w)
  = (Threw e, w1) ->
  paymentHandler renv body w = (errorResponse (production renv) e, w1)
  /\ redis w1 !! lockKey (b_order_id body)
     = Some ("locked", now (env renv) + 30 * 1000)
  /\ (forall t, redis_live t (redis w1) (lockKey (b_order_id body)) = true
                <-> t < now (env renv) + 30 * 1000)
  /\ (forall renv2 body2 order2 card2,
        b_order_id body2 = b_order_id body ->
        checkOrderAndCard renv2 body2 = inr (order2, card2) ->
        fault (env renv2) CS_redisSetLock = None ->
        now (env renv2) < now (env renv) + 30 * 1000 ->
        paymentHandler renv2 body2 w1 = (paymentInProgress, w1)
        /\ (fst (checkIdempotency (env renv2) body2 w1) = Next ->
            postPayments renv2 body2 w1 = (paymentInProgress, w1))).
Proof.
  intros Hw Hc Hf Hfree E.
  assert (Hredis : redis w1 !! lockKey (b_order_id body)
                   = Some ("locked", now (env renv) + 30 * 1000)).
  { assert (Hwl : working
                      (set_redis (<[lockKey (b_order_id body)
                                    := ("locked", now (env renv) + 30 * 1000)]>
                                    (redis w)) w) = None) by exact Hw.
    pose proof (createPayment_effect _ _ _ _ _ _ _ _ _ _ Hwl E) as H.
    destruct H as [_ [[_ ->]|(_ & -> & _)]]; cbn [redis set_redis];
      apply lookup_insert_eq. }
  assert (Hlive : forall t, redis_live t (redis w1) (lockKey (b_order_id body)) = true
                            <-> t < now (env renv) + 30 * 1000).
  { intros t. unfold redis_live. rewrite Hredis. apply Z.ltb_lt. }
  split; [|split; [exact Hredis|split; [exact Hlive|]]].
  - rewrite (paymentHandler_locks renv body order card w Hc Hf Hfree).
    apply processPayment_threw. exact E.
  - intros renv2 body2 order2 card2 Hsame Hc2 Hf2 Ht.
    assert (H : paymentHandler renv2 body2 w1 = (paymentInProgress, w1)).
    { apply (paymentHandler_locked renv2 body2 order2 card2 w1 Hc2 Hf2).
      rewrite Hsame. apply Hlive. exact Ht. }
    split; [exact H|]. intros Hnext. unfold postPayments.
    pose proof (checkIdempotency_world (env renv2) body2 w1) as Hworld.
    destruct (checkIdempotency (env renv2) body2 w1) as [m w2].
    cbn [fst snd] in *. subst. exact H.
Qed.

End RouteTheorems.

(** ** The text that is fingerprinted *)

Lemma length_append (a b : string) :
  String.length (a ++ b) = (String.length a + String.length b)%nat.
Proof.
  induction a as [|c a IH]; [reflexivity|].
  rewrite append_cons. cbn [String.length]. rewrite IH. reflexivity.
Qed.

Lemma append_empty (s : string) : s ++ EmptyString = s.
Proof.
  induction s as [|c s IH]; [reflexivity|]. rewrite append_cons, IH. reflexivity.
Qed.

Lemma append_assoc (a b c : string) : (a ++ b) ++ c = a ++ (b ++ c).
Proof.
  induction a as [|x a IH]; [reflexivity|]. rewrite !append_cons, IH. reflexivity.
Qed.

Lemma string_forall_app (p : ascii -> bool) (a b : string) :
  string_forall p (a ++ b) = string_forall p a && string_forall p b.
Proof.
  induction a as [|c a IH]; [reflexivity|].
  rewrite append_cons. cbn [string_forall]. rewrite IH, andb_assoc. reflexivity.
Qed.











Section Fingerprint.
Context `{RT : JSRuntime}.




End Fingerprint.

(** ** Replay and conflict *)

Section Idempotency.
Context `{RT : JSRuntime}.









End Idempotency.

(** ** Worked examples *)

(** A card result that reports a failure never gives a failed payment.
    The result of a charge that was declined carries no transaction
    reference: [createPayment] ends in the TypeError of the driver and no
    row remains.  A result that reports a failure and carries a
    reference is completed all the same, without a failure reason. *)
Lemma failed_card_result_is_not_recorded_as_failed :
  cp_success declinedCharge = false
  /\ cp_error declinedCharge = Some "Invalid card number"
  /\ (exists w',
        @createPayment exampleRuntime exampleEnv (jsInt 42) (jsInt 7) exampleAmount
          (VString "credit_card") exampleKey (Some declinedCharge)
          (initialWorld emptyStore)
        = (Threw undefinedBindParameter, w')
        /\ payments (committed w') = [] /\ working w' = None)
  /\ cp_success failedCard = false
  /\ cp_error failedCard = Some "Invalid card number"
  /\ exists w',
       @createPayment exampleRuntime exampleEnv (jsInt 42) (jsInt 7) exampleAmount
         (VString "credit_card") exampleKey (Some failedCard)
         (initialWorld emptyStore)
       = (Returned {| r_paymentId := "PAY_1000_a1b2c3d4e5f60718";
                      r_status := Completed;
                      r_transactionId := Some "TXN-1000-ABCDEFGHI";
                      r_errorMessage := None |}, w')
       /\ map status (payments (committed w')) = [Completed]
       /\ map gateway_response (payments (committed w')) = [None].
Proof.
  split; [vm_compute; reflexivity|]. split; [vm_compute; reflexivity|].
  split.
  { eexists. split; [vm_compute; reflexivity|]. split; reflexivity. }
  split; [vm_compute; reflexivity|]. split; [vm_compute; reflexivity|].
  eexists. split; [vm_compute; reflexivity|]. split; vm_compute; reflexivity.
Qed.

Lemma createPayment_trusts_card_result_witness :
  cp_success declinedCharge = false
  /\ exists w',
       @createPayment exampleRuntime exampleEnv (jsInt 42) (jsInt 7) exampleAmount
         (VString "credit_card") exampleKey (Some declinedCharge)
         (initialWorld emptyStore)
       = (Threw undefinedBindParameter, w')
       /\ committed w' = emptyStore /\ working w' = None.
Proof.
  split; [vm_compute; reflexivity|].
  destruct (proj1 (proj2 (@createPayment_trusts_card_result exampleRuntime exampleEnv
                            (jsInt 42) (jsInt 7) exampleAmount (VString "credit_card")
                            exampleKey declinedCharge (initialWorld emptyStore)
                            eq_refl eq_refl (fun cs => eq_refl)
                            (conj eq_refl eq_refl)))
              ltac:(vm_compute; reflexivity))
    as (w' & E & Hc & Hw & _).
  exists w'. split; [exact E|]. split; [exact Hc|exact Hw].
Defined.





(** A payment row holds the key and the ledger has no record of it: the
    request ends in the driver's duplicate-entry error and is answered
    with 500 PAYMENT_FAILED. *)
Lemma duplicate_key_is_answered_with_500 :
  let w := initialWorld completedStore in
  let renv := exampleRoute laterEnv exampleAmount in
  let body := exampleBody 43 "card" in
  map idempotency_key (payments (committed w))
  = [@ToString exampleRuntime (b_idempotency_key body)]
  /\ (exists e w',
        @createPayment exampleRuntime laterEnv (jsInt 43) (jsInt 7) exampleAmount
          (VString "card") exampleKey None w = (Threw e, w')
        /\ code e = Some "ER_DUP_ENTRY")
  /\ rs_status (fst (@postPayments exampleRuntime renv body w)) = 500
  /\ rb_error_code (rs_body (fst (@postPayments exampleRuntime renv body w)))
     = Some "PAYMENT_FAILED"
  /\ rs_status (fst (@postPayments exampleRuntime renv body w)) <> 409.
Proof.
  cbv zeta. split; [vm_compute; reflexivity|]. split.
  { eexists _, _. split; [vm_compute; reflexivity|vm_compute; reflexivity]. }
  split; [vm_compute; reflexivity|]. split; [vm_compute; reflexivity|].
  intros H. vm_compute in H. discriminate H.
Qed.

Lemma refused_insert_is_a_generic_failure_witness :
  exists w',
    @createPayment exampleRuntime laterEnv (jsInt 43) (jsInt 7) exampleAmount
      (VString "card") exampleKey None (initialWorld completedStore)
    = (Threw (ER_DUP_ENTRY "11111111-1111-4111-8111-111111111111"
                "payments.idempotency_key"), w')
    /\ committed w' = completedStore
    /\ @processPayment exampleRuntime (exampleRoute laterEnv exampleAmount)
         (exampleBody 43 "card") (pendingOrder exampleAmount) None true
         (initialWorld completedStore)
       = (@errorResponse false
            (ER_DUP_ENTRY "11111111-1111-4111-8111-111111111111"
               "payments.idempotency_key"), w').
Proof.
  refine (proj1 (@refused_insert_is_a_generic_failure exampleRuntime
                   (exampleRoute laterEnv exampleAmount) (exampleBody 43 "card")
                   (pendingOrder exampleAmount) None true
                   (initialWorld completedStore) eq_refl eq_refl _ eq_refl eq_refl)).
  intros cs. reflexivity.
Defined.

Lemma ledger_and_lock_failures_are_absorbed_witness :
  let renv := exampleRoute outageEnv exampleAmount in
  let body := exampleBody 42 "card" in
  let w := initialWorld emptyStore in
  @postPayments exampleRuntime renv body w = @paymentHandler exampleRuntime renv body w
  /\ fst (@paymentHandler exampleRuntime renv body w)
     = successResponse
         {| r_paymentId := "PAY_1000_a1b2c3d4e5f60718"; r_status := Completed;
            r_transactionId := Some "TXN_1000_00112233445566778899aabb";
            r_errorMessage := None |}.
Proof.
  cbv zeta.
  pose proof (@ledger_and_lock_failures_are_absorbed exampleRuntime
                (exampleRoute outageEnv exampleAmount) (exampleBody 42 "card")
                (initialWorld emptyStore)) as (H1 & _ & _ & H4).
  split.
  - exact (proj2 (H1 (Error "connect ECONNREFUSED") (or_introl eq_refl))).
  - refine (proj2 (H4 (Error "connect ECONNREFUSED") (pendingOrder exampleAmount)
                      None eq_refl eq_refl) _ _ eq_refl _).
    vm_compute. reflexivity.
Defined.

Lemma lock_is_kept_when_payment_throws_witness :
  let renv := exampleRoute commitFailsEnv exampleAmount in
  let body := exampleBody 42 "card" in
  let first := @paymentHandler exampleRuntime renv body (initialWorld emptyStore) in
  fst first = @errorResponse false (Error "Connection lost")
  /\ redis (snd first) !! "payment_lock:42" = Some ("locked", 31000)
  /\ @paymentHandler exampleRuntime (exampleRoute laterEnv exampleAmount) body
       (snd first)
     = (paymentInProgress, snd first).
Proof.
  cbv zeta.
  assert (E : exists w1,
             @createPayment exampleRuntime commitFailsEnv (jsInt 42) (jsInt 7)
               exampleAmount (VString "card") exampleKey None
               (set_redis (<["payment_lock:42" := ("locked", 31000)]> ∅)
                  (initialWorld emptyStore))
             = (Threw (Error "Connection lost"), w1)).
  { eexists. vm_compute. reflexivity. }
  destruct E as [w1 E].
  destruct (@lock_is_kept_when_payment_throws exampleRuntime
              (exampleRoute commitFailsEnv exampleAmount) (exampleBody 42 "card")
              (pendingOrder exampleAmount) None (initialWorld emptyStore)
              (Error "Connection lost") w1 eq_refl eq_refl eq_refl eq_refl E)
    as (H1 & H2 & _ & H4).
  rewrite H1. cbn [fst snd]. split; [vm_compute; reflexivity|]. split; [exact H2|].
  exact (proj1 (H4 (exampleRoute laterEnv exampleAmount) (exampleBody 42 "card")
                  (pendingOrder exampleAmount) None eq_refl eq_refl eq_refl
                  eq_refl)).
Defined.

(** ** Regular expressions *)

Lemma matchFrom_empty fuel prev s k :
  matchFrom (S fuel) ReEmpty prev s k = k prev s.
Proof. reflexivity. Qed.

Lemma matchFrom_char fuel p prev s k :
  matchFrom (S fuel) (ReChar p) prev s k
  = match s with
    | String c s' => if p c then k (Some c) s' else None
    | EmptyString => None
    end.
Proof. reflexivity. Qed.

Lemma matchFrom_seq fuel r1 r2 prev s k :
  matchFrom (S fuel) (ReSeq r1 r2) prev s k
  = matchFrom (S fuel) r1 prev s (fun prev' s' => matchFrom (S fuel) r2 prev' s' k).
Proof. reflexivity. Qed.

Lemma matchFrom_alt fuel r1 r2 prev s k :
  matchFrom (S fuel) (ReAlt r1 r2) prev s k
  = orelse (matchFrom (S fuel) r1 prev s k) (matchFrom (S fuel) r2 prev s k).
Proof. reflexivity. Qed.

Lemma matchFrom_star fuel r1 prev s k :
  matchFrom (S fuel) (ReStar r1) prev s k
  = orelse
      (matchFrom (S fuel) r1 prev s
         (fun prev' s' =>
            if (String.length s' <? String.length s)%nat
            then matchFrom fuel (ReStar r1) prev' s' k
            else None))
      (k prev s).
Proof. reflexivity. Qed.

Lemma matchFrom_boundary fuel prev s k :
  matchFrom (S fuel) ReWordBoundary prev s k
  = if xorb (word_before prev) (word_at s) then k prev s else None.
Proof. reflexivity. Qed.

Lemma matchFrom_start fuel prev s k :
  matchFrom (S fuel) ReStart prev s k
  = match prev with None => k prev s | Some _ => None end.
Proof. reflexivity. Qed.

Lemma matchFrom_end fuel prev s k :
  matchFrom (S fuel) ReEnd prev s k
  = match s with EmptyString => k prev s | String _ _ => None end.
Proof. reflexivity. Qed.

(** The fuel that [matchAt] gives is enough: with more, the result is the
    same. *)
Lemma matchFrom_fuel (n : nat) :
  forall r prev s f1 f2 k1 k2,
    (String.length s <= n)%nat ->
    (String.length s < f1)%nat -> (String.length s < f2)%nat ->
    (forall prev' s', (String.length s' <= String.length s)%nat ->
                      k1 prev' s' = k2 prev' s') ->
    matchFrom f1 r prev s k1 = matchFrom f2 r prev s k2.
Proof.
  induction n as [n IHn] using lt_wf_ind.
  induction r as [|p|r1 IH1 r2 IH2|r1 IH1 r2 IH2|r1 IH1| | |];
    intros prev s f1 f2 k1 k2 Hn Hf1 Hf2 Hk;
    (destruct f1 as [|f1]; [lia|]); (destruct f2 as [|f2]; [lia|]).
  - rewrite !matchFrom_empty. apply Hk. lia.
  - rewrite !matchFrom_char. destruct s as [|c s']; [reflexivity|].
    destruct (p c); [|reflexivity]. apply Hk. cbn [String.length]. lia.
  - rewrite !matchFrom_seq. apply IH1; try assumption.
    intros prev' s' Hs'. apply IH2; try lia.
    intros prev'' s'' Hs''. apply Hk. lia.
  - rewrite !matchFrom_alt.
    rewrite (IH1 prev s (S f1) (S f2) k1 k2), (IH2 prev s (S f1) (S f2) k1 k2);
      auto.
  - rewrite !matchFrom_star.
    rewrite (Hk prev s) by lia. f_equal.
    apply IH1; try assumption.
    intros prev' s' Hs'.
    destruct (String.length s' <? String.length s)%nat eqn:E; [|reflexivity].
    apply Nat.ltb_lt in E.
    apply (IHn (String.length s')); try lia.
    intros prev'' s'' Hs''. apply Hk. lia.
  - rewrite !matchFrom_boundary. rewrite (Hk prev s) by lia. reflexivity.
  - rewrite !matchFrom_start. rewrite (Hk prev s) by lia. reflexivity.
  - rewrite !matchFrom_end. rewrite (Hk prev s) by lia. reflexivity.
Qed.

Lemma matchAt_fuel r prev s fuel :
  (String.length s < fuel)%nat ->
  matchFrom fuel r prev s (fun _ rest => Some rest) = matchAt r prev s.
Proof.
  intros H. unfold matchAt.
  apply (matchFrom_fuel (String.length s)); auto.
Qed.

Lemma searchFrom_found r prev a b rest :
  matchAt r (last_char prev a) b = Some rest ->
  searchFrom r prev (a ++ b) = true.
Proof.
  revert prev. induction a as [|c a IH]; intros prev H.
  - cbn [last_char] in H. rewrite append_nil.
    destruct b; cbn [searchFrom]; rewrite H; reflexivity.
  - rewrite append_cons. cbn [searchFrom].
    destruct (matchAt r prev (String c (a ++ b))); [reflexivity|].
    apply IH. exact H.
Qed.

Lemma searchFrom_none r prev a b :
  (forall x y, a = x ++ y -> matchAt r (last_char prev x) (y ++ b) = None) ->
  searchFrom r prev (a ++ b) = searchFrom r (last_char prev a) b.
Proof.
  revert prev. induction a as [|c a IH]; intros prev H.
  - rewrite append_nil. reflexivity.
  - rewrite append_cons. cbn [searchFrom last_char].
    pose proof (H EmptyString (String c a) eq_refl) as H0.
    cbn [last_char] in H0. rewrite append_cons in H0. rewrite H0.
    apply IH. intros x y ->. apply (H (String c x) y). reflexivity.
Qed.

(** ** Card numbers *)

Lemma matchAt_char p prev s :
  matchAt (ReChar p) prev s
  = match s with
    | String c s' => if p c then Some s' else None
    | EmptyString => None
    end.
Proof. reflexivity. Qed.

Lemma replaceFrom_char p prev s :
  replaceFrom (ReChar p) EmptyString prev O s = string_filter (fun c => negb (p c)) s.
Proof.
  revert prev. induction s as [|c s IH]; intros prev; [reflexivity|].
  cbn [replaceFrom string_filter]. rewrite matchAt_char.
  destruct (p c); cbn [negb].
  - cbn [String.length]. rewrite Nat.sub_succ_l, Nat.sub_diag by lia.
    rewrite append_nil. apply IH.
  - f_equal. apply IH.
Qed.

Lemma string_filter_ext (p q : ascii -> bool) (s : string) :
  (forall c, p c = q c) -> string_filter p s = string_filter q s.
Proof.
  intros H. induction s as [|c s IH]; [reflexivity|].
  cbn [string_filter]. rewrite H, IH. reflexivity.
Qed.

Lemma string_filter_app (p : ascii -> bool) (a b : string) :
  string_filter p (a ++ b) = string_filter p a ++ string_filter p b.
Proof.
  induction a as [|c a IH]; [reflexivity|].
  rewrite append_cons. cbn [string_filter].
  destruct (p c); [rewrite append_cons|]; rewrite IH; reflexivity.
Qed.

(** Stripping what is not a digit keeps the digits. *)
Lemma digits_of (s : string) :
  replaceAll (ReChar (fun c => negb (is_digit c))) EmptyString s
  = string_filter is_digit s.
Proof.
  unfold replaceAll. rewrite replaceFrom_char.
  apply string_filter_ext. intros c. apply negb_involutive.
Qed.

Lemma list_ascii_app (a b : string) :
  list_ascii_of_string (a ++ b)
  = (list_ascii_of_string a ++ list_ascii_of_string b)%list.
Proof.
  induction a as [|c a IH]; [reflexivity|].
  rewrite append_cons. cbn [list_ascii_of_string]. rewrite IH. reflexivity.
Qed.

Lemma string_rev_app (a b : string) :
  string_rev (a ++ b) = string_rev b ++ string_rev a.
Proof.
  induction a as [|c a IH].
  - rewrite append_nil. cbn [string_rev]. rewrite append_empty. reflexivity.
  - rewrite append_cons. cbn [string_rev]. rewrite IH, append_assoc. reflexivity.
Qed.

Lemma luhn_fold_shift (l : list ascii) (sum : Z) (isEven : bool) :
  fold_left luhn_step l (sum, isEven)
  = (sum + fst (fold_left luhn_step l (0, isEven)),
     snd (fold_left luhn_step l (0, isEven))).
Proof.
  revert sum isEven. induction l as [|c l IH]; intros sum isEven.
  - cbn [fold_left fst snd]. f_equal. lia.
  - cbn [fold_left luhn_step].
    rewrite (IH (sum + _)), (IH (0 + _)). cbn [fst snd]. f_equal. lia.
Qed.

Lemma luhn_sum_split (a b : string) (c : ascii) :
  exists rest isEven,
    forall d, luhn_sum (a ++ String d b) = rest + luhn_digit isEven d.
Proof.
  unfold luhn_sum.
  destruct (fold_left luhn_step (list_ascii_of_string (string_rev b)) (0, false))
    as [s0 e0] eqn:E0.
  exists (s0 + fst (fold_left luhn_step (list_ascii_of_string (string_rev a))
                      (0, negb e0))), e0.
  intros d. rewrite string_rev_app. cbn [string_rev].
  rewrite !list_ascii_app, !fold_left_app, E0.
  cbn [list_ascii_of_string fold_left].
  unfold luhn_digit.
  cbn [luhn_step]. rewrite luhn_fold_shift. cbn [fst]. lia.
Qed.

Lemma is_digit_value (c : ascii) :
  is_digit c = true -> 0 <= digit_value c <= 9.
Proof.
  unfold is_digit, char_between, digit_value. intros H.
  apply andb_true_iff in H as [H1 H2].
  apply Nat.leb_le in H1, H2. lia.
Qed.

Lemma digit_value_inj (c d : ascii) : digit_value c = digit_value d -> c = d.
Proof.
  unfold digit_value, char_code. intros H.
  rewrite <- (ascii_nat_embedding c), <- (ascii_nat_embedding d).
  f_equal. lia.
Qed.

Lemma luhn_digit_differs (isEven : bool) (c d : ascii) :
  is_digit c = true -> is_digit d = true -> c <> d ->
  luhn_digit isEven c <> luhn_digit isEven d
  /\ -9 <= luhn_digit isEven c - luhn_digit isEven d <= 9.
Proof.
  intros Hc Hd Hne.
  pose proof (is_digit_value c Hc). pose proof (is_digit_value d Hd).
  assert (digit_value c <> digit_value d)
    by (intros E; apply Hne, digit_value_inj, E).
  unfold luhn_digit, luhn_step. cbn [fst].
  destruct isEven.
  - destruct (9 <? digit_value c * 2) eqn:E1, (9 <? digit_value d * 2) eqn:E2;
      rewrite ?Z.ltb_lt, ?Z.ltb_ge in *; lia.
  - lia.
Qed.

Lemma on_string_nonempty (c : ascii) (s : string) (f : string -> bool) :
  on_string (VString (String c s)) f = f (String c s).
Proof. reflexivity. Qed.

Lemma on_string_middle (a b : string) (c : ascii) (f : string -> bool) :
  on_string (VString (a ++ String c b)) f = f (a ++ String c b).
Proof. destruct a; reflexivity. Qed.

(** The Luhn check of [isValidCardNumber] notices every single wrong
    digit: of two card numbers that differ in one digit, at most one is
    accepted. *)
Theorem card_number_with_one_wrong_digit (a b : string) (c d : ascii) :
  is_digit c = true -> is_digit d = true -> c <> d ->
  isValidCardNumber (VString (a ++ String c b)) = true ->
  isValidCardNumber (VString (a ++ String d b)) = false.
Proof.
  intros Hc Hd Hne. unfold isValidCardNumber. rewrite !on_string_middle.
  rewrite !digits_of, !string_filter_app. cbn [string_filter]. rewrite Hc, Hd.
  rewrite !length_append. cbn [String.length].
  destruct ((_ <? 13)%nat || _); [discriminate|].
  destruct (luhn_sum_split (string_filter is_digit a) (string_filter is_digit b) c)
    as (rest & isEven & Hsum).
  rewrite !Hsum. intros H. apply Z.eqb_eq in H. apply Z.eqb_neq. intros H'.
  destruct (luhn_digit_differs isEven c d Hc Hd Hne) as [Hdiff Hrange].
  apply Z.rem_divide in H, H'; try lia.
  destruct H as [k Hk], H' as [k' Hk']. lia.
Qed.

(** [isValidCardNumber] reads the digits only: a character that is not a
    digit, a space or a dash between the groups for one, makes no
    difference wherever it stands. *)
Theorem card_number_separators_are_ignored (a b : string) (c : ascii) :
  is_digit c = false ->
  isValidCardNumber (VString (a ++ String c b)) = isValidCardNumber (VString (a ++ b)).
Proof.
  intros Hc. unfold isValidCardNumber. rewrite on_string_middle.
  rewrite digits_of, string_filter_app. cbn [string_filter]. rewrite Hc.
  rewrite <- string_filter_app.
  destruct (a ++ b) as [|y t] eqn:E; [reflexivity|].
  rewrite on_string_nonempty, digits_of. reflexivity.
Qed.

(** ** Expiry dates *)

Lemma expiry_reads_all :
  forallb (fun m => forallb (expiry_reads m) (seq 0 100)) (seq 1 12) = true.
Proof. vm_compute. reflexivity. Qed.

Lemma expiry_reads_ok (month year : nat) :
  (1 <= month <= 12)%nat -> (year < 100)%nat -> expiry_reads month year = true.
Proof.
  intros Hm Hy. pose proof expiry_reads_all as H.
  rewrite forallb_forall in H.
  specialize (H month). rewrite forallb_forall in H.
  apply H; apply in_seq; lia.
Qed.

(** A card is accepted up to the end of the month it expires in, and the
    year is compared within the century: [isValidExpiry] accepts MM/YY
    exactly when YY is after the last two digits of the current year, or
    is the same and MM is not before the current month. *)
Theorem expiry_is_compared_by_year_and_month (clock : Clock) (month year : nat) :
  (1 <= month <= 12)%nat -> (year < 100)%nat ->
  let currentYear := Z.rem (fullYear clock) 100 in
  let currentMonth := monthIndex clock + 1 in
  isValidExpiry clock (VString (expiryText month year))
  = (currentYear <? Z.of_nat year)
    || ((currentYear =? Z.of_nat year) && (currentMonth <=? Z.of_nat month)).
Proof.
  intros Hm Hy currentYear currentMonth.
  pose proof (expiry_reads_ok month year Hm Hy) as H.
  unfold expiry_reads in H. apply andb_true_iff in H as [Ht Hp].
  unfold isValidExpiry. unfold expiryText at 1. rewrite on_string_nonempty.
  fold (expiryText month year). rewrite Ht. cbn [negb].
  destruct (parseInt (nth 0 (split "/" (expiryText month year)) EmptyString))
    as [m|]; [|discriminate].
  destruct (parseInt (nth 1 (split "/" (expiryText month year)) EmptyString))
    as [y|]; [|discriminate].
  apply andb_true_iff in Hp as [Em Ey]. apply Z.eqb_eq in Em, Ey. subst m y.
  fold currentYear currentMonth. cbn [nan_lt nan_eq].
  destruct (Z.of_nat year <? currentYear) eqn:E1,
           (Z.of_nat year =? currentYear) eqn:E2,
           (Z.of_nat month <? currentMonth) eqn:E3,
           (currentYear <? Z.of_nat year) eqn:E4,
           (currentYear =? Z.of_nat year) eqn:E5,
           (currentMonth <=? Z.of_nat month) eqn:E6;
    rewrite ?Z.ltb_lt, ?Z.ltb_ge, ?Z.eqb_eq, ?Z.eqb_neq, ?Z.leb_le, ?Z.leb_gt in *;
    cbn [orb andb]; try reflexivity; lia.
Qed.

(** In November 2026 a card that expires 11/26 is still accepted. *)
Lemma expiry_is_compared_by_year_and_month_witness :
  isValidExpiry {| fullYear := 2026; monthIndex := 10 |} (VString "11/26") = true.
Proof.
  exact (expiry_is_compared_by_year_and_month {| fullYear := 2026; monthIndex := 10 |}
           11 26 ltac:(lia) ltac:(lia)).
Defined.

Lemma card_number_with_one_wrong_digit_witness :
  isValidCardNumber (VString "4111111111111111") = true
  /\ isValidCardNumber (VString "4111111111111121") = false.
Proof.
  split; [vm_compute; reflexivity|].
  apply (card_number_with_one_wrong_digit "41111111111111" "1" "1" "2").
  - reflexivity.
  - reflexivity.
  - discriminate.
  - vm_compute. reflexivity.
Defined.

Lemma card_number_separators_are_ignored_witness :
  isValidCardNumber (VString "4111-1111-1111-1111")
  = isValidCardNumber (VString "41111111-1111-1111").
Proof.
  apply (card_number_separators_are_ignored "4111" "1111-1111-1111" "-").
  reflexivity.
Defined.

(** ** Sanitising *)

Lemma string_forall_filter (p : ascii -> bool) (s : string) :
  string_forall p (string_filter p s) = true.
Proof.
  induction s as [|c s IH]; [reflexivity|]. cbn [string_filter].
  destruct (p c) eqn:E; [cbn [string_forall]; rewrite E|]; exact IH.
Qed.

Lemma string_filter_all (p : ascii -> bool) (s : string) :
  string_forall p s = true -> string_filter p s = s.
Proof.
  induction s as [|c s IH]; [reflexivity|]. cbn [string_forall string_filter].
  intros H. apply andb_true_iff in H as [Hc Hs]. rewrite Hc, IH; auto.
Qed.

Lemma string_forall_trimStart (p : ascii -> bool) (s : string) :
  string_forall p s = true -> string_forall p (trimStart s) = true.
Proof.
  induction s as [|c s IH]; [reflexivity|]. cbn [trimStart].
  intros H. destruct (is_space c); [|exact H].
  cbn [string_forall] in H. apply andb_true_iff in H as [_ H]. auto.
Qed.

Lemma string_forall_trimEnd (p : ascii -> bool) (s : string) :
  string_forall p s = true -> string_forall p (trimEnd s) = true.
Proof.
  induction s as [|c s IH]; [reflexivity|]. cbn [trimEnd string_forall].
  intros H. apply andb_true_iff in H as [Hc Hs]. specialize (IH Hs).
  destruct (trimEnd s) as [|d t].
  - destruct (is_space c); [reflexivity|]. cbn [string_forall]. rewrite Hc. reflexivity.
  - cbn [string_forall] in *. rewrite Hc. exact IH.
Qed.

Lemma trimStart_fixed (s : string) :
  (forall c, first_char s = Some c -> is_space c = false) -> trimStart s = s.
Proof.
  destruct s as [|c s]; [reflexivity|]. intros H. cbn [trimStart].
  rewrite (H c) by reflexivity. reflexivity.
Qed.

Lemma trimStart_first (s : string) (c : ascii) :
  first_char (trimStart s) = Some c -> is_space c = false.
Proof.
  induction s as [|d s IH]; [discriminate|]. cbn [trimStart].
  destruct (is_space d) eqn:E; [exact IH|]. intros [= <-]. exact E.
Qed.

Lemma trimEnd_first (s : string) :
  (forall c, first_char s = Some c -> is_space c = false) ->
  first_char (trimEnd s) = first_char s.
Proof.
  destruct s as [|c s]; [reflexivity|]. intros H. cbn [trimEnd].
  destruct (trimEnd s); [|reflexivity]. rewrite (H c) by reflexivity. reflexivity.
Qed.

Lemma trimEnd_cons (c : ascii) (r : string) :
  trimEnd (String c r)
  = match trimEnd r with
    | EmptyString => if is_space c then EmptyString else String c EmptyString
    | t => String c t
    end.
Proof. reflexivity. Qed.

Lemma trimEnd_idem (s : string) : trimEnd (trimEnd s) = trimEnd s.
Proof.
  induction s as [|c s IH]; [reflexivity|]. rewrite trimEnd_cons.
  destruct (trimEnd s) as [|d t] eqn:E.
  - destruct (is_space c) eqn:Ec; [reflexivity|].
    rewrite trimEnd_cons. cbn [trimEnd]. rewrite Ec. reflexivity.
  - rewrite trimEnd_cons, IH. reflexivity.
Qed.

Lemma first_char_rev_snoc (s : string) (c : ascii) :
  first_char (string_rev s ++ String c EmptyString)
  = match first_char (string_rev s) with
    | Some d => Some d
    | None => Some c
    end.
Proof. destruct (string_rev s); reflexivity. Qed.

Lemma trimEnd_last (s : string) (c : ascii) :
  first_char (string_rev (trimEnd s)) = Some c -> is_space c = false.
Proof.
  induction s as [|d s IH]; [discriminate|]. rewrite trimEnd_cons.
  destruct (trimEnd s) as [|e t] eqn:E.
  - destruct (is_space d) eqn:Ed; [discriminate|]. intros [= <-]. exact Ed.
  - change (string_rev (String d (String e t)))
      with (string_rev (String e t) ++ String d EmptyString).
    rewrite first_char_rev_snoc.
    destruct (first_char (string_rev (String e t))) as [x|] eqn:Ex.
    + intros [= <-]. apply IH. reflexivity.
    + cbn [string_rev] in Ex. destruct (string_rev t); discriminate.
Qed.

Lemma trim_trimmed (s : string) : trimmed (trim s).
Proof.
  unfold trim. split.
  - intros c. rewrite trimEnd_first by apply trimStart_first. apply trimStart_first.
  - apply trimEnd_last.
Qed.

Lemma trim_idem (s : string) : trim (trim s) = trim s.
Proof.
  unfold trim at 1. rewrite trimStart_fixed by apply trim_trimmed.
  unfold trim. apply trimEnd_idem.
Qed.

Lemma tagPattern_no_angle (prev : option ascii) (s : string) :
  string_forall (fun c => negb (unsafe_char c)) s = true ->
  replaceFrom tagPattern EmptyString prev O s = s.
Proof.
  revert prev. induction s as [|c s IH]; intros prev H; [reflexivity|].
  cbn [string_forall] in H. apply andb_true_iff in H as [Hc Hs].
  cbn [replaceFrom]. unfold matchAt, tagPattern, ReAll, ReCode.
  rewrite matchFrom_seq, matchFrom_char.
  assert (E : char_is 60 c = false).
  { unfold unsafe_char in Hc. apply negb_true_iff in Hc.
    rewrite !orb_false_iff in Hc. tauto. }
  rewrite E, IH by exact Hs. reflexivity.
Qed.

Lemma unsafeCharPattern_filter (s : string) :
  replaceAll unsafeCharPattern EmptyString s
  = string_filter (fun c => negb (unsafe_char c)) s.
Proof. unfold replaceAll, unsafeCharPattern. apply replaceFrom_char. Qed.

(** What [sanitizeInput] gives for a string holds no angle bracket and
    no quote and neither starts nor ends with white space, and sanitising
    it again changes nothing. *)
Theorem sanitizeInput_is_clean_and_settled (input : JSValue) :
  sanitizeInput (sanitizeInput input) = sanitizeInput input
  /\ forall s,
       exists t, sanitizeInput (VString s) = VString t
                 /\ string_forall (fun c => negb (unsafe_char c)) t = true
                 /\ trimmed t.
Proof.
  assert (Hclean : forall s,
            string_forall (fun c => negb (unsafe_char c))
              (trim (replaceAll unsafeCharPattern EmptyString
                       (replaceAll tagPattern EmptyString s))) = true).
  { intros s. unfold trim.
    apply string_forall_trimEnd, string_forall_trimStart.
    rewrite unsafeCharPattern_filter. apply string_forall_filter. }
  split.
  - destruct input as [| |b|n|s];
      try (unfold sanitizeInput; cbn [typeof_string negb];
           rewrite !orb_true_r; reflexivity).
    destruct s as [|c s]; [reflexivity|].
    pose (t := trim (replaceAll unsafeCharPattern EmptyString
                       (replaceAll tagPattern EmptyString (String c s)))).
    assert (E : sanitizeInput (VString (String c s)) = VString t) by reflexivity.
    assert (Ht : trim t = t) by (unfold t; apply trim_idem).
    specialize (Hclean (String c s)). fold t in Hclean.
    rewrite E. clearbody t. clear E.
    destruct t as [|d t']; [reflexivity|].
    unfold sanitizeInput. cbn [truthy typeof_string negb orb].
    unfold replaceAll at 2. rewrite tagPattern_no_angle by exact Hclean.
    rewrite unsafeCharPattern_filter, string_filter_all by exact Hclean.
    rewrite Ht. reflexivity.
  - intros s. destruct s as [|c s].
    + exists EmptyString. split; [reflexivity|]. split; [reflexivity|].
      split; discriminate.
    + eexists. split; [reflexivity|]. split; [apply Hclean|apply trim_trimmed].
Qed.

(** ** The patterns of SQL *)

Lemma searchFrom_matched r prev a b :
  matchAt r (last_char prev a) b <> None -> searchFrom r prev (a ++ b) = true.
Proof.
  intros H. destruct (matchAt r (last_char prev a) b) as [rest|] eqn:E; [|congruence].
  exact (searchFrom_found r prev a b rest E).
Qed.

Lemma orelse_left {A : Type} (a b : option A) : a <> None -> orelse a b <> None.
Proof. destruct a; [discriminate|congruence]. Qed.

Lemma orelse_right {A : Type} (a b : option A) : b <> None -> orelse a b <> None.
Proof. destruct a; [discriminate|auto]. Qed.

Lemma matchFrom_any fuel (l : list RegExp) (r : RegExp) prev s k :
  In r l -> matchFrom (S fuel) r prev s k <> None ->
  matchFrom (S fuel) (ReAny l) prev s k <> None.
Proof.
  induction l as [|r0 l IH]; [intros []|]. intros Hin H.
  destruct l as [|r1 l].
  - destruct Hin as [<-|[]]. exact H.
  - change (ReAny (r0 :: r1 :: l)) with (ReAlt r0 (ReAny (r1 :: l))).
    rewrite matchFrom_alt. destruct Hin as [<-|Hin].
    + apply orelse_left. exact H.
    + apply orelse_right. apply IH; assumption.
Qed.

Lemma existsb_nth {A : Type} (f : A -> bool) (l : list A) (n : nat) (d : A) :
  (n < length l)%nat -> f (nth n l d) = true -> existsb f l = true.
Proof.
  intros Hn H. apply existsb_exists. exists (nth n l d).
  split; [apply nth_In; exact Hn|exact H].
Qed.

Lemma detect_by_pattern (n : nat) (a b : string) (c : ascii) :
  (n < length sqlPatterns)%nat ->
  matchAt (nth n sqlPatterns ReEmpty) (last_char None a) (String c b) <> None ->
  detectSQLInjection (VString (a ++ String c b)) = true.
Proof.
  intros Hn H. unfold detectSQLInjection. rewrite on_string_middle.
  apply (existsb_nth _ _ n ReEmpty Hn). unfold test.
  apply searchFrom_matched. exact H.
Qed.

(** [detectSQLInjection] flags every text that holds a quote, a
    semicolon, two dashes in a row or an end of a block comment, wherever
    it stands: the name O'Brien is flagged as well. *)
Theorem sql_marks_are_flagged (a b m : string) :
  In m sqlMarks -> detectSQLInjection (VString (a ++ m ++ b)) = true.
Proof.
  intros Hm. cbn [sqlMarks In] in Hm.
  destruct Hm as [<-|[<-|[<-|[<-|[<-|[]]]]]]; rewrite ?append_cons, ?append_nil.
  - apply (detect_by_pattern 2); [cbn; lia|]. discriminate.
  - apply (detect_by_pattern 1); [cbn; lia|]. discriminate.
  - apply (detect_by_pattern 1); [cbn; lia|]. discriminate.
  - apply (detect_by_pattern 1); [cbn; lia|]. discriminate.
  - apply (detect_by_pattern 1); [cbn; lia|]. discriminate.
Qed.

Lemma sql_marks_are_flagged_witness :
  detectSQLInjection (VString "O'Brien") = true.
Proof.
  apply (sql_marks_are_flagged "O" "Brien" "'"). left. reflexivity.
Defined.

Lemma char_code_of_nat (n : nat) : (n < 256)%nat -> char_code (ascii_of_nat n) = n.
Proof. intros H. unfold char_code. apply nat_ascii_embedding. exact H. Qed.

Lemma char_code_bound (c : ascii) : (char_code c < 256)%nat.
Proof. unfold char_code. apply nat_ascii_bounded. Qed.

Lemma upper_ascii_code (c : ascii) :
  char_code (upper_ascii c)
  = if char_between 97 122 c then (char_code c - 32)%nat else char_code c.
Proof.
  unfold upper_ascii. destruct (char_between 97 122 c) eqn:E; [|reflexivity].
  apply char_code_of_nat. pose proof (char_code_bound c). lia.
Qed.

Lemma char_between_spec (lo hi : nat) (c : ascii) :
  char_between lo hi c = true <-> (lo <= char_code c <= hi)%nat.
Proof.
  unfold char_between. rewrite andb_true_iff, !Nat.leb_le. tauto.
Qed.

Lemma char_between_false (lo hi : nat) (c : ascii) :
  char_between lo hi c = false <-> (char_code c < lo \/ hi < char_code c)%nat.
Proof.
  unfold char_between. rewrite andb_false_iff, !Nat.leb_gt. tauto.
Qed.

Lemma is_letter_upper (c : ascii) :
  is_letter c = true <-> (65 <= char_code (upper_ascii c) <= 90)%nat.
Proof.
  rewrite upper_ascii_code. unfold is_letter. rewrite orb_true_iff.
  rewrite !char_between_spec.
  destruct (char_between 97 122 c) eqn:E.
  - apply char_between_spec in E. lia.
  - apply char_between_false in E. lia.
Qed.

Lemma same_letter_is_letter (x c : ascii) :
  same_letter x c = true -> is_letter x = true -> is_letter c = true.
Proof.
  unfold same_letter. intros H Hx. apply andb_true_iff in H as [_ H].
  apply Ascii.eqb_eq in H. apply is_letter_upper. rewrite <- H.
  apply is_letter_upper. exact Hx.
Qed.

Lemma is_letter_word (c : ascii) : is_letter c = true -> is_word c = true.
Proof. unfold is_word. intros ->. reflexivity. Qed.

Lemma same_text_letters (x y : string) :
  same_text x y = true -> string_forall is_letter x = true ->
  string_forall is_letter y = true.
Proof.
  revert y. induction x as [|c x IH]; intros [|d y]; try discriminate; [reflexivity|].
  cbn [same_text string_forall]. intros H Hx.
  apply andb_true_iff in H as [Hc H]. apply andb_true_iff in Hx as [Hcx Hx].
  rewrite (same_letter_is_letter c d Hc Hcx). apply IH; assumption.
Qed.

Lemma matchFrom_litI fuel (x y b : string) prev k :
  x <> EmptyString -> same_text x y = true ->
  matchFrom (S fuel) (ReLitI x) prev (y ++ b) k = k (last_char prev y) b.
Proof.
  revert y prev. induction x as [|c x IH]; intros y prev Hne H; [congruence|].
  destruct y as [|d y]; [discriminate|].
  cbn [same_text] in H. apply andb_true_iff in H as [Hc H].
  rewrite append_cons. cbn [last_char].
  destruct x as [|c' x].
  - destruct y; [|discriminate]. rewrite append_nil.
    cbn [ReLitI]. rewrite matchFrom_char, Hc. reflexivity.
  - change (ReLitI (String c (String c' x)))
      with (ReSeq (ReChar (same_letter c)) (ReLitI (String c' x))).
    rewrite matchFrom_seq, matchFrom_char, Hc.
    apply IH; [discriminate|exact H].
Qed.

Lemma last_char_letter (y : string) (prev : option ascii) :
  y <> EmptyString -> string_forall is_letter y = true ->
  word_before (last_char prev y) = true.
Proof.
  revert prev. induction y as [|d y IH]; intros prev Hne H; [congruence|].
  cbn [string_forall] in H. apply andb_true_iff in H as [Hd H].
  cbn [last_char]. destruct y as [|e y].
  - cbn [last_char word_before]. apply is_letter_word, Hd.
  - apply IH; [discriminate|exact H].
Qed.

Lemma sqlKeywords_letters (kw : string) :
  In kw sqlKeywords -> kw <> EmptyString /\ string_forall is_letter kw = true.
Proof.
  intros H. cbn [sqlKeywords In] in H.
  repeat (destruct H as [<-|H]; [split; [discriminate|reflexivity]|]).
  destruct H.
Qed.

(** [detectSQLInjection] flags every text in which one of the eleven
    keywords stands as a word of its own, in whatever case it is written:
    a reason such as "Please delete my order" is flagged. *)
Theorem sql_keywords_are_flagged (a b kw w : string) :
  In kw sqlKeywords ->
  same_text kw w = true ->
  word_before (last_char None a) = false ->
  word_at b = false ->
  detectSQLInjection (VString (a ++ w ++ b)) = true.
Proof.
  intros Hkw Hw Ha Hb.
  destruct (sqlKeywords_letters kw Hkw) as [Hne Hl].
  pose proof (same_text_letters kw w Hw Hl) as Hwl.
  destruct w as [|d w]; [destruct kw; [congruence|discriminate]|].
  rewrite append_cons. apply (detect_by_pattern 0); [cbn; lia|].
  rewrite <- append_cons.
  change (nth 0 sqlPatterns ReEmpty)
    with (ReSeq ReWordBoundary (ReSeq (ReAny (map ReLitI sqlKeywords)) ReWordBoundary)).
  unfold matchAt. rewrite matchFrom_seq, matchFrom_boundary, Ha.
  assert (Hd : word_at (String d w ++ b) = true).
  { rewrite append_cons. cbn [word_at string_forall] in *.
    apply andb_true_iff in Hwl as [Hd _]. apply is_letter_word, Hd. }
  rewrite Hd. cbn [xorb]. rewrite matchFrom_seq.
  apply (matchFrom_any _ _ (ReLitI kw)); [apply in_map; exact Hkw|].
  rewrite matchFrom_litI by assumption.
  rewrite matchFrom_boundary, Hb, last_char_letter by (auto; discriminate).
  discriminate.
Qed.

Lemma sql_keywords_are_flagged_witness :
  detectSQLInjection (VString "Please delete my order") = true.
Proof.
  apply (sql_keywords_are_flagged "Please " " my order" "DELETE" "delete").
  - right. right. right. left. reflexivity.
  - reflexivity.
  - reflexivity.
  - reflexivity.
Defined.

Lemma is_word_not_mark (d : ascii) :
  is_word d = true ->
  char_is 39 d = false /\ char_is 92 d = false /\ char_is 34 d = false
  /\ Ascii.eqb "-" d = false /\ Ascii.eqb ";" d = false /\ Ascii.eqb "/" d = false
  /\ Ascii.eqb "*" d = false /\ Ascii.eqb "=" d = false.
Proof.
  destruct d as [[] [] [] [] [] [] [] []]; intros H;
    try discriminate H; repeat split; reflexivity.
Qed.

(** Inside a run of word characters none of the patterns starts. *)
Lemma sqlPatterns_inside_word (n : nat) (c : ascii) (s : string) :
  (n < length sqlPatterns)%nat ->
  is_word c = true -> string_forall is_word s = true ->
  matchAt (nth n sqlPatterns ReEmpty) (Some c) s = None.
Proof.
  intros Hn Hc Hs.
  assert (Hb : forall fuel r k,
            matchFrom (S fuel) (ReSeq ReWordBoundary r) (Some c) s k
            = match s with
              | EmptyString => matchFrom (S fuel) r (Some c) EmptyString k
              | String _ _ => None
              end).
  { intros fuel r k. rewrite matchFrom_seq, matchFrom_boundary.
    cbn [word_before]. rewrite Hc. destruct s as [|d s']; [reflexivity|].
    cbn [string_forall word_at] in *. apply andb_true_iff in Hs as [-> _].
    reflexivity. }
  destruct n as [|[|[|[|[|[|[|n]]]]]]]; unfold matchAt.
  - change (nth 0 sqlPatterns ReEmpty)
      with (ReSeq ReWordBoundary
              (ReSeq (ReAny (map ReLitI sqlKeywords)) ReWordBoundary)).
    rewrite Hb. destruct s; reflexivity.
  - change (nth 1 sqlPatterns ReEmpty)
      with (ReAlt (ReLit "--") (ReAlt (ReLit ";") (ReAlt (ReLit "/*") (ReLit "*/")))).
    destruct s as [|d s']; [reflexivity|].
    cbn [string_forall] in Hs. apply andb_true_iff in Hs as [Hd _].
    destruct (is_word_not_mark d Hd) as (_ & _ & _ & E1 & E2 & E3 & E4 & _).
    cbn [ReLit]. rewrite !matchFrom_alt, !matchFrom_seq, !matchFrom_char.
    rewrite E1, E2, E3, E4. reflexivity.
  - change (nth 2 sqlPatterns ReEmpty)
      with (ReAlt (ReCode 39)
              (ReAlt (ReSeq (ReCode 92) (ReCode 39))
                 (ReAlt (ReSeq (ReCode 92) (ReCode 34))
                    (ReSeq (ReCode 92) (ReCode 92))))).
    destruct s as [|d s']; [reflexivity|].
    cbn [string_forall] in Hs. apply andb_true_iff in Hs as [Hd _].
    destruct (is_word_not_mark d Hd) as (E1 & E2 & _).
    unfold ReCode. rewrite !matchFrom_alt, !matchFrom_seq, !matchFrom_char.
    rewrite E1, E2. reflexivity.
  - change (nth 3 sqlPatterns ReEmpty)
      with (ReSeq ReWordBoundary
              (ReAll [ReLitI "OR"; ReWordBoundary; ReStar (ReChar is_dot);
                      ReLit "="; ReStar (ReChar is_dot)])).
    rewrite Hb. destruct s; reflexivity.
  - change (nth 4 sqlPatterns ReEmpty)
      with (ReSeq ReWordBoundary
              (ReAll [ReLitI "AND"; ReWordBoundary; ReStar (ReChar is_dot);
                      ReLit "="; ReStar (ReChar is_dot)])).
    rewrite Hb. destruct s; reflexivity.
  - change (nth 5 sqlPatterns ReEmpty)
      with (ReAlt (ReLit "1=1")
              (ReAlt (ReAll [ReLit "1="; ReCode 39; ReLit "1"; ReCode 39])
                 (ReAll [ReCode 39; ReLit "="; ReCode 39]))).
    destruct s as [|d s']; [reflexivity|].
    cbn [string_forall] in Hs. apply andb_true_iff in Hs as [Hd Hs].
    destruct (is_word_not_mark d Hd) as (E1 & _).
    cbn [ReLit ReAll]. unfold ReCode.
    rewrite !matchFrom_alt, !matchFrom_seq, !matchFrom_char. rewrite E1.
    destruct (Ascii.eqb "1" d); [|reflexivity].
    destruct s' as [|d' s'']; [reflexivity|].
    cbn [string_forall] in Hs. apply andb_true_iff in Hs as [Hd' _].
    destruct (is_word_not_mark d' Hd') as (_ & _ & _ & _ & _ & _ & _ & E8).
    rewrite !matchFrom_seq, !matchFrom_char, E8. reflexivity.
  - change (nth 6 sqlPatterns ReEmpty)
      with (ReAlt (ReSeq ReWordBoundary (ReLitI "xp_"))
              (ReSeq ReWordBoundary (ReLitI "sp_"))).
    rewrite matchFrom_alt, !Hb. destruct s; reflexivity.
  - cbn [length sqlPatterns] in Hn. lia.
Qed.

Lemma searchFrom_inside_word (n : nat) (c : ascii) (s : string) :
  (n < length sqlPatterns)%nat ->
  is_word c = true -> string_forall is_word s = true ->
  searchFrom (nth n sqlPatterns ReEmpty) (Some c) s = false.
Proof.
  intros Hn. revert c. induction s as [|d s IH]; intros c Hc Hs.
  - cbn [searchFrom]. rewrite sqlPatterns_inside_word by assumption. reflexivity.
  - cbn [searchFrom]. rewrite sqlPatterns_inside_word by assumption.
    cbn [string_forall] in Hs. apply andb_true_iff in Hs as [Hd Hs].
    apply IH; assumption.
Qed.

(** The payment ids of the service, the text PAY_ followed by digits,
    letters and underscores, are never flagged by [detectSQLInjection]. *)
Lemma payment_ids_are_not_flagged (t : string) :
  string_forall is_word t = true ->
  detectSQLInjection (VString ("PAY_" ++ t)) = false.
Proof.
  intros Ht. unfold detectSQLInjection. rewrite !append_cons, append_nil.
  rewrite on_string_nonempty.
  apply not_true_is_false. intros H. apply existsb_exists in H as (r & Hr & H).
  apply (In_nth _ _ ReEmpty) in Hr as (n & Hn & <-).
  assert (E : test (nth n sqlPatterns ReEmpty)
                (String "P" (String "A" (String "Y" (String "_" t))))
              = searchFrom (nth n sqlPatterns ReEmpty) (Some "_"%char) t).
  { cbn [length sqlPatterns] in Hn. unfold test.
    do 7 (destruct n as [|n]; [reflexivity|]). lia. }
  rewrite E, searchFrom_inside_word in H by auto. discriminate.
Qed.

(** ** Letter case *)

Lemma blind_test_spec (p : ascii -> bool) (c : ascii) :
  blind_test p = true -> p (lower_char c) = p c.
Proof.
  unfold blind_test. intros H. rewrite forallb_forall in H.
  specialize (H (nat_of_ascii c)). rewrite ascii_nat_embedding in H.
  symmetry. apply Bool.eqb_prop. apply H. apply in_seq.
  pose proof (nat_ascii_bounded c). lia.
Qed.

Lemma is_word_blind : blind_test is_word = true.
Proof. vm_compute. reflexivity. Qed.

Lemma word_before_lower (prev : option ascii) :
  word_before (lower_before prev) = word_before prev.
Proof. destruct prev; [apply blind_test_spec, is_word_blind|reflexivity]. Qed.

Lemma word_at_lower (s : string) : word_at (toLowerCase s) = word_at s.
Proof. destruct s; [reflexivity|apply blind_test_spec, is_word_blind]. Qed.

Lemma length_toLowerCase (s : string) :
  String.length (toLowerCase s) = String.length s.
Proof.
  induction s as [|c s IH]; [reflexivity|].
  cbn [toLowerCase String.length]. rewrite IH. reflexivity.
Qed.

Lemma orelse_none {A : Type} (a b : option A) :
  orelse a b = None <-> a = None /\ b = None.
Proof. destruct a; cbn; split; [discriminate|intros [H _]; exact H|auto|tauto]. Qed.

(** A pattern that is blind to the case matches a text and its
    lower-case form alike. *)
Lemma matchFrom_lower (fuel : nat) :
  forall r prev s k k',
    case_blind r = true ->
    (forall prev' s', (String.length s' <= String.length s)%nat ->
       (k prev' s' = None <-> k' (lower_before prev') (toLowerCase s') = None)) ->
    (matchFrom fuel r prev s k = None
     <-> matchFrom fuel r (lower_before prev) (toLowerCase s) k' = None).
Proof.
  induction fuel as [|fuel IHf]; [intros; cbn; tauto|].
  induction r as [|p|r1 IH1 r2 IH2|r1 IH1 r2 IH2|r1 IH1| | |];
    intros prev s k k' Hb Hk; cbn [case_blind] in Hb.
  - rewrite !matchFrom_empty. apply Hk. lia.
  - rewrite !matchFrom_char. destruct s as [|c s']; [tauto|].
    cbn [toLowerCase]. rewrite (blind_test_spec p c Hb).
    destruct (p c); [|tauto]. apply (Hk (Some c) s'). cbn [String.length]. lia.
  - apply andb_true_iff in Hb as [Hb1 Hb2]. rewrite !matchFrom_seq.
    apply IH1; [exact Hb1|]. intros prev' s' Hs'.
    apply IH2; [exact Hb2|]. intros prev'' s'' Hs''. apply Hk. lia.
  - apply andb_true_iff in Hb as [Hb1 Hb2]. rewrite !matchFrom_alt, !orelse_none.
    rewrite (IH1 prev s k k' Hb1 Hk), (IH2 prev s k k' Hb2 Hk). tauto.
  - rewrite !matchFrom_star, !orelse_none.
    rewrite (Hk prev s) by lia.
    assert (H1 : matchFrom (S fuel) r1 prev s
                   (fun prev' s' =>
                      if (String.length s' <? String.length s)%nat
                      then matchFrom fuel (ReStar r1) prev' s' k else None) = None
                 <-> matchFrom (S fuel) r1 (lower_before prev) (toLowerCase s)
                       (fun prev' s' =>
                          if (String.length s' <? String.length (toLowerCase s))%nat
                          then matchFrom fuel (ReStar r1) prev' s' k' else None)
                     = None).
    { apply IH1; [exact Hb|]. intros prev' s' Hs'.
      rewrite !length_toLowerCase.
      destruct (String.length s' <? String.length s)%nat eqn:E; [|tauto].
      apply IHf; [exact Hb|]. intros prev'' s'' Hs''. apply Hk. lia. }
    rewrite H1. tauto.
  - rewrite !matchFrom_boundary, word_before_lower, word_at_lower.
    destruct (xorb _ _); [apply Hk; lia|tauto].
  - rewrite !matchFrom_start. destruct prev; [tauto|apply (Hk None s); lia].
  - rewrite !matchFrom_end. destruct s; [apply (Hk prev EmptyString); lia|tauto].
Qed.

Lemma matchAt_lower r prev s :
  case_blind r = true ->
  (matchAt r prev s = None
   <-> matchAt r (lower_before prev) (toLowerCase s) = None).
Proof.
  intros Hb. unfold matchAt. rewrite length_toLowerCase.
  apply matchFrom_lower; [exact Hb|]. intros. split; discriminate.
Qed.

Lemma searchFrom_lower r prev s :
  case_blind r = true ->
  searchFrom r (lower_before prev) (toLowerCase s) = searchFrom r prev s.
Proof.
  intros Hb. revert prev. induction s as [|c s IH]; intros prev.
  - cbn [toLowerCase searchFrom].
    pose proof (matchAt_lower r prev EmptyString Hb) as H. cbn [toLowerCase] in H.
    destruct (matchAt r prev EmptyString), (matchAt r (lower_before prev) EmptyString);
      try reflexivity; exfalso; destruct H as [H1 H2];
      [discriminate (H2 eq_refl)|discriminate (H1 eq_refl)].
  - cbn [toLowerCase searchFrom].
    pose proof (matchAt_lower r prev (String c s) Hb) as H. cbn [toLowerCase] in H.
    destruct (matchAt r prev (String c s)),
             (matchAt r (lower_before prev) (String (lower_char c) (toLowerCase s)));
      try reflexivity;
      [exfalso; destruct H as [H1 H2]; discriminate (H2 eq_refl)
      |exfalso; destruct H as [H1 H2]; discriminate (H1 eq_refl)|].
    apply (IH (Some c)).
Qed.

Lemma sqlPatterns_case_blind : forallb case_blind sqlPatterns = true.
Proof. vm_compute. reflexivity. Qed.

Lemma existsb_test_lower (l : list RegExp) (s : string) :
  forallb case_blind l = true ->
  existsb (fun pattern => test pattern (toLowerCase s)) l
  = existsb (fun pattern => test pattern s) l.
Proof.
  intros Hb. rewrite forallb_forall in Hb.
  induction l as [|r l IH]; [reflexivity|].
  cbn [existsb]. rewrite IH by (intros x Hx; apply Hb; right; exact Hx).
  f_equal. unfold test.
  apply (searchFrom_lower r None s). apply Hb. left. reflexivity.
Qed.

(** For a text of code units below 256, the verdict of
    [detectSQLInjection] does not depend on the case of the letters: the
    text and its lower-case form are flagged alike.  Beyond that range
    the two can differ, since a code unit that is no word character can
    have a lower-case form that is one. *)
Theorem sql_verdict_ignores_case (s : string) :
  detectSQLInjection (VString s) = detectSQLInjection (VString (toLowerCase s)).
Proof.
  destruct s as [|c s]; [reflexivity|].
  unfold detectSQLInjection. cbn [toLowerCase]. rewrite !on_string_nonempty.
  change (String (lower_char c) (toLowerCase s)) with (toLowerCase (String c s)).
  symmetry. apply existsb_test_lower. exact sqlPatterns_case_blind.
Qed.

(** ** The validation middleware *)

Lemma valid_methods_are_not_flagged :
  forallb (fun x => negb (detectSQLInjection (VString x))) validMethods = true.
Proof. vm_compute. reflexivity. Qed.

Lemma valid_method_is_not_flagged (method : JSValue) :
  isValidPaymentMethod method = true -> detectSQLInjection method = false.
Proof.
  unfold isValidPaymentMethod.
  destruct (negb (truthy method) || negb (typeof_string method)); [discriminate|].
  destruct method as [| | | |m]; try discriminate.
  intros H. apply existsb_exists in H as (x & Hx & E). apply String.eqb_eq in E.
  pose proof valid_methods_are_not_flagged as Hall.
  rewrite forallb_forall in Hall. specialize (Hall x Hx).
  apply negb_true_iff in Hall.
  destruct m as [|c m]; [reflexivity|].
  unfold detectSQLInjection in *. rewrite on_string_nonempty.
  rewrite <- existsb_test_lower by exact sqlPatterns_case_blind.
  rewrite E. destruct x as [|d x]; [discriminate E|].
  rewrite on_string_nonempty in Hall. exact Hall.
Qed.

Section MiddlewareFacts.
Context `{RT : JSRuntime}.

Lemma isValidIdempotencyKey_string (key : JSValue) :
  isValidIdempotencyKey key = true ->
  (negb (truthy key) || negb (typeof_string key)) = false.
Proof.
  unfold isValidIdempotencyKey.
  destruct (negb (truthy key) || negb (typeof_string key)); [discriminate|reflexivity].
Qed.

Lemma validatePaymentRequest_next (body : RequestBody) :
  validatePaymentRequest body = Next ->
  isValidUserId (b_order_id body) = true
  /\ isValidPaymentMethod (b_payment_method body) = true
  /\ isValidIdempotencyKey (b_idempotency_key body) = true.
Proof.
  unfold validatePaymentRequest.
  destruct (negb (truthy (b_order_id body))); [discriminate|].
  destruct (negb (truthy (b_payment_method body))); [discriminate|].
  destruct (negb (truthy (b_idempotency_key body))); [discriminate|].
  destruct (isValidUserId (b_order_id body)); [|discriminate].
  destruct (isValidPaymentMethod (b_payment_method body)); [|discriminate].
  destruct (isValidIdempotencyKey (b_idempotency_key body)); [|discriminate].
  auto.
Qed.

(** A request that [validatePaymentRequest] lets through has an order id,
    a payment method and an idempotency key that [createPayment] accepts:
    of the five input checks of [createPayment] only the two on the user
    id and the amount of the order can still fail. *)
Theorem validated_request_passes_createPayment_checks (body : RequestBody)
    (userId total : JSValue) :
  validatePaymentRequest body = Next ->
  validInputs (b_order_id body) userId total (b_payment_method body)
    (b_idempotency_key body)
  = isValidUserId userId && isValidAmount total
  /\ (isValidUserId userId && isValidAmount total = true ->
      validateCreatePayment (b_order_id body) userId total (b_payment_method body)
        (b_idempotency_key body) = None).
Proof.
  intros H. apply validatePaymentRequest_next in H as (H1 & H2 & H3).
  apply isValidIdempotencyKey_string in H3.
  assert (E : validInputs (b_order_id body) userId total (b_payment_method body)
                (b_idempotency_key body)
              = isValidUserId userId && isValidAmount total).
  { unfold validInputs. rewrite H1, H2, H3. cbn [negb andb].
    rewrite !andb_true_r. reflexivity. }
  split; [exact E|]. intros Hv. apply validateCreatePayment_valid.
  rewrite E. exact Hv.
Qed.

(** [validatePaymentRequest] never answers that the input is potentially
    malicious: a payment method that passes [isValidPaymentMethod] is
    never flagged by [detectSQLInjection], so the last check of the
    middleware cannot fail. *)
Theorem payment_request_is_never_called_malicious (body : RequestBody) :
  validatePaymentRequest body <> Respond maliciousInput
  /\ isValidPaymentMethod (b_payment_method body)
     && detectSQLInjection (b_payment_method body) = false.
Proof.
  split;
    [|destruct (isValidPaymentMethod (b_payment_method body)) eqn:E;
      [apply valid_method_is_not_flagged, E|reflexivity]].
  unfold validatePaymentRequest.
  destruct (negb (truthy (b_order_id body))); [discriminate|].
  destruct (negb (truthy (b_payment_method body))); [discriminate|].
  destruct (negb (truthy (b_idempotency_key body))); [discriminate|].
  destruct (isValidUserId (b_order_id body)); [|discriminate].
  destruct (isValidPaymentMethod (b_payment_method body)) eqn:E; [|discriminate].
  destruct (isValidIdempotencyKey (b_idempotency_key body)); [|discriminate].
  cbn [negb]. rewrite (valid_method_is_not_flagged _ E). discriminate.
Qed.

End MiddlewareFacts.
(** * Further properties *)

(** ** Settling a payment outside [createPayment] *)

Lemma with_payments_same (s : Store) : with_payments (payments s) s = s.
Proof. destruct s; reflexivity. Qed.

Lemma update_payments_absent (pid : string) (f : Payment -> Payment) (s : Store) :
  select_payments pid s = [] -> update_payments pid f s = s.
Proof.
  unfold select_payments, update_payments. intros H.
  rewrite existsb_false_map_if; [apply with_payments_same|].
  apply filter_nil_existsb. exact H.
Qed.

Lemma view_written (s : Store) (w : World) : view (written s w) = s.
Proof.
  unfold written, write, view. destruct (working w) eqn:E; cbn; [reflexivity|].
  rewrite E. reflexivity.
Qed.

Lemma rows_rewritten_update (pid : string) (f : Payment -> Payment) (s : Store) :
  rows_rewritten pid f s (update_payments pid f s).
Proof. repeat split. Qed.

Lemma select_payments_rewritten (pid : string) (f : Payment -> Payment) (s : Store) :
  (forall p, payment_id (f p) = payment_id p) ->
  select_payments pid s <> [] ->
  select_payments pid (update_payments pid f s) <> [].
Proof.
  intros Hf Hs. rewrite select_payments_update by exact Hf.
  destruct (select_payments pid s); [congruence|discriminate].
Qed.

Lemma approvePayment_run env pid (txn : string) w :
  fault env CS_approveUpdate = None -> fault env CS_approveSelect = None ->
  let f := fun p => set_transaction_id (Some txn) (set_status Completed p) in
  let w1 := written (update_payments pid f (view w)) w in
  approvePayment env pid (Some txn) w
  = (match select_payments pid (view w) with
     | [] => Threw (Error "Payment not found")
     | _ :: _ => Returned tt
     end, w1).
Proof.
  intros H1 H2 f w1.
  unfold approvePayment, bindParameters, execute_update, execute_select, bind, call.
  cbn [existsb is_undefined optional orb ret]. cbv beta iota.
  rewrite H1. cbn [ret]. fold f. unfold affectedRows.
  change (write (update_payments pid f (view w)) w) with (Returned tt, w1).
  cbv beta iota.
  destruct (select_payments pid (view w)) as [|p rest] eqn:Hs; cbn [length Nat.eqb].
  - reflexivity.
  - rewrite H2. cbn [ret]. unfold w1. rewrite view_written.
    rewrite select_payments_update by reflexivity. rewrite Hs. reflexivity.
Qed.

Lemma failPayment_run env pid (msg : string) w :
  fault env CS_failUpdate = None -> fault env CS_failSelect = None ->
  let f := fun p => set_gateway_response (Some msg) (set_status Failed p) in
  let w1 := written (update_payments pid f (view w)) w in
  failPayment env pid (Some msg) w
  = (match select_payments pid (view w) with
     | [] => Threw (Error "Payment not found")
     | _ :: _ => Returned tt
     end, w1).
Proof.
  intros H1 H2 f w1.
  unfold failPayment, bindParameters, execute_update, execute_select, bind, call.
  cbn [existsb is_undefined optional orb ret]. cbv beta iota.
  rewrite H1. cbn [ret]. fold f. unfold affectedRows.
  change (write (update_payments pid f (view w)) w) with (Returned tt, w1).
  cbv beta iota.
  destruct (select_payments pid (view w)) as [|p rest] eqn:Hs; cbn [length Nat.eqb].
  - reflexivity.
  - rewrite H2. cbn [ret]. unfold w1. rewrite view_written.
    rewrite select_payments_update by reflexivity. rewrite Hs. reflexivity.
Qed.

(** [approvePayment] and [failPayment] do not look at the status a
    payment has.  Given a transaction reference, or a reason: when no row
    has the payment id, each throws "Payment not found" and the rows are
    as they were; when there is one, each returns, and every row with
    that id is completed with the transaction reference, or failed with
    the reason, whatever its status was.  Given [undefined] for the
    reference or the reason, each ends in the TypeError of the driver
    and the world is as it was, whatever the store holds. *)
Theorem settling_overwrites_any_status env pid (txn msg : string) w :
  settles env ->
  exists w1 w2,
    (select_payments pid (view w) = [] ->
       approvePayment env pid (Some txn) w = (Threw (Error "Payment not found"), w1)
       /\ failPayment env pid (Some msg) w = (Threw (Error "Payment not found"), w2)
       /\ view w1 = view w /\ view w2 = view w)
    /\ (select_payments pid (view w) <> [] ->
        approvePayment env pid (Some txn) w = (Returned tt, w1)
        /\ failPayment env pid (Some msg) w = (Returned tt, w2)
        /\ rows_rewritten pid
             (fun p => set_transaction_id (Some txn) (set_status Completed p))
             (view w) (view w1)
        /\ rows_rewritten pid
             (fun p => set_gateway_response (Some msg) (set_status Failed p))
             (view w) (view w2))
    /\ approvePayment env pid None w = (Threw undefinedBindParameter, w)
    /\ failPayment env pid None w = (Threw undefinedBindParameter, w).
Proof.
  intros (Ha1 & Ha2 & Hf1 & Hf2).
  pose proof (approvePayment_run env pid txn w Ha1 Ha2) as Ea.
  pose proof (failPayment_run env pid msg w Hf1 Hf2) as Ef.
  cbv zeta in Ea, Ef. eexists _, _. split; [|split; [|split; reflexivity]].
  - intros Hs. rewrite Hs in Ea, Ef. split; [exact Ea|]. split; [exact Ef|].
    rewrite !view_written, !update_payments_absent by exact Hs. auto.
  - intros Hs. destruct (select_payments pid (view w)); [congruence|].
    split; [exact Ea|]. split; [exact Ef|].
    rewrite !view_written. split; apply rows_rewritten_update.
Qed.

(** A cancelled payment that is approved is completed again. *)
Lemma settling_overwrites_any_status_witness :
  exists w1,
    @approvePayment exampleEnv "PAY_1000_a1b2c3d4e5f60718" (Some "TXN_9") 
      (initialWorld cancelledStore) = (Returned tt, w1)
    /\ map status (payments (view w1)) = [Completed].
Proof.
  destruct (settling_overwrites_any_status exampleEnv "PAY_1000_a1b2c3d4e5f60718"
              "TXN_9" "declined" (initialWorld cancelledStore))
    as (w1 & w2 & _ & H & _).
  - repeat split.
  - destruct H as (Ea & _ & (Hp & _) & _); [vm_compute; discriminate|].
    exists w1. split; [exact Ea|]. rewrite Hp. vm_compute. reflexivity.
Defined.

(** ** Cancellation rows and cancelled payments *)

Lemma in_select_payments (pid : string) (s : Store) (p : Payment) (rest : list Payment) :
  select_payments pid s = p :: rest -> In p (payments s) /\ payment_id p = pid.
Proof.
  unfold select_payments. intros H.
  assert (Hin : In p (List.filter (fun q => String.eqb (payment_id q) pid) (payments s)))
    by (rewrite H; left; reflexivity).
  apply filter_In in Hin as [Hin Hp]. apply String.eqb_eq in Hp. auto.
Qed.

Section CancellationRows.
Context `{RT : JSRuntime}.

(** What a cancellation does to the committed store. *)
Lemma exec_cancel_cases env paymentId reason cancelledBy s :
  let w' := exec env (Cancel paymentId reason cancelledBy) s in
  committed w' = s
  \/ (first_completed paymentId s
      /\ insert_cancellation (cancellationRow env paymentId reason cancelledBy) s
         = inr (cancellation_recorded env paymentId reason cancelledBy s)
      /\ committed w' = cancelled_store env paymentId reason cancelledBy s).
Proof.
  cbn [exec].
  destruct (cancelPayment env paymentId reason cancelledBy (initialWorld s))
    as [r w'] eqn:E.
  pose proof (cancelPayment_effect env _ _ _ (initialWorld s) r w' eq_refl E)
    as [_ H].
  cbn [snd].
  destruct H as [(_ & _ & ->)|(_ & _ & _ & _ & Hm)]; [left; reflexivity|].
  cbn [committed initialWorld] in Hm.
  destruct r as [res|e].
  - destruct Hm as (_ & _ & _ & Hfc & Hrec & Hc & _). right. auto.
  - destruct Hm as [Hc _]. left. exact Hc.
Qed.

Lemma no_cancellation_of_completed (s : Store) (pid : string) (p : Payment) :
  unique_keys s -> cancellations_match s ->
  In p (payments s) -> payment_id p = pid -> status p <> Cancelled ->
  List.filter (fun c => String.eqb (c_payment_id c) pid) (payment_cancellations s) = [].
Proof.
  intros [Hu _] (H1 & _) Hp Hpid Hst.
  apply existsb_false_filter. apply not_true_is_false. intros Hex.
  apply existsb_exists in Hex as (c & Hc & Heq). apply String.eqb_eq in Heq.
  destruct (H1 c Hc) as (q & Hq & Hqid & Hqst).
  assert (q = p)
    by (apply (NoDup_map_In_eq payment_id (payments s)); auto; congruence).
  subst q. contradiction.
Qed.


Lemma exec_cancellations_match env op s :
  unique_keys s -> cancellations_match s ->
  cancellations_match (committed (exec env op s)).
Proof.
  intros Hu Hm.
  destruct op as [orderId userId amount paymentMethod idempotencyKey card
                 |paymentId reason cancelledBy|paymentId].
  - destruct (exec_cases env
                (Submit orderId userId amount paymentMethod idempotencyKey card) s)
      as [[-> _]|[H|H]]; [exact Hm| |].
    + destruct H as (o & u & a & m & k & c & Heq & _ & [[-> _]|[-> _]]);
        [exact Hm|].
      destruct Hm as (H1 & H2 & H3 & H4).
      unfold cancellations_match. cbn [payments payment_cancellations with_payments].
      split; [|split; [|split; assumption]].
      * intros x Hx. destruct (H1 x Hx) as (p & Hp & Hpid & Hst).
        exists p. split; [apply in_or_app; left; exact Hp|auto].
      * intros p Hp Hst. apply in_app_or in Hp as [Hp|[<-|[]]]; [auto|].
        exfalso. unfold finalRow in Hst. destruct (success _); discriminate.
    + destruct H as (? & ? & ? & Heq & _). discriminate.
  - destruct (exec_cancel_cases env paymentId reason cancelledBy s)
      as [->|(Hfc & Hins & ->)]; [exact Hm|].
    destruct Hfc as (p & rest & Hsel & Hst).
    apply in_select_payments in Hsel as [Hp Hpid].
    assert (Hnone : List.filter
                      (fun c => String.eqb (c_payment_id c) (ToString paymentId))
                      (payment_cancellations s) = [])
      by (apply (no_cancellation_of_completed s _ p); auto; congruence).
    destruct Hm as (H1 & H2 & H3 & H4).
    unfold cancellations_match, cancelled_store, cancellation_recorded, update_payments.
    cbn [payments payment_cancellations with_payments with_cancellations].
    set (g := fun q : Payment =>
                if String.eqb (payment_id q) (ToString paymentId)
                then set_status Cancelled q else q).
    assert (Hgid : forall q, payment_id (g q) = payment_id q)
      by (intros q; unfold g; destruct (String.eqb _ _); reflexivity).
    split; [|split; [|split]].
    + intros c Hc. apply in_app_or in Hc as [Hc|[<-|[]]].
      * destruct (H1 c Hc) as (q & Hq & Hqid & Hqst).
        exists (g q). split; [apply in_map; exact Hq|].
        rewrite Hgid. split; [exact Hqid|].
        unfold g. destruct (String.eqb _ _); [reflexivity|exact Hqst].
      * exists (g p). split; [apply in_map; exact Hp|].
        rewrite Hgid. split; [exact Hpid|].
        unfold g. rewrite Hpid, String.eqb_refl. reflexivity.
    + intros q' Hq' Hst'. apply in_map_iff in Hq' as (q & <- & Hq).
      rewrite Hgid. destruct (String.eqb (payment_id q) (ToString paymentId)) eqn:E.
      * apply String.eqb_eq in E.
        exists (cancellationRow env paymentId reason cancelledBy).
        split; [apply in_or_app; right; left; reflexivity|].
        symmetry. exact E.
      * unfold g in Hst'. rewrite E in Hst'.
        destruct (H2 q Hq Hst') as (c & Hc & Hcid).
        exists c. split; [apply in_or_app; left; exact Hc|exact Hcid].
    + rewrite map_app. apply NoDup_snoc; [exact H3|].
      cbn [cancellationRow c_payment_id]. intros Hin.
      apply in_map_iff in Hin as (c & Hcid & Hc).
      assert (Hin : In c (List.filter
                            (fun c => String.eqb (c_payment_id c) (ToString paymentId))
                            (payment_cancellations s)))
        by (apply filter_In; split; [exact Hc|apply String.eqb_eq; exact Hcid]).
      rewrite Hnone in Hin. exact Hin.
    + rewrite map_app. apply NoDup_snoc; [exact H4|].
      cbn [cancellationRow cancellation_id]. intros Hin.
      apply in_map_iff in Hin as (c & Hcid & Hc).
      unfold insert_cancellation in Hins.
      destruct (existsb _ (payment_cancellations s)) eqn:E; [discriminate|].
      assert (existsb
                (fun r => String.eqb (cancellation_id r)
                            (cancellation_id
                               (cancellationRow env paymentId reason cancelledBy)))
                (payment_cancellations s) = true).
      { apply existsb_exists. exists c. split; [exact Hc|].
        apply String.eqb_eq. exact Hcid. }
      congruence.
  - cbn [exec]. rewrite getPaymentById_world. exact Hm.
Qed.

Lemma reachable_cancellations_match s :
  reachable s -> cancellations_match s.
Proof.
  induction 1 as [|s env op Hr IH].
  - repeat split; try constructor; intros ? [].
  - apply exec_cancellations_match; [apply reachable_unique_keys; exact Hr|exact IH].
Qed.

(** In every store that submissions, cancellations and reads lead to, a
    payment is cancelled exactly when it has a cancellation row, and it
    never has two. *)
Theorem cancelled_payments_have_one_cancellation s p :
  reachable s -> In p (payments s) ->
  (status p = Cancelled
   <-> exists c, In c (payment_cancellations s) /\ c_payment_id c = payment_id p)
  /\ (forall c c',
        In c (payment_cancellations s) -> In c' (payment_cancellations s) ->
        c_payment_id c = payment_id p -> c_payment_id c' = payment_id p -> c = c').
Proof.
  intros Hr Hp.
  destruct (reachable_cancellations_match s Hr) as (H1 & H2 & H3 & _).
  destruct (reachable_unique_keys s Hr) as [Hu _].
  split; [split|].
  - intros Hst. apply H2; assumption.
  - intros (c & Hc & Hid). destruct (H1 c Hc) as (q & Hq & Hqid & Hqst).
    assert (q = p)
      by (apply (NoDup_map_In_eq payment_id (payments s)); auto; congruence).
    subst q. exact Hqst.
  - intros c c' Hc Hc' Hid Hid'.
    apply (NoDup_map_In_eq c_payment_id (payment_cancellations s)); auto.
    congruence.
Qed.

End CancellationRows.

(** After a submission that completed and its cancellation, the payment
    is cancelled and has its cancellation row. *)
Lemma cancelled_payments_have_one_cancellation_witness :
  exists c,
    In c (payment_cancellations
            (committed
               (@exec exampleRuntime laterEnv
                  (Cancel (VString "PAY_1000_a1b2c3d4e5f60718")
                     (VString "changed my mind") VNull)
                  completedStore)))
    /\ c_payment_id c = "PAY_1000_a1b2c3d4e5f60718".
Proof.
  assert (Hr : @reachable exampleRuntime
                 (committed
                    (@exec exampleRuntime laterEnv
                       (Cancel (VString "PAY_1000_a1b2c3d4e5f60718")
                          (VString "changed my mind") VNull)
                       completedStore))).
  { apply reachable_step.
    change completedStore
      with (committed
              (@exec exampleRuntime exampleEnv
                 (Submit (jsInt 42) (jsInt 7) exampleAmount (VString "card")
                    exampleKey None)
                 emptyStore)).
    apply reachable_step, reachable_empty. }
  apply (proj1 (@cancelled_payments_have_one_cancellation exampleRuntime _
                  (set_status Cancelled completedPayment) Hr
                  ltac:(left; reflexivity))).
  reflexivity.
Defined.

(** ** Reading a payment back *)

Section ReadingBack.
Context `{RT : JSRuntime}.

Lemma getPaymentById_run env paymentId w :
  (negb (truthy paymentId) || negb (typeof_string paymentId)) = false ->
  reads env ->
  getPaymentById env paymentId w
  = (Returned
       (match select_payments (ToString paymentId) (view w) with
        | [] => None
        | payment :: _ =>
            Some (payment,
                  head (List.filter
                          (fun c => String.eqb (c_payment_id c) (ToString paymentId))
                          (payment_cancellations (view w))))
        end), w).
Proof.
  intros Hk [H1 H2]. unfold getPaymentById. rewrite Hk.
  unfold execute_select, bind, call. rewrite H1. cbn [ret].
  destruct (select_payments (ToString paymentId) (view w)); [reflexivity|].
  rewrite H2. reflexivity.
Qed.


(** A payment that [cancelPayment] cancelled is read back as cancelled
    together with the cancellation row of this call. *)
Theorem cancelled_payment_is_read_back env env' paymentId reason cancelledBy w res w' :
  working w = None ->
  reachable (committed w) ->
  reads env' ->
  cancelPayment env paymentId reason cancelledBy w = (Returned res, w') ->
  exists p,
    getPaymentById env' paymentId w'
    = (Returned (Some (p, Some (cancellationRow env paymentId reason cancelledBy))), w')
    /\ payment_id p = ToString paymentId
    /\ status p = Cancelled
    /\ cancellation_id (cancellationRow env paymentId reason cancelledBy)
       = r_cancellationId res.
Proof.
  intros Hw Hr Hreads E.
  pose proof (cancelPayment_effect _ _ _ _ _ _ _ Hw E) as [Hw' H].
  cbn [closed] in Hw'.
  destruct H as [(_ & Habs & _)|(Hk & _ & _ & _ & Hm)]; [discriminate|].
  destruct Hm as (_ & _ & -> & (p & rest & Hsel & Hst) & _ & Hc & _).
  exists (set_status Cancelled p).
  rewrite getPaymentById_run by assumption.
  unfold view. rewrite Hw', Hc, cancelled_store_select, Hsel. cbn [map].
  unfold cancelled_store, cancellation_recorded, update_payments.
  cbn [payment_cancellations with_payments with_cancellations].
  rewrite List.filter_app.
  pose proof (in_select_payments _ _ _ _ Hsel) as [Hp Hpid].
  rewrite (no_cancellation_of_completed (committed w) (ToString paymentId) p);
    [|apply reachable_unique_keys; exact Hr
     |apply reachable_cancellations_match; exact Hr
     |exact Hp|exact Hpid|congruence].
  cbn [List.filter cancellationRow c_payment_id app]. rewrite String.eqb_refl.
  cbn [head]. repeat split. exact Hpid.
Qed.

End ReadingBack.


Lemma cancelled_payment_is_read_back_witness :
  exists p,
    @getPaymentById exampleRuntime laterEnv (VString "PAY_1000_a1b2c3d4e5f60718")
      (snd (@cancelPayment exampleRuntime laterEnv (VString "PAY_1000_a1b2c3d4e5f60718")
              (VString "changed my mind") VNull
              (initialWorld
                 (committed
                    (@exec exampleRuntime exampleEnv
                       (Submit (jsInt 42) (jsInt 7) exampleAmount (VString "card")
                          exampleKey None)
                       emptyStore)))))
    = (Returned
         (Some (p, Some (@cancellationRow exampleRuntime laterEnv
                           (VString "PAY_1000_a1b2c3d4e5f60718")
                           (VString "changed my mind") VNull))),
       snd (@cancelPayment exampleRuntime laterEnv (VString "PAY_1000_a1b2c3d4e5f60718")
              (VString "changed my mind") VNull
              (initialWorld
                 (committed
                    (@exec exampleRuntime exampleEnv
                       (Submit (jsInt 42) (jsInt 7) exampleAmount (VString "card")
                          exampleKey None)
                       emptyStore)))))
    /\ status p = Cancelled.
Proof.
  destruct (@cancelled_payment_is_read_back exampleRuntime laterEnv laterEnv
              (VString "PAY_1000_a1b2c3d4e5f60718") (VString "changed my mind") VNull
              (initialWorld
                 (committed
                    (@exec exampleRuntime exampleEnv
                       (Submit (jsInt 42) (jsInt 7) exampleAmount (VString "card")
                          exampleKey None)
                       emptyStore)))
              {| r_cancellationId := "CAN_2000_8899aabbccddeeff";
                 r_cancel_status := Cancelled |}
              (snd (@cancelPayment exampleRuntime laterEnv
                      (VString "PAY_1000_a1b2c3d4e5f60718")
                      (VString "changed my mind") VNull
                      (initialWorld
                         (committed
                            (@exec exampleRuntime exampleEnv
                               (Submit (jsInt 42) (jsInt 7) exampleAmount
                                  (VString "card") exampleKey None)
                               emptyStore))))))
    as (p & E & _ & Hst & _).
  - reflexivity.
  - apply reachable_step, reachable_empty.
  - split; reflexivity.
  - vm_compute. reflexivity.
  - exists p. split; [exact E|exact Hst].
Defined.

(** ** The ledger of idempotency keys *)

Section LedgerService.
Context `{RT : JSRuntime}.

Lemma checkIdempotencyKey_run env key w :
  invalid_key key = false -> fault env CS_checkKeySelect = None ->
  checkIdempotencyKey env key w
  = (Returned (negb (length (select_idempotency env (ToString key) (view w)) =? 0)%nat),
     w).
Proof.
  intros Hk Hf. unfold checkIdempotencyKey, bind, call. rewrite Hk, Hf. reflexivity.
Qed.





Lemma select_idempotency_later env env' k s :
  now env <= now env' ->
  select_idempotency env k s = [] ->
  select_idempotency env' k s = [].
Proof.
  unfold select_idempotency, live. intros Ht H.
  apply existsb_false_filter. apply filter_nil_existsb in H.
  induction (idempotency_keys s) as [|a l IH]; [reflexivity|].
  cbn [existsb] in *. apply orb_false_iff in H as [Ha Hl].
  rewrite (IH Hl), orb_false_r.
  apply andb_false_iff in Ha as [Ha|Ha]; [rewrite Ha; reflexivity|].
  apply andb_false_iff. right. apply Z.ltb_ge. apply Z.ltb_ge in Ha. lia.
Qed.

(** A record that has expired keeps its key taken.  When the ledger has a
    record for the key but none that is live, [storeIdempotencyKey]
    returns without storing anything, and the key stays unknown to
    [checkIdempotencyKey] from then on: the response of this request is
    not remembered. *)
Theorem expired_record_blocks_its_key env env' key requestData response w :
  working w = None ->
  invalid_key key = false ->
  fault env CS_storeKeyInsert = None ->
  has_ledger_key (ToString key) (committed w) = true ->
  select_idempotency env (ToString key) (committed w) = [] ->
  fault env' CS_checkKeySelect = None ->
  now env <= now env' ->
  storeIdempotencyKey env key requestData response w = (Returned tt, w)
  /\ checkIdempotencyKey env' key w = (Returned false, w).
Proof.
  intros Hw Hk Hf Hl Hsel Hr Ht. split.
  - unfold storeIdempotencyKey, try_catch. rewrite Hk.
    unfold execute_insert, bind, call. rewrite Hf. cbn [ret].
    unfold view. rewrite Hw.
    rewrite insert_idempotency_taken by exact Hl. reflexivity.
  - rewrite checkIdempotencyKey_run by assumption.
    unfold view. rewrite Hw.
    rewrite (select_idempotency_later env env') by assumption. reflexivity.
Qed.

Lemma filter_live_select env env' k (l : list IdempotencyRecord) :
  now env <= now env' ->
  List.filter (fun r => String.eqb (ik_key r) k && live env' r) (List.filter (live env) l)
  = List.filter (fun r => String.eqb (ik_key r) k && live env' r) l.
Proof.
  intros Ht. induction l as [|a l IH]; [reflexivity|]. cbn [List.filter].
  destruct (live env a) eqn:E; cbn [List.filter]; rewrite IH; [reflexivity|].
  assert (E' : live env' a = false).
  { unfold live in *. apply Z.ltb_ge. apply Z.ltb_ge in E. lia. }
  rewrite E', andb_false_r. reflexivity.
Qed.

(** [cleanupExpiredKeys] deletes the records that have expired, all of
    them and nothing else, and reports how many there were.  No lookup
    sees a difference, then or later, and a key whose record had expired
    is free again. *)
Theorem cleanup_is_invisible_to_lookups env w :
  working w = None ->
  fault env CS_cleanupDelete = None ->
  exists n w1,
    cleanupExpiredKeys env w = (Returned n, w1)
    /\ working w1 = None
    /\ idempotency_keys (committed w1)
       = List.filter (live env) (idempotency_keys (committed w))
    /\ (n + length (idempotency_keys (committed w1))
        = length (idempotency_keys (committed w)))%nat
    /\ payments (committed w1) = payments (committed w)
    /\ payment_cancellations (committed w1) = payment_cancellations (committed w)
    /\ (forall env' k,
          now env <= now env' ->
          select_idempotency env' k (committed w1)
          = select_idempotency env' k (committed w))
    /\ (forall k,
          select_idempotency env k (committed w) = [] ->
          has_ledger_key k (committed w1) = false).
Proof.
  intros Hw Hf. unfold cleanupExpiredKeys, bind, call. rewrite Hf. cbn [ret].
  unfold view, write. rewrite Hw. eexists _, _. split; [reflexivity|].
  world_simpl. cbn [idempotency_keys payments payment_cancellations
                      with_idempotency_keys].
  split; [exact Hw|]. split; [reflexivity|]. split.
  { pose proof (List.filter_length_le (live env) (idempotency_keys (committed w))).
    lia. }
  split; [reflexivity|]. split; [reflexivity|]. split.
  - intros env' k Ht. unfold select_idempotency.
    cbn [idempotency_keys with_idempotency_keys].
    apply filter_live_select. exact Ht.
  - intros k Hsel. unfold has_ledger_key, select_idempotency in *.
    cbn [idempotency_keys with_idempotency_keys].
    apply filter_nil_existsb in Hsel.
    induction (idempotency_keys (committed w)) as [|a l IH]; [reflexivity|].
    cbn [existsb List.filter] in *. apply orb_false_iff in Hsel as [Ha Hl].
    destruct (live env a) eqn:E; cbn [existsb]; rewrite (IH Hl); [|reflexivity].
    rewrite andb_true_r in Ha. rewrite Ha. reflexivity.
Qed.

End LedgerService.


Lemma expired_record_blocks_its_key_witness :
  @storeIdempotencyKey exampleRuntime exampleEnv exampleKey
    [("order_id", jsInt 42); ("payment_method", VString "card")]
    (errorBody None "PAYMENT_FAILED" None) (initialWorld staleLedger)
  = (Returned tt, initialWorld staleLedger)
  /\ @checkIdempotencyKey exampleRuntime laterEnv exampleKey (initialWorld staleLedger)
     = (Returned false, initialWorld staleLedger).
Proof.
  apply (@expired_record_blocks_its_key exampleRuntime exampleEnv laterEnv).
  - reflexivity.
  - reflexivity.
  - reflexivity.
  - vm_compute. reflexivity.
  - vm_compute. reflexivity.
  - reflexivity.
  - vm_compute. discriminate.
Defined.

Lemma cleanup_is_invisible_to_lookups_witness :
  exists n w1,
    cleanupExpiredKeys exampleEnv (initialWorld staleLedger) = (Returned n, w1)
    /\ has_ledger_key "11111111-1111-4111-8111-111111111111" (committed w1) = false.
Proof.
  destruct (cleanup_is_invisible_to_lookups exampleEnv (initialWorld staleLedger))
    as (n & w1 & E & _ & _ & _ & _ & _ & _ & H).
  - reflexivity.
  - reflexivity.
  - exists n, w1. split; [exact E|]. apply H. vm_compute. reflexivity.
Defined.

(** ** The cancellation route *)

Lemma sanitized_is_clean (s : string) :
  exists t, sanitizeInput (VString s) = VString t
            /\ string_forall (fun c => negb (unsafe_char c)) t = true
            /\ trimmed t.
Proof.
  destruct s as [|c s].
  - exists EmptyString. split; [reflexivity|]. split; [reflexivity|].
    split; discriminate.
  - eexists. split; [reflexivity|]. split; [|apply trim_trimmed].
    unfold trim. apply string_forall_trimEnd, string_forall_trimStart.
    rewrite unsafeCharPattern_filter. apply string_forall_filter.
Qed.

(** What [validateCancellationRequest] lets through: the payment id has
    1 to 100 characters and is not flagged; a reason, when there is one,
    is a string of at most 500 characters that is not flagged, and the
    handler gets it sanitised, without angle brackets and quotes and
    without white space at its ends. *)
Theorem cancellation_request_reaches_the_handler_sanitised
    (payment_id reason reason' : JSValue) :
  validateCancellationRequest payment_id reason = inr reason' ->
  isValidLength payment_id 100 = true
  /\ detectSQLInjection payment_id = false
  /\ ((truthy reason = false /\ reason' = reason)
      \/ exists s t,
           reason = VString s /\ reason' = VString t
           /\ (String.length s <= 500)%nat
           /\ detectSQLInjection reason = false
           /\ string_forall (fun c => negb (unsafe_char c)) t = true
           /\ trimmed t).
Proof.
  unfold validateCancellationRequest.
  destruct (negb (truthy payment_id)); [discriminate|].
  destruct (isValidLength payment_id 100); [|discriminate].
  destruct (detectSQLInjection payment_id); [discriminate|]. cbn [negb].
  destruct (truthy reason) eqn:Ht.
  - destruct reason as [| | | |s]; try discriminate.
    cbn [typeof_string negb].
    destruct (isValidLength (VString s) 500) eqn:El; [|discriminate]. cbn [negb].
    destruct (detectSQLInjection (VString s)) eqn:Ed; [discriminate|].
    intros [= <-]. split; [reflexivity|]. split; [reflexivity|]. right.
    destruct (sanitized_is_clean s) as (t & E & Hc & Htr).
    exists s, t. rewrite E. repeat split; try assumption; try apply Htr.
    unfold isValidLength, on_string in El. rewrite Ht in El. cbn in El.
    apply andb_true_iff in El as [_ El]. apply Nat.leb_le in El. exact El.
  - intros [= <-]. split; [reflexivity|]. split; [reflexivity|]. left. auto.
Qed.

(** The payment ids of the service pass [validateCancellationRequest]:
    the text PAY_ followed by at most 96 digits, letters and underscores
    is let through, with an absent reason left as it is. *)
Theorem service_payment_ids_pass_the_cancellation_check (t : string) (reason : JSValue) :
  string_forall is_word t = true ->
  (String.length t <= 96)%nat ->
  truthy reason = false ->
  validateCancellationRequest (VString ("PAY_" ++ t)) reason = inr reason.
Proof.
  intros Hw Hl Hr. unfold validateCancellationRequest.
  rewrite payment_ids_are_not_flagged by exact Hw. rewrite Hr.
  rewrite !append_cons, append_nil. cbn [truthy negb].
  unfold isValidLength. rewrite on_string_nonempty.
  rewrite (proj2 (Nat.ltb_lt _ _)) by (cbn [String.length]; lia).
  rewrite (proj2 (Nat.leb_le _ _)) by (cbn [String.length]; lia).
  reflexivity.
Qed.


Section CancelRouteFacts.
Context `{RT : JSRuntime}.

Lemma cacheHousekeeping_same_store env id w :
  same_store w (snd (cacheHousekeeping env id w)).
Proof.
  unfold cacheHousekeeping, bind at 1, try_catch.
  assert (Hg : snd ((let* payment := getPaymentById env id in
                     match payment with
                     | Some (row, _) =>
                         if truthy (user_id row) then ret (user_id row) else ret VNull
                     | None => ret VNull
                     end) w) = w).
  { unfold bind. pose proof (getPaymentById_world env id w) as H.
    destruct (getPaymentById env id w) as [[[[row c]|]|e] w1]; cbn [snd] in *;
      subst w1; try reflexivity.
    destruct (truthy (user_id row)); reflexivity. }
  destruct ((let* payment := getPaymentById env id in _) w) as [[u|e] w1];
    cbn [snd] in Hg; subst w1; cbn [ret].
  - unfold bind.
    pose proof (redis_del_same_store env CS_redisDelPayment
                  ("payments:" ++ ToString id) w) as H1.
    destruct (redis_del env CS_redisDelPayment ("payments:" ++ ToString id) w)
      as [[[]|e] w1]; cbn [snd] in *; [|exact H1].
    destruct (truthy u); [|exact H1].
    eapply same_store_trans; [exact H1|apply redis_del_same_store].
  - unfold bind.
    pose proof (redis_del_same_store env CS_redisDelPayment
                  ("payments:" ++ ToString id) w) as H1.
    destruct (redis_del env CS_redisDelPayment ("payments:" ++ ToString id) w)
      as [[[]|e'] w1]; cbn [snd] in *; exact H1.
Qed.

(** Clearing the cache after a cancellation changes no answer and no
    row: the reply of the handler is settled by [cancelPayment] alone,
    and whatever the lookup and the two deletions do, fail or not, the
    store is as [cancelPayment] left it. *)
Theorem cancel_reply_is_settled_by_cancelPayment env id reason requester w :
  let cancelledBy := if truthy requester then requester else VNull in
  let r := fst (cancelPayment env id reason cancelledBy w) in
  let w1 := snd (cancelPayment env id reason cancelledBy w) in
  fst (cancelHandler env id reason requester w)
  = match r with
    | Threw error => CancelRefused (cancelErrorResponse error)
    | Returned result =>
        CancelDone 200
          {| cb_success := true;
             cb_cancellation_id := r_cancellationId result;
             cb_status := status_string (r_cancel_status result);
             cb_message := "Payment cancelled successfully" |}
    end
  /\ same_store w1 (snd (cancelHandler env id reason requester w)).
Proof.
  intros cancelledBy r w1. unfold cancelHandler. fold cancelledBy.
  subst r w1.
  destruct (cancelPayment env id reason cancelledBy w) as [[result|error] w1];
    cbn [fst snd].
  - split; [reflexivity|]. apply swallow_same_store, cacheHousekeeping_same_store.
  - split; [reflexivity|apply same_store_refl].
Qed.

End CancelRouteFacts.

Section CancelRouteAnswers.
Context `{RT : JSRuntime}.

Lemma cancelPayment_cases env paymentId reason cancelledBy w :
  working w = None -> no_faults env ->
  (negb (truthy paymentId) || negb (typeof_string paymentId)) = false ->
  exists w1,
    working w1 = None /\ redis w1 = redis w
    /\ ((select_payments (ToString paymentId) (committed w) = []
         /\ cancelPayment env paymentId reason cancelledBy w
            = (Threw (Error "Payment not found"), w1)
         /\ committed w1 = committed w)
        \/ (exists p rest,
              select_payments (ToString paymentId) (committed w) = p :: rest
              /\ status p <> Completed
              /\ cancelPayment env paymentId reason cancelledBy w
                 = (Threw (Error "Only completed payments can be cancelled"), w1)
              /\ committed w1 = committed w)
        \/ (first_completed paymentId (committed w)
            /\ existsb is_undefined [reason; cancelledBy] = true
            /\ cancelPayment env paymentId reason cancelledBy w
               = (Threw undefinedBindParameter, w1)
            /\ committed w1 = committed w)
        \/ (exists e,
              first_completed paymentId (committed w)
              /\ existsb is_undefined [reason; cancelledBy] = false
              /\ insert_cancellation
                   (cancellationRow env paymentId reason cancelledBy) (committed w)
                 = inl e
              /\ cancelPayment env paymentId reason cancelledBy w = (Threw e, w1)
              /\ committed w1 = committed w)
        \/ (first_completed paymentId (committed w)
            /\ existsb is_undefined [reason; cancelledBy] = false
            /\ cancelPayment env paymentId reason cancelledBy w
               = (Returned {| r_cancellationId := generated_cancellation_id env;
                              r_cancel_status := Cancelled |}, w1)
            /\ committed w1
               = cancelled_store env paymentId reason cancelledBy (committed w))).
Proof.
  intros Hw Hnf Hk.
  destruct (cancelPayment env paymentId reason cancelledBy w) as [r w1] eqn:E.
  pose proof (cancelPayment_effect _ _ _ _ _ _ _ Hw E) as [Hw1 H].
  destruct H as [(Habs & _)|(_ & Hr & _ & _ & Hm)]; [congruence|].
  exists w1.
  assert (Hclosed : working w1 = None)
    by (destruct r; cbn [closed] in Hw1; [exact Hw1|apply Hw1, Hnf]).
  split; [exact Hclosed|]. split; [exact Hr|].
  destruct r as [res|e].
  - destruct Hm as (_ & Hu & -> & Hfc & _ & Hc & _).
    right. right. right. right. auto.
  - destruct Hm as [Hc Hcause].
    apply cancel_cause_no_fault in Hcause; [|exact Hnf].
    destruct Hcause as [[Hs ->]|[(p & rest & Hs & Hst & ->)
                       |[(Hfc & Hu & ->)|(Hfc & Hu & Hins)]]].
    + left. auto.
    + right. left. exists p, rest. auto.
    + right. right. left. auto.
    + right. right. right. left. exists e. auto.
Qed.

Lemma swallow_run (m : IO unit) (w w1 : World) (r : Outcome unit) :
  m w = (r, w1) -> swallow m w = w1.
Proof. unfold swallow, try_catch. intros ->. destruct r; reflexivity. Qed.

Lemma requester_is_bindable (reason requester : JSValue) :
  existsb is_undefined [reason; if truthy requester then requester else VNull]
  = is_undefined reason.
Proof.
  cbn [existsb]. rewrite orb_false_r.
  destruct requester; cbn [truthy]; try (rewrite orb_false_r; reflexivity);
    match goal with
    | |- context [if ?c then _ else _] =>
        destruct c; cbn [is_undefined]; rewrite orb_false_r; reflexivity
    end.
Qed.

(** The answers of the handler of the cancellation route, for the calls
    that reach it, when the store and the cache work.  A payment id
    without a row is answered 404 PAYMENT_NOT_FOUND, a payment that is not
    completed 422 INVALID_PAYMENT_STATUS, both without any change.  For a
    completed payment the answer depends on the reason of the request:
    with a reason that is not [undefined], the cancellation id being new,
    the answer is 200 with the cancellation id, the row is cancelled, and
    the cache entry of the payment and that of its user are gone; with no
    reason in the request the driver refuses the insert and the answer is
    500 CANCELLATION_FAILED without any change. *)
Theorem cancel_handler_answers env id reason requester w :
  working w = None -> no_faults env ->
  (negb (truthy id) || negb (typeof_string id)) = false ->
  let cancelledBy := if truthy requester then requester else VNull in
  exists reply w',
    cancelHandler env id reason requester w = (reply, w')
    /\ (select_payments (ToString id) (committed w) = [] ->
        reply = CancelRefused
                  {| rs_status := 404;
                     rs_body := errorBody (Some "Payment not found")
                                  "PAYMENT_NOT_FOUND" None |}
        /\ committed w' = committed w /\ redis w' = redis w)
    /\ (forall p rest,
          select_payments (ToString id) (committed w) = p :: rest ->
          status p <> Completed ->
          reply = CancelRefused
                    {| rs_status := 422;
                       rs_body :=
                         errorBody (Some "Only completed payments can be cancelled")
                           "INVALID_PAYMENT_STATUS" None |}
          /\ committed w' = committed w /\ redis w' = redis w)
    /\ (forall p rest,
          select_payments (ToString id) (committed w) = p :: rest ->
          status p = Completed ->
          reason = VUndefined ->
          reply = CancelRefused
                    {| rs_status := 500;
                       rs_body := errorBody (Some "Failed to cancel payment")
                                    "CANCELLATION_FAILED" None |}
          /\ committed w' = committed w /\ redis w' = redis w)
    /\ (forall p rest,
          select_payments (ToString id) (committed w) = p :: rest ->
          status p = Completed ->
          reason <> VUndefined ->
          fresh_cancellation_id env (committed w) ->
          reply = CancelDone 200
                    {| cb_success := true;
                       cb_cancellation_id := generated_cancellation_id env;
                       cb_status := "cancelled";
                       cb_message := "Payment cancelled successfully" |}
          /\ committed w' = cancelled_store env id reason cancelledBy (committed w)
          /\ redis w' !! ("payments:" ++ ToString id) = None
          /\ (truthy (user_id p) = true ->
              redis w' !! ("payments:user:" ++ ToString (user_id p)) = None)).
Proof.
  intros Hw Hnf Hk cancelledBy.
  destruct (cancelPayment_cases env id reason cancelledBy w Hw Hnf Hk)
    as (w1 & Hw1 & Hr1 & Hcases).
  unfold cancelHandler. fold cancelledBy.
  assert (Hund : existsb is_undefined [reason; cancelledBy] = is_undefined reason)
    by apply requester_is_bindable.
  assert (Hone : forall p rest,
            first_completed id (committed w) ->
            select_payments (ToString id) (committed w) = p :: rest ->
            status p = Completed)
    by (intros p rest (p' & rest' & Hs' & Hst') Hs;
        rewrite Hs in Hs'; injection Hs' as <- _; exact Hst').
  destruct Hcases as [(Hs & E & Hc)|[(p & rest & Hs & Hst & E & Hc)
                     |[(Hfc & Hu & E & Hc)
                     |[(e & Hfc & Hu & Hins & E & Hc)|(Hfc & Hu & E & Hc)]]]];
    rewrite E.
  - eexists _, _. split; [reflexivity|]. split; [auto|].
    split; [|split]; intros p rest Hs'; congruence.
  - eexists _, _. split; [reflexivity|]. split; [congruence|].
    assert (Hp : forall p' rest',
              select_payments (ToString id) (committed w) = p' :: rest' ->
              status p' <> Completed)
      by (intros p' rest' Hs'; rewrite Hs in Hs'; injection Hs' as <- _; exact Hst).
    split; [intros p' rest' Hs' _; auto|].
    split; intros p' rest' Hs' Hst'; destruct (Hp p' rest' Hs' Hst').
  - rewrite Hund in Hu.
    eexists _, _. split; [reflexivity|]. split.
    { intros Hs. destruct Hfc as (p & rest & Hs' & _). congruence. }
    split; [intros p rest Hs Hst; destruct (Hst (Hone p rest Hfc Hs))|].
    split.
    + intros p rest Hs Hst _. auto.
    + intros p rest Hs Hst Hreason. destruct reason; try discriminate Hu.
      contradiction.
  - rewrite Hund in Hu.
    eexists _, _. split; [reflexivity|]. split.
    { intros Hs. destruct Hfc as (p & rest & Hs' & _). congruence. }
    split; [intros p rest Hs Hst; destruct (Hst (Hone p rest Hfc Hs))|].
    split.
    + intros p rest Hs Hst ->. discriminate Hu.
    + intros p rest Hs Hst _ Hfresh. exfalso.
      rewrite insert_cancellation_fresh in Hins; [discriminate|exact Hfresh|].
      rewrite Hs. discriminate.
  - rewrite Hund in Hu.
    eexists _, _. split; [reflexivity|]. split.
    { intros Hs. destruct Hfc as (p & rest & Hs' & _). congruence. }
    split; [intros p rest Hs Hst; destruct (Hst (Hone p rest Hfc Hs))|].
    split; [intros p rest Hs Hst ->; discriminate Hu|].
    intros p rest Hs Hst _ _. split; [reflexivity|].
    assert (Hget : getPaymentById env id w1
                   = (Returned
                        (Some (set_status Cancelled p,
                               head (List.filter
                                       (fun c => String.eqb (c_payment_id c)
                                                   (ToString id))
                                       (payment_cancellations (view w1))))), w1)).
    { rewrite getPaymentById_run; [|exact Hk|split; apply Hnf].
      unfold view at 1. rewrite Hw1, Hc, cancelled_store_select, Hs. reflexivity. }
    assert (Hrun : exists r,
              cacheHousekeeping env id w1
              = (r, set_redis
                      (if truthy (user_id p)
                       then delete ("payments:user:" ++ ToString (user_id p))
                              (delete ("payments:" ++ ToString id) (redis w1))
                       else delete ("payments:" ++ ToString id) (redis w1)) w1)).
    { unfold cacheHousekeeping, bind at 1, try_catch, bind at 1.
      rewrite Hget. cbn [set_status user_id].
      unfold redis_del, bind, call. rewrite !Hnf.
      destruct (truthy (user_id p)) eqn:Hu'; cbn [ret truthy]; rewrite ?Hu';
        eexists; reflexivity. }
    destruct Hrun as [r Hrun]. rewrite (swallow_run _ _ _ _ Hrun).
    cbn [committed redis set_redis]. split; [exact Hc|].
    destruct (truthy (user_id p)); split.
    + apply lookup_delete_None. right. apply lookup_delete_None. left. reflexivity.
    + intros _. apply lookup_delete_None. left. reflexivity.
    + apply lookup_delete_None. left. reflexivity.
    + discriminate.
Qed.

(** The route of the cancellation never reaches its handler.  The route
    names its parameter [id] and the middleware before the handler reads
    the parameter [payment_id], which no request has: every request,
    whatever its payment and its reason, is answered 400 with the message
    "payment_id is required", and nothing is changed. *)
Theorem cancel_route_always_answers_400 env id reason requester w :
  cancelRoute env id reason requester w
  = (CancelRefused
       {| rs_status := 400;
          rs_body := errorBody (Some "payment_id is required")
                       "VALIDATION_ERROR" None |}, w).
Proof. reflexivity. Qed.

End CancelRouteAnswers.

(** ** Masking *)

Lemma substring_all (s : string) : String.substring 0 (String.length s) s = s.
Proof. induction s as [|c s IH]; [reflexivity|]. cbn. rewrite IH. reflexivity. Qed.

Lemma substring_skip (a b : string) (m : nat) :
  String.substring (String.length a) m (a ++ b) = String.substring 0 m b.
Proof. induction a as [|c a IH]; [reflexivity|]. rewrite append_cons. exact IH. Qed.

Lemma substring_prefix (a b : string) :
  String.substring 0 (String.length a) (a ++ b) = a.
Proof.
  induction a as [|c a IH]; [destruct b; reflexivity|].
  rewrite append_cons. cbn. rewrite IH. reflexivity.
Qed.

Lemma slice_last_app (a b : string) (n : nat) :
  String.length b = n -> slice_last n (a ++ b) = b.
Proof.
  intros <-. unfold slice_last. rewrite length_append.
  replace (String.length a + String.length b - String.length b)%nat
    with (String.length a) by lia.
  rewrite substring_skip. apply substring_all.
Qed.

Lemma string_split_last (s : string) (n : nat) :
  (n <= String.length s)%nat ->
  exists a b, s = a ++ b /\ String.length b = n.
Proof.
  induction s as [|c s IH]; intros H.
  - exists EmptyString, EmptyString. cbn in *. split; [reflexivity|lia].
  - cbn [String.length] in H.
    destruct (Nat.eq_dec n (S (String.length s))) as [->|Hne].
    + exists EmptyString, (String c s). split; reflexivity.
    + destruct IH as (a & b & -> & Hb); [lia|].
      exists (String c a), b. split; [reflexivity|exact Hb].
Qed.

Lemma digitsOnly_spec (s : string) : digitsOnly s = string_filter is_digit s.
Proof. apply digits_of. Qed.

Lemma digitsOnly_digits (s : string) : string_forall is_digit (digitsOnly s) = true.
Proof. rewrite digitsOnly_spec. apply string_forall_filter. Qed.

Lemma digitsOnly_fixed (s : string) :
  string_forall is_digit s = true -> digitsOnly s = s.
Proof. intros H. rewrite digitsOnly_spec. apply string_filter_all, H. Qed.

Lemma mask_string_nonempty (c : ascii) (s : string) (f : string -> string) :
  mask_string (VString (String c s)) f = VString (f (String c s)).
Proof. reflexivity. Qed.

Lemma mask_string_other (v : JSValue) (f : string -> string) :
  (forall c s, v <> VString (String c s)) -> mask_string v f = v.
Proof.
  intros H. unfold mask_string.
  destruct v as [| | | |[|c s]]; try reflexivity;
    try (cbn [typeof_string negb]; rewrite orb_true_r; reflexivity).
  exfalso. apply (H c s). reflexivity.
Qed.

Lemma mask_string_other_twice (v : JSValue) (f : string -> string) :
  (forall c s, v <> VString (String c s)) ->
  mask_string (mask_string v f) f = mask_string v f.
Proof.
  intros H. rewrite (mask_string_other v f H). apply (mask_string_other v f H).
Qed.

(** A mask of digits: a text put before the last four digits. *)
Lemma digits_mask_idem (few lead : string) (v : JSValue) :
  digitsOnly few = EmptyString -> digitsOnly lead = EmptyString ->
  few <> EmptyString ->
  let mask := fun v =>
    mask_string v
      (fun s => let digits := digitsOnly s in
                if (String.length digits <? 4)%nat then few
                else lead ++ slice_last 4 digits) in
  mask (mask v) = mask v.
Proof.
  intros Hfew Hlead Hne mask. unfold mask. cbv beta.
  destruct v as [| | | |[|c s]];
    try (apply mask_string_other_twice; intros; discriminate).
  rewrite mask_string_nonempty. cbv zeta.
  destruct (String.length (digitsOnly (String c s)) <? 4)%nat eqn:E.
  - destruct few as [|d few']; [congruence|].
    rewrite mask_string_nonempty, Hfew. reflexivity.
  - apply Nat.ltb_ge in E.
    destruct (string_split_last _ 4 E) as (a & b & Hs & Hb).
    pose proof (digitsOnly_digits (String c s)) as Hd.
    rewrite Hs in *. rewrite slice_last_app by exact Hb.
    rewrite string_forall_app in Hd. apply andb_true_iff in Hd as [_ Hd].
    assert (Hdig : digitsOnly (lead ++ b) = b).
    { rewrite digitsOnly_spec, string_filter_app, <- !digitsOnly_spec.
      rewrite Hlead, (digitsOnly_fixed b Hd). reflexivity. }
    destruct (lead ++ b) as [|x r] eqn:Ex.
    { exfalso. destruct lead; [|discriminate]. rewrite append_nil in Ex.
      subst b. discriminate. }
    rewrite mask_string_nonempty, Hdig, Hb. cbn [Nat.ltb Nat.leb].
    rewrite (slice_last_app EmptyString b 4 Hb : slice_last 4 b = b), Ex.
    reflexivity.
Qed.

Lemma maskCardNumber_idem (v : JSValue) :
  maskCardNumber (maskCardNumber v) = maskCardNumber v.
Proof.
  apply (digits_mask_idem "****" "****-****-****-"); try reflexivity. discriminate.
Qed.

Lemma maskPhone_idem (v : JSValue) : maskPhone (maskPhone v) = maskPhone v.
Proof.
  apply (digits_mask_idem "***" "***-****-"); try reflexivity. discriminate.
Qed.

Lemma digits_mask_shape (few lead s before lastFour : string) :
  digitsOnly s = before ++ lastFour ->
  String.length lastFour = 4%nat ->
  mask_string (VString s)
    (fun s => let digits := digitsOnly s in
              if (String.length digits <? 4)%nat then few
              else lead ++ slice_last 4 digits)
  = VString (lead ++ lastFour).
Proof.
  intros Hs Hl. destruct s as [|c s].
  { destruct before; [|discriminate]. rewrite append_nil in Hs. subst lastFour.
    discriminate. }
  rewrite mask_string_nonempty. cbv zeta.
  rewrite Hs, length_append, Hl.
  replace (String.length before + 4 <? 4)%nat with false
    by (symmetry; apply Nat.ltb_ge; lia).
  rewrite slice_last_app by exact Hl. reflexivity.
Qed.

(** [maskCardNumber] shows the last four digits and nothing else of a
    card number: the mask of a text whose digits end in four given
    digits is the same whatever else the text holds, and a text with
    fewer than four digits is masked altogether.  Masking a mask changes
    nothing. *)
Theorem card_mask_shows_the_last_four_digits (v : JSValue)
    (s before lastFour : string) :
  maskCardNumber (maskCardNumber v) = maskCardNumber v
  /\ (digitsOnly s = before ++ lastFour ->
      String.length lastFour = 4%nat ->
      maskCardNumber (VString s) = VString ("****-****-****-" ++ lastFour))
  /\ (s <> EmptyString ->
      (String.length (digitsOnly s) < 4)%nat ->
      maskCardNumber (VString s) = VString "****").
Proof.
  split; [apply maskCardNumber_idem|]. split.
  - apply digits_mask_shape.
  - intros Hne Hl. destruct s as [|c s]; [congruence|].
    unfold maskCardNumber. rewrite mask_string_nonempty. cbv zeta.
    apply Nat.ltb_lt in Hl. rewrite Hl. reflexivity.
Qed.

(** The same for [maskPhone], whose mask is shorter. *)
Theorem phone_mask_shows_the_last_four_digits (v : JSValue)
    (s before lastFour : string) :
  maskPhone (maskPhone v) = maskPhone v
  /\ (digitsOnly s = before ++ lastFour ->
      String.length lastFour = 4%nat ->
      maskPhone (VString s) = VString ("***-****-" ++ lastFour))
  /\ (s <> EmptyString ->
      (String.length (digitsOnly s) < 4)%nat ->
      maskPhone (VString s) = VString "***").
Proof.
  split; [apply maskPhone_idem|]. split.
  - apply digits_mask_shape.
  - intros Hne Hl. destruct s as [|c s]; [congruence|].
    unfold maskPhone. rewrite mask_string_nonempty. cbv zeta.
    apply Nat.ltb_lt in Hl. rewrite Hl. reflexivity.
Qed.

(** *** Electronic mail *)

Lemma indexOf_split (c : ascii) (s : string) (n : nat) :
  indexOf c s = Some n ->
  exists u d, s = u ++ String c d /\ String.length u = n /\ indexOf c u = None.
Proof.
  revert n. induction s as [|x s IH]; intros n; [discriminate|].
  cbn [indexOf]. destruct (Ascii.eqb x c) eqn:E.
  - intros [= <-]. apply Ascii.eqb_eq in E. subst x.
    exists EmptyString, s. auto.
  - destruct (indexOf c s) as [m|]; [|discriminate]. intros [= <-].
    destruct (IH m eq_refl) as (u & d & -> & Hl & Hu).
    exists (String x u), d. split; [reflexivity|]. split; [cbn; congruence|].
    cbn [indexOf]. rewrite E, Hu. reflexivity.
Qed.

Lemma indexOf_app (c : ascii) (u d : string) :
  indexOf c u = None -> indexOf c (u ++ String c d) = Some (String.length u).
Proof.
  induction u as [|x u IH]; intros H.
  - rewrite append_nil. cbn [indexOf]. rewrite Ascii.eqb_refl. reflexivity.
  - rewrite append_cons. cbn [indexOf] in *.
    destruct (Ascii.eqb x c); [discriminate|].
    destruct (indexOf c u); [discriminate|]. rewrite IH by reflexivity. reflexivity.
Qed.

Lemma maskEmail_shape (c : ascii) (u d : string) :
  Ascii.eqb c "@" = false -> indexOf "@" u = None ->
  maskEmail (VString (String c (u ++ String "@" d)))
  = VString (String c ("***@" ++ d)).
Proof.
  intros Hc Hu. unfold maskEmail. rewrite mask_string_nonempty.
  cbn [indexOf]. rewrite Hc, indexOf_app by exact Hu.
  f_equal.
  change (String.substring 0 (S (String.length u)) (String c (u ++ String "@" d)))
    with (String c (String.substring 0 (String.length u) (u ++ String "@" d))).
  rewrite substring_prefix.
  change (String.substring 0 1 (String c u)) with (String c (String.substring 0 0 u)).
  replace (String.substring 0 0 u) with EmptyString by (destruct u; reflexivity).
  change (String.substring (S (String.length u))
            (String.length (String c (u ++ String "@" d)) - S (String.length u))
            (String c (u ++ String "@" d)))
    with (String.substring (String.length u)
            (String.length (u ++ String "@" d) - String.length u)
            (u ++ String "@" d)).
  rewrite substring_skip, length_append.
  replace (String.length u + String.length (String "@" d) - String.length u)%nat
    with (String.length (String "@" d)) by lia.
  rewrite substring_all. reflexivity.
Qed.

Lemma maskEmail_idem (v : JSValue) : maskEmail (maskEmail v) = maskEmail v.
Proof.
  destruct v as [| | | |[|c s]];
    try (apply mask_string_other_twice; intros; discriminate).
  destruct (indexOf "@" (String c s)) as [[|n]|] eqn:E.
  - assert (H : maskEmail (VString (String c s)) = VString "***")
      by (unfold maskEmail; rewrite mask_string_nonempty, E; reflexivity).
    rewrite H. reflexivity.
  - apply indexOf_split in E as (u & d & Hs & Hl & Hu).
    destruct u as [|x u]; [cbn in Hl; discriminate Hl|].
    rewrite append_cons in Hs. injection Hs as <- ->.
    cbn [indexOf] in Hu. destruct (Ascii.eqb c "@") eqn:Hc; [discriminate|].
    destruct (indexOf "@" u) eqn:Hu'; [discriminate|].
    rewrite maskEmail_shape by assumption.
    apply (maskEmail_shape c "***" d Hc). reflexivity.
  - assert (H : maskEmail (VString (String c s)) = VString "***")
      by (unfold maskEmail; rewrite mask_string_nonempty, E; reflexivity).
    rewrite H. reflexivity.
Qed.

(** [maskEmail] shows the first character of the local part and the
    domain, and nothing else of the local part; a text without an at
    sign, or with nothing before it, is masked altogether.  Masking a
    mask changes nothing. *)
Theorem email_mask_hides_the_local_part (v : JSValue) (c : ascii) (u d s : string) :
  maskEmail (maskEmail v) = maskEmail v
  /\ (Ascii.eqb c "@" = false -> indexOf "@" u = None ->
      maskEmail (VString (String c (u ++ String "@" d)))
      = VString (String c ("***@" ++ d)))
  /\ (s <> EmptyString -> indexOf "@" s = None \/ indexOf "@" s = Some O ->
      maskEmail (VString s) = VString "***").
Proof.
  split; [apply maskEmail_idem|]. split; [apply maskEmail_shape|].
  intros Hne H. destruct s as [|x s]; [congruence|].
  unfold maskEmail. rewrite mask_string_nonempty.
  destruct H as [-> | ->]; reflexivity.
Qed.

(** *** Objects *)

Section JSDataInduction.
Variable P : JSData -> Prop.
Hypothesis P_value : forall v, P (DValue v).
Hypothesis P_array : forall items, Forall P items -> P (DArray items).
Hypothesis P_object :
  forall props, Forall (fun prop => P (snd prop)) props -> P (DObject props).

Fixpoint JSData_induction (d : JSData) : P d :=
  match d with
  | DValue v => P_value v
  | DArray items =>
      P_array items
        ((fix all (l : list JSData) : Forall P l :=
            match l with
            | [] => List.Forall_nil P
            | x :: r => List.Forall_cons P x r (JSData_induction x) (all r)
            end) items)
  | DObject props =>
      P_object props
        ((fix all (l : list (string * JSData))
            : Forall (fun prop => P (snd prop)) l :=
            match l with
            | [] => List.Forall_nil _
            | (key, value) :: r =>
                List.Forall_cons _ (key, value) r (JSData_induction value) (all r)
            end) props)
  end.

End JSDataInduction.

Lemma forallb_mapped {A B : Type} (f : B -> bool) (g : A -> B) (l : list A) :
  forallb f (map g l) = forallb (fun x => f (g x)) l.
Proof.
  induction l as [|a l IH]; [reflexivity|]. cbn [map forallb]. rewrite IH. reflexivity.
Qed.

Section EachFacts.
Variables (A B : Type) (f : A -> JSError + B).

(** The loop ends in the error [e0] when an element is [bad], and in a
    list of [good] elements otherwise, when that is so for each element. *)
Lemma each_cases (bad : A -> bool) (good : B -> bool) (e0 : JSError) (l : list A) :
  Forall (fun a => match f a with
                   | inr b => bad a = false /\ good b = true
                   | inl e => bad a = true /\ e = e0
                   end) l ->
  match each f l with
  | inr bs => existsb bad l = false /\ forallb good bs = true
  | inl e => existsb bad l = true /\ e = e0
  end.
Proof.
  induction 1 as [|a l Ha _ IH]; [split; reflexivity|].
  cbn [each existsb]. destruct (f a) as [e|b0].
  - destruct Ha as [-> ->]. split; reflexivity.
  - destruct Ha as [-> Hg]. cbn [orb]. destruct (each f l) as [e|bs]; [exact IH|].
    cbn [forallb]. rewrite Hg. exact IH.
Qed.

Lemma each_returned (l : list A) (bs : list B) :
  each f l = inr bs -> Forall2 (fun a b => f a = inr b) l bs.
Proof.
  revert bs. induction l as [|a l IH]; intros bs; cbn [each].
  - intros [= <-]. constructor.
  - destruct (f a) as [e|b0] eqn:Ea; [discriminate|].
    destruct (each f l) as [e|bs0]; [discriminate|].
    intros [= <-]. constructor; [exact Ea|apply IH; reflexivity].
Qed.

Lemma each_of_Forall2 (l : list A) (bs : list B) :
  Forall2 (fun a b => f a = inr b) l bs -> each f l = inr bs.
Proof.
  induction 1 as [|a b0 l bs Ha _ IH]; [reflexivity|].
  cbn [each]. rewrite Ha, IH. reflexivity.
Qed.

End EachFacts.
Arguments each_cases {A B} f bad good e0 l.
Arguments each_returned {A B} f l bs.
Arguments each_of_Forall2 {A B} f l bs.

Lemma maskSensitiveData_array (items : list JSData) :
  maskSensitiveData (DArray items)
  = match each maskSensitiveData items with
    | inl e => inl e
    | inr masked => inr (DArray masked)
    end.
Proof. reflexivity. Qed.

Lemma maskSensitiveData_object (props : list (string * JSData)) :
  maskSensitiveData (DObject props)
  = if existsb (fun prop => String.eqb (fst prop) "hasOwnProperty") props
    then inl notAFunction
    else match each maskProperty props with
         | inl e => inl e
         | inr masked => inr (DObject masked)
         end.
Proof. reflexivity. Qed.

Lemma secret_key_redacts (key : string) :
  secret_key key = true ->
  exists name, sensitiveField key = Some (name, Redact).
Proof.
  unfold secret_key, sensitiveField, secretFields, sensitiveFields.
  cbn [existsb List.find fst].
  repeat (destruct (includes _ (toLowerCase key));
          [intros _; eexists; reflexivity|]).
  discriminate.
Qed.

Lemma plain_key_masks (key : string) :
  secret_key key = false ->
  sensitiveField key = None
  \/ exists name maskFunc,
       sensitiveField key = Some (name, maskFunc) /\ maskFunc <> Redact.
Proof.
  unfold secret_key, sensitiveField, secretFields, sensitiveFields.
  cbn [existsb List.find fst].
  do 10 (destruct (includes _ (toLowerCase key)); [discriminate|]).
  intros _.
  repeat (destruct (includes _ (toLowerCase key));
          [right; eexists _, _; split; [reflexivity|discriminate]|]).
  left. reflexivity.
Qed.

Lemma maskProperty_secret (key : string) (value : JSData) :
  secret_key key = true ->
  maskProperty (key, value) = inr (key, DValue (VString "[REDACTED]")).
Proof.
  intros H. destruct (secret_key_redacts key H) as [name E].
  unfold maskProperty. rewrite E. reflexivity.
Qed.

(** A property whose key is not secret: a text, a number and the like
    stay a value of that kind, an array or an object is masked in turn. *)
Lemma maskProperty_plain (key : string) (value : JSData) :
  secret_key key = false ->
  match value with
  | DValue v => exists v', maskProperty (key, value) = inr (key, DValue v')
  | _ =>
      maskProperty (key, value)
      = match maskSensitiveData value with
        | inl e => inl e
        | inr inTurn => inr (key, inTurn)
        end
  end.
Proof.
  intros H. unfold maskProperty.
  destruct (plain_key_masks key H) as [->|(name & maskFunc & -> & Hne)].
  - destruct value; [eexists|..]; reflexivity.
  - destruct maskFunc; [congruence|..]; destruct value;
      cbn [applyMask]; try reflexivity; eexists; reflexivity.
Qed.

(** [maskSensitiveData] either throws, when [masked.hasOwnProperty] is
    not the function it is taken for, or gives data in which every
    secret is redacted. *)
Lemma maskSensitiveData_cases (data : JSData) :
  match maskSensitiveData data with
  | inr masked => shadows_hasOwnProperty data = false /\ secrets_redacted masked = true
  | inl e => shadows_hasOwnProperty data = true /\ e = notAFunction
  end.
Proof.
  induction data as [v|items IH|props IH] using JSData_induction.
  - split; reflexivity.
  - rewrite maskSensitiveData_array.
    pose proof (each_cases maskSensitiveData shadows_hasOwnProperty secrets_redacted
                  notAFunction items IH) as H.
    cbn [shadows_hasOwnProperty].
    destruct (each maskSensitiveData items) as [e|masked]; exact H.
  - rewrite maskSensitiveData_object. cbn [shadows_hasOwnProperty].
    destruct (existsb (fun prop => String.eqb (fst prop) "hasOwnProperty") props);
      [split; reflexivity|].
    cbn [orb].
    pose proof (each_cases maskProperty
                  (fun prop => match prop with
                               | (key, value) =>
                                   negb (secret_key key) && shadows_hasOwnProperty value
                               end)
                  (fun prop => match prop with
                               | (key, value) =>
                                   (if secret_key key then is_redacted value else true)
                                   && secrets_redacted value
                               end)
                  notAFunction props) as H.
    cbn [secrets_redacted].
    destruct (each maskProperty props) as [e|masked]; apply H;
      (eapply List.Forall_impl; [|exact IH]); clear;
      intros [key value] IH; cbn [snd] in IH;
      (destruct (secret_key key) eqn:Hs;
       [rewrite maskProperty_secret by exact Hs; rewrite Hs; split; reflexivity|]);
      pose proof (maskProperty_plain key value Hs) as Hp;
      (destruct value as [v|items|props'];
       [destruct Hp as [v' ->]; rewrite Hs; split; reflexivity|..]);
      rewrite Hp; cbn [negb andb];
      (destruct (maskSensitiveData _) as [e'|inTurn]; [exact IH|]);
      rewrite Hs; exact IH.
Qed.

(** After [maskSensitiveData] no secret is left.  The function throws
    the TypeError of calling what is not a function exactly when an
    object it walks through has a property named hasOwnProperty of its
    own.  Otherwise it returns, and at every depth of the result the
    value of a property whose key includes cvv, cvc, password, api_key,
    apikey, secret or token, in any case of the letters, is the text
    [REDACTED], whatever the value was. *)
Theorem masked_data_holds_no_secret (data : JSData) :
  (shadows_hasOwnProperty data = true -> maskSensitiveData data = inl notAFunction)
  /\ (shadows_hasOwnProperty data = false ->
      exists masked, maskSensitiveData data = inr masked
                     /\ secrets_redacted masked = true)
  /\ (forall masked, maskSensitiveData data = inr masked ->
      secrets_redacted masked = true).
Proof.
  pose proof (maskSensitiveData_cases data) as H.
  destruct (maskSensitiveData data) as [e|masked].
  - destruct H as [Hs ->]. split; [reflexivity|]. split; [congruence|discriminate].
  - destruct H as [Hs Hr]. split; [congruence|]. split; [eauto|].
    intros masked' [= <-]. exact Hr.
Qed.

Lemma each_keys (props masked : list (string * JSData)) :
  each maskProperty props = inr masked -> map fst masked = map fst props.
Proof.
  intros H. apply each_returned in H.
  induction H as [|[key value] [key' value'] props masked Hp _ IH]; [reflexivity|].
  cbn [map fst]. rewrite IH. f_equal.
  unfold maskProperty in Hp.
  destruct (match sensitiveField key with
            | Some (_, maskFunc) => applyMask maskFunc value
            | None => value
            end); [|destruct (maskSensitiveData value)..]; congruence.
Qed.

Lemma existsb_keys (name : string) (props : list (string * JSData)) :
  existsb (fun prop => String.eqb (fst prop) name) props
  = existsb (fun key => String.eqb key name) (map fst props).
Proof.
  induction props as [|prop props IH]; [reflexivity|].
  cbn [existsb map]. rewrite IH. reflexivity.
Qed.

Lemma maskSensitiveData_kind (data masked : JSData) :
  maskSensitiveData data = inr masked ->
  match data with
  | DValue v => masked = DValue v
  | DArray _ => exists items, masked = DArray items
  | DObject _ => exists props, masked = DObject props
  end.
Proof.
  destruct data as [v|items|props].
  - intros [= <-]. reflexivity.
  - rewrite maskSensitiveData_array.
    destruct (each maskSensitiveData items); [discriminate|].
    intros [= <-]. eauto.
  - rewrite maskSensitiveData_object.
    destruct (existsb _ props); [discriminate|].
    destruct (each maskProperty props); [discriminate|].
    intros [= <-]. eauto.
Qed.

Lemma maskProperty_idem (key : string) (value : JSData) (masked : string * JSData) :
  (forall d, maskSensitiveData value = inr d -> maskSensitiveData d = inr d) ->
  maskProperty (key, value) = inr masked ->
  maskProperty masked = inr masked.
Proof.
  intros IH. destruct (secret_key key) eqn:Hs.
  - rewrite maskProperty_secret by exact Hs. intros [= <-].
    apply maskProperty_secret. exact Hs.
  - unfold maskProperty at 1.
    destruct (plain_key_masks key Hs) as [E|(name & maskFunc & E & Hne)]; rewrite E.
    + destruct value as [v|items|props].
      * intros [= <-]. unfold maskProperty. rewrite E. reflexivity.
      * destruct (maskSensitiveData (DArray items)) as [e|d] eqn:Em; [discriminate|].
        intros [= <-]. destruct (maskSensitiveData_kind _ _ Em) as [items' ->].
        unfold maskProperty. rewrite E, (IH _ eq_refl). reflexivity.
      * destruct (maskSensitiveData (DObject props)) as [e|d] eqn:Em; [discriminate|].
        intros [= <-]. destruct (maskSensitiveData_kind _ _ Em) as [props' ->].
        unfold maskProperty. rewrite E, (IH _ eq_refl). reflexivity.
    + destruct maskFunc; [congruence|..]; destruct value as [v|items|props];
        cbn [applyMask];
        try (intros [= <-]; unfold maskProperty; rewrite E; cbn [applyMask];
             rewrite ?maskCardNumber_idem, ?maskEmail_idem, ?maskPhone_idem;
             reflexivity);
        (destruct (maskSensitiveData _) as [e|d] eqn:Em; [discriminate|]);
        intros [= <-]; destruct (maskSensitiveData_kind _ _ Em) as [inner ->];
        unfold maskProperty; rewrite E; cbn [applyMask];
        rewrite (IH _ eq_refl); reflexivity.
Qed.

Lemma each_idem {A : Type} (f : A -> JSError + A) (l bs : list A) :
  Forall (fun a => forall b, f a = inr b -> f b = inr b) l ->
  each f l = inr bs -> each f bs = inr bs.
Proof.
  intros HF H. apply each_returned in H. apply each_of_Forall2.
  induction H as [|a b l bs Ha _ IH]; [constructor|].
  inversion HF as [|? ? Hfa HF']; subst.
  constructor; [apply (Hfa _ Ha)|apply IH; exact HF'].
Qed.

(** Masking what is masked changes nothing: data that
    [maskSensitiveData] returned goes through it again without an error
    and without masking more. *)
Theorem masking_twice_is_masking_once (data masked : JSData) :
  maskSensitiveData data = inr masked ->
  maskSensitiveData masked = inr masked.
Proof.
  revert masked.
  induction data as [v|items IH|props IH] using JSData_induction; intros masked.
  - intros [= <-]. reflexivity.
  - rewrite maskSensitiveData_array.
    destruct (each maskSensitiveData items) as [e|bs] eqn:E; [discriminate|].
    intros [= <-]. rewrite maskSensitiveData_array.
    rewrite (each_idem maskSensitiveData items bs IH E). reflexivity.
  - rewrite maskSensitiveData_object.
    destruct (existsb _ props) eqn:Hown; [discriminate|].
    destruct (each maskProperty props) as [e|bs] eqn:E; [discriminate|].
    intros [= <-]. rewrite maskSensitiveData_object.
    rewrite existsb_keys, (each_keys _ _ E), <- existsb_keys, Hown.
    rewrite (each_idem maskProperty props bs); [reflexivity| |exact E].
    eapply List.Forall_impl; [|exact IH].
    intros [key value] Hv b Hb. cbn [snd] in Hv.
    exact (maskProperty_idem key value b Hv Hb).
Qed.

(** ** The card charge *)

Lemma processCardPayment_reference (clock : Clock) (transactionId : string)
    (cardData : option CardData) (total orderId : JSValue) :
  let result := processCardPayment clock transactionId cardData total orderId in
  if cp_success result
  then cp_transactionId result = Some transactionId /\ cp_error result = None
  else cp_transactionId result = None
       /\ exists msg, cp_error result = Some msg /\ msg <> EmptyString.
Proof.
  cbv zeta. unfold processCardPayment.
  assert (Hf : forall msg, msg <> EmptyString ->
            cp_transactionId (cardFailure msg) = None
            /\ exists m, cp_error (cardFailure msg) = Some m /\ m <> EmptyString).
  { intros msg Hne. split; [reflexivity|]. destruct msg; [congruence|].
    eexists. split; [reflexivity|discriminate]. }
  destruct cardData as [data|]; [|apply Hf; discriminate].
  destruct (truthy (saved_card_id data)); [split; reflexivity|].
  destruct (negb _ || _ || _ || _); [apply Hf; discriminate|].
  destruct (negb (isValidCardNumber _)); [apply Hf; discriminate|].
  destruct (negb (isValidCVV _)); [apply Hf; discriminate|].
  destruct (negb (isValidExpiry _ _)); [apply Hf; discriminate|].
  split; reflexivity.
Qed.

(** [processCardPayment] charges a saved card without looking at the
    card fields, and a new card when number, holder, expiry and CVV are
    there and number, CVV and expiry are valid; the name of the holder is
    not checked.  A charge that succeeded carries the transaction
    reference and no error; one that failed carries an error message and
    no reference. *)
Theorem card_charge_outcomes (clock : Clock) (transactionId : string)
    (data : CardData) (total orderId : JSValue) :
  let result := processCardPayment clock transactionId (Some data) total orderId in
  cp_success result
  = truthy (saved_card_id data)
    || (truthy (card_number data) && truthy (card_holder data)
        && truthy (expiry data) && truthy (cvv data)
        && isValidCardNumber (card_number data) && isValidCVV (cvv data)
        && isValidExpiry clock (expiry data))
  /\ (if cp_success result
      then cp_transactionId result = Some transactionId /\ cp_error result = None
      else cp_transactionId result = None
           /\ exists msg, cp_error result = Some msg /\ msg <> EmptyString).
Proof.
  cbv zeta. split;
    [|apply (processCardPayment_reference clock transactionId (Some data))].
  unfold processCardPayment.
  destruct (truthy (saved_card_id data)); [reflexivity|].
  destruct (truthy (card_number data)); [|reflexivity].
  destruct (truthy (card_holder data)); [|reflexivity].
  destruct (truthy (expiry data)); [|reflexivity].
  destruct (truthy (cvv data)); [|reflexivity].
  destruct (isValidCardNumber (card_number data)); [|reflexivity].
  destruct (isValidCVV (cvv data)); [|reflexivity].
  destruct (isValidExpiry clock (expiry data)); reflexivity.
Qed.

Section CardInRoute.
Context `{RT : JSRuntime}.

(** A card result that the payment route hands to [createPayment] comes
    from a charge that succeeded and carries its transaction reference:
    when the card result of the route is what [processCardPayment]
    returned, the route either answers 422 itself or goes on with a
    result whose reference is there. *)
Theorem card_result_in_route_has_a_reference (renv : RouteEnv) (body : RequestBody)
    (clock : Clock) (transactionId : string) (cardData : option CardData)
    (total orderId : JSValue) (order : Order) (card : CardPaymentResult) :
  card_outcome renv = processCardPayment clock transactionId cardData total orderId ->
  checkOrderAndCard renv body = inr (order, Some card) ->
  cp_success card = true /\ cp_transactionId card = Some transactionId.
Proof.
  intros Hcard. unfold checkOrderAndCard.
  destruct (order_lookup renv) as [|[o|]]; try discriminate.
  destruct (negb (strict_eq_string (o_status o) "pending")); [discriminate|].
  destruct (b_card_data body
            && (strict_eq_string (b_payment_method body) "credit_card"
                || strict_eq_string (b_payment_method body) "debit_card"));
    [|discriminate].
  cbn [andb]. destruct (cp_success (card_outcome renv)) eqn:Hs; [|discriminate].
  cbn [negb]. intros [= <- <-]. split; [exact Hs|].
  rewrite Hcard in *.
  pose proof (processCardPayment_reference clock transactionId cardData total orderId)
    as H.
  cbv zeta in H. rewrite Hs in H. apply H.
Qed.

End CardInRoute.

(** ** Worked examples of the further properties *)

Lemma validated_request_passes_createPayment_checks_witness :
  @validateCreatePayment exampleRuntime (jsInt 42) (jsInt 7) exampleAmount
    (VString "card") exampleKey = None.
Proof.
  apply (proj2 (@validated_request_passes_createPayment_checks exampleRuntime
                  (exampleBody 42 "card") (jsInt 7) exampleAmount
                  ltac:(vm_compute; reflexivity))).
  vm_compute. reflexivity.
Defined.

Lemma cancellation_request_reaches_the_handler_sanitised_witness :
  isValidLength (VString "PAY_1000_a1b2c3d4e5f60718") 100 = true
  /\ detectSQLInjection (VString "PAY_1000_a1b2c3d4e5f60718") = false.
Proof.
  destruct (cancellation_request_reaches_the_handler_sanitised
              (VString "PAY_1000_a1b2c3d4e5f60718")
              (VString "  <b>changed</b> my mind ")
              (VString "changed my mind")
              ltac:(vm_compute; reflexivity)) as (H1 & H2 & _).
  split; assumption.
Defined.

Lemma service_payment_ids_pass_the_cancellation_check_witness :
  validateCancellationRequest (VString "PAY_1000_a1b2c3d4e5f60718") VUndefined
  = inr VUndefined.
Proof.
  apply (service_payment_ids_pass_the_cancellation_check "1000_a1b2c3d4e5f60718").
  - vm_compute. reflexivity.
  - vm_compute. lia.
  - reflexivity.
Defined.

Lemma cancel_handler_answers_witness :
  (exists reply w',
     @cancelHandler exampleRuntime laterEnv (VString "PAY_1000_a1b2c3d4e5f60718")
       (VString "changed my mind") VUndefined (initialWorld completedStore)
     = (reply, w')
     /\ reply = CancelDone 200
                  {| cb_success := true;
                     cb_cancellation_id := "CAN_2000_8899aabbccddeeff";
                     cb_status := "cancelled";
                     cb_message := "Payment cancelled successfully" |})
  /\ (exists reply w',
        @cancelHandler exampleRuntime laterEnv (VString "PAY_1000_a1b2c3d4e5f60718")
          VUndefined VUndefined (initialWorld completedStore)
        = (reply, w')
        /\ reply = CancelRefused
                     {| rs_status := 500;
                        rs_body := errorBody (Some "Failed to cancel payment")
                                     "CANCELLATION_FAILED" None |}
        /\ committed w' = completedStore).
Proof.
  split.
  - destruct (@cancel_handler_answers exampleRuntime laterEnv
                (VString "PAY_1000_a1b2c3d4e5f60718") (VString "changed my mind")
                VUndefined (initialWorld completedStore))
      as (reply & w' & E & _ & _ & _ & H).
    + reflexivity.
    + intros cs. reflexivity.
    + reflexivity.
    + exists reply, w'. split; [exact E|].
      apply (H completedPayment []).
      * vm_compute. reflexivity.
      * reflexivity.
      * discriminate.
      * reflexivity.
  - destruct (@cancel_handler_answers exampleRuntime laterEnv
                (VString "PAY_1000_a1b2c3d4e5f60718") VUndefined
                VUndefined (initialWorld completedStore))
      as (reply & w' & E & _ & _ & H & _).
    + reflexivity.
    + intros cs. reflexivity.
    + reflexivity.
    + exists reply, w'. split; [exact E|].
      destruct (H completedPayment []) as (Hr & Hc & _).
      * vm_compute. reflexivity.
      * reflexivity.
      * reflexivity.
      * split; [exact Hr|exact Hc].
Defined.

Lemma masked_data_holds_no_secret_witness :
  maskSensitiveData shadowingProfile = inl notAFunction
  /\ exists masked,
       maskSensitiveData exampleProfile = inr masked
       /\ secrets_redacted masked = true.
Proof.
  split.
  - apply (proj1 (masked_data_holds_no_secret shadowingProfile)).
    vm_compute. reflexivity.
  - apply (proj1 (proj2 (masked_data_holds_no_secret exampleProfile))).
    vm_compute. reflexivity.
Defined.

Lemma masking_twice_is_masking_once_witness :
  maskSensitiveData exampleProfile = inr maskedProfile
  /\ maskSensitiveData maskedProfile = inr maskedProfile.
Proof.
  assert (H : maskSensitiveData exampleProfile = inr maskedProfile)
    by (vm_compute; reflexivity).
  split; [exact H|]. exact (masking_twice_is_masking_once _ _ H).
Defined.

Lemma card_mask_shows_the_last_four_digits_witness :
  maskCardNumber (VString "4111-1111-1111-1234") = VString "****-****-****-1234"
  /\ maskCardNumber (VString "n/a") = VString "****".
Proof.
  destruct (card_mask_shows_the_last_four_digits VUndefined "4111-1111-1111-1234"
              "411111111111" "1234") as (_ & H & _).
  destruct (card_mask_shows_the_last_four_digits VUndefined "n/a"
              EmptyString EmptyString) as (_ & _ & H').
  split.
  - apply H; vm_compute; reflexivity.
  - apply H'; [discriminate|vm_compute; lia].
Defined.

Lemma phone_mask_shows_the_last_four_digits_witness :
  maskPhone (VString "010-1234-5678") = VString "***-****-5678"
  /\ maskPhone (VString "n/a") = VString "***".
Proof.
  destruct (phone_mask_shows_the_last_four_digits VUndefined "010-1234-5678"
              "0101234" "5678") as (_ & H & _).
  destruct (phone_mask_shows_the_last_four_digits VUndefined "n/a"
              EmptyString EmptyString) as (_ & _ & H').
  split.
  - apply H; vm_compute; reflexivity.
  - apply H'; [discriminate|vm_compute; lia].
Defined.

Lemma email_mask_hides_the_local_part_witness :
  maskEmail (VString "john.doe@example.com") = VString "j***@example.com"
  /\ maskEmail (VString "nobody") = VString "***".
Proof.
  destruct (email_mask_hides_the_local_part VUndefined "j" "ohn.doe" "example.com"
              "nobody") as (_ & H & H').
  split.
  - apply H; reflexivity.
  - apply H'; [discriminate|left; reflexivity].
Defined.

Lemma card_result_in_route_has_a_reference_witness :
  cp_success (card_outcome cardRoute) = true
  /\ cp_transactionId (card_outcome cardRoute) = Some "TXN-1000-ABCDEFGHI".
Proof.
  apply (@card_result_in_route_has_a_reference exampleRuntime cardRoute cardBody
           exampleClock "TXN-1000-ABCDEFGHI" (Some exampleCard) exampleAmount
           (jsInt 42) (pendingOrder exampleAmount)).
  - reflexivity.
  - vm_compute. reflexivity.
Defined.
